(** * Shallow embedding of delly's short-read discovery core (src/shortpe.h)

    The file follows the two routines of [shortpe.h]:
    - [scanPEandSR]: the per-sample streaming pass (CIGAR junction extraction,
      paired-end mate reconciliation), the two clustering stages and the
      final loop that rebuilds the split-read back-index [srStore];
    - [assembleSplitReads]: the second pass that gathers supporting reads per
      SV, calls the MSA primitive and the consensus aligner.

    Helpers that live in other headers of the repository (junction.h, util.h,
    cluster.h, msa.h, split.h) and the htslib record stream are taken as
    section variables, so every theorem holds for any implementation of them. *)

From Stdlib Require Import ZArith Lia Bool Ascii String.
From stdpp Require Import gmap strings list fin_maps.

Local Open Scope Z_scope.

(** ** Machine integers *)

(** Conversion to [uint32_t] (wrap-around). *)
Definition u32 (x : Z) : Z := x mod 2 ^ 32.

(** Conversion to [int32_t] (two's complement). *)
Definition i32 (x : Z) : Z := (x + 2 ^ 31) mod 2 ^ 32 - 2 ^ 31.

(** ** htslib: flags, CIGAR encoding and the alignment record (sam.h) *)

Module Hts.

Definition BAM_FPAIRED : Z := 1.
Definition BAM_FUNMAP : Z := 4.
Definition BAM_FMUNMAP : Z := 8.
Definition BAM_FREVERSE : Z := 16.
Definition BAM_FMREVERSE : Z := 32.
Definition BAM_FSECONDARY : Z := 256.
Definition BAM_FQCFAIL : Z := 512.
Definition BAM_FDUP : Z := 1024.
Definition BAM_FSUPPLEMENTARY : Z := 2048.

Definition BAM_CMATCH : Z := 0.
Definition BAM_CINS : Z := 1.
Definition BAM_CDEL : Z := 2.
Definition BAM_CREF_SKIP : Z := 3.
Definition BAM_CSOFT_CLIP : Z := 4.
Definition BAM_CHARD_CLIP : Z := 5.
Definition BAM_CPAD : Z := 6.
Definition BAM_CEQUAL : Z := 7.
Definition BAM_CDIFF : Z := 8.

(** [bam_cigar_op(c) = c & 0xf], [bam_cigar_oplen(c) = c >> 4]. *)
Definition bam_cigar_op (c : Z) : Z := Z.land c 15.
Definition bam_cigar_oplen (c : Z) : Z := Z.shiftr c 4.

(** [flag & mask] used as a C condition. *)
Definition flagged (flag mask : Z) : bool := negb (Z.land flag mask =? 0).

(** [bam1_t]: the fields of [rec->core] the two passes read, the query name,
    the CIGAR array (one [uint32_t] per operation) and the packed sequence
    (two 4-bit codes per byte). *)
Record bam1_t : Type := mkRec {
  flag : Z;
  tid : Z;
  pos : Z;
  qual : Z;          (* uint8_t *)
  mtid : Z;
  mpos : Z;
  isize : Z;
  l_qseq : Z;
  qname : string;
  cigar : list Z;
  seqdata : list Z   (* bytes behind bam_get_seq *)
}.

(** [bam_seqi(s, i) = s[i>>1] >> ((~i & 1) << 2) & 0xf]. *)
Definition bam_seqi (s : list Z) (i : Z) : Z :=
  Z.land (Z.shiftr (nth (Z.to_nat (Z.shiftr i 1)) s 0)
                   (if Z.even i then 4 else 0)) 15.

End Hts.
Import Hts.

(** ** Data model *)

(** [LibraryInfo]: per-sample insert-size library parameters. *)
Module LibraryInfo.
Record t : Type := mk {
  rs : Z;
  median : Z;
  mad : Z;
  maxNormalISize : Z;
  maxISizeCutoff : Z;
  abnormal_pairs : Z
}.
Definition incr_abnormal_pairs (l : t) : t :=
  mk (rs l) (median l) (mad l) (maxNormalISize l) (maxISizeCutoff l)
     (abnormal_pairs l + 1).
End LibraryInfo.

(** [BamAlignRecord]: one paired-end evidence record.  The constructor is
    declared outside shortpe.h; the record keeps the seven arguments it is
    called with at line 364. *)
Module BamAlignRecord.
Record t : Type := mk {
  rec : bam1_t;          (* the second mate, the record that emits *)
  pairQuality : Z;
  alen : Z;
  malen : Z;
  median : Z;
  mad : Z;
  maxNormalISize : Z
}.
End BamAlignRecord.

(** [SRBamRecord]: a split-read breakpoint pair. *)
Module SRBamRecord.
Record t : Type := mk {
  chr : Z;
  pos : Z;
  chr2 : Z;
  pos2 : Z;
  id : Z;                (* read identifier, std::size_t *)
  svt : Z;
  svid : Z               (* -1 until a cluster absorbs the record *)
}.
End SRBamRecord.

(** Modelled from the spec: [StructuralVariantRecord] is declared outside
    src/; the fields are those of the spec's data model (id, svt, chr1/start,
    chr2/end, PE and SR support, precise flag, consensus, SR alignment
    quality, PE-derived confidence interval), named as shortpe.h names the
    ones it touches. *)
Module StructuralVariantRecord.
Record t : Type := mk {
  id : Z;
  svt : Z;
  chr : Z;
  svStart : Z;
  chr2 : Z;
  svEnd : Z;
  peSupport : Z;
  srSupport : Z;
  precise : bool;
  consensus : string;
  srAlignQuality : Z;
  ci : (Z * Z) * (Z * Z)
}.
Definition set_consensus (s : string) (sv : t) : t :=
  mk (id sv) (svt sv) (chr sv) (svStart sv) (chr2 sv) (svEnd sv) (peSupport sv)
     (srSupport sv) (precise sv) s (srAlignQuality sv) (ci sv).
Definition set_srSupport (n : Z) (sv : t) : t :=
  mk (id sv) (svt sv) (chr sv) (svStart sv) (chr2 sv) (svEnd sv) (peSupport sv)
     n (precise sv) (consensus sv) (srAlignQuality sv) (ci sv).
End StructuralVariantRecord.

(** The part of [TConfig] that shortpe.h reads. *)
Module Config.
Record t : Type := mk {
  minMapQual : Z;
  minTraQual : Z;
  minRefSep : Z;         (* uint32_t *)
  minClip : Z;           (* uint32_t *)
  maxReadSep : Z;
  svtcmd : bool;
  svtset : gset Z;
  files : list string    (* c.files[i].string() *)
}.
End Config.

(** An observer for the calls of [_insertJunction]: the container is the list
    of calls made so far, in order. *)
Record JunctionCall : Type := mkCall {
  call_seed : Z;
  call_rp : Z;
  call_sp : Z;
  call_scleft : bool
}.

Definition traceJunction (log : list JunctionCall) (seed : Z) (rec : bam1_t)
    (rp sp : Z) (scleft : bool) : list JunctionCall :=
  log ++ [mkCall seed rp sp scleft].

(** Calls of the two external collaborators of the assembler, recorded in
    order (instrumentation only: the log is never read by the pass). *)
Inductive AsmCall : Type :=
| CallMsa (svid : nat) (seqs : list string)
| CallAlignConsensus (svid : nat).

(** Optional-result fold: [None] stands for an out-of-bounds vector access
    (undefined behaviour in the source). *)
Fixpoint foldM {A S : Type} (f : S -> A -> option S) (l : list A) (s : S)
    : option S :=
  match l with
  | [] => Some s
  | x :: l' => match f s x with Some s' => foldM f l' s' | None => None end
  end.

(** ** A small world for the examples

    Stand-ins for the helpers of the other headers and for the record
    stream: one sample, two references, a discordant pair ("pairA") and two
    split reads ("split1", "split2x"), each aligned in two parts. *)

Module Demo.

Definition config : Config.t :=
  Config.mk 20 20 25 25 40 false ∅ ["sample.bam"%string].

(** Mapping quality 20 = [minMapQual]; |isize| 550 = [maxISizeCutoff]. *)
Definition library : LibraryInfo.t := LibraryInfo.mk 100 300 20 360 550 0.

(** The same sample sequenced single-end: median 0. *)
Definition single_end_library : LibraryInfo.t := LibraryInfo.mk 100 0 0 0 0 0.

(** 50M, first mate. *)
Definition pairA_first : bam1_t :=
  mkRec 97 0 100 20 0 600 550 50 "pairA" [800] (replicate 25 18).
(** 50M, second mate, reverse strand. *)
Definition pairA_second : bam1_t :=
  mkRec 145 0 600 20 0 100 (-550) 50 "pairA" [800] (replicate 25 18).
(** 40M30S, supplementary part of a split read. *)
Definition split_left (name : string) : bam1_t :=
  mkRec 2048 0 300 30 (-1) (-1) 0 70 name [640; 484] (replicate 35 18).
(** 40S30M, primary part of the same read. *)
Definition split_right (name : string) : bam1_t :=
  mkRec 0 0 400 30 (-1) (-1) 0 70 name [644; 480] (replicate 35 18).

Definition reads : list bam1_t :=
  [pairA_first; split_left "split1"; split_left "split2x";
   split_right "split1"; split_right "split2x"; pairA_second].

Definition n_targets : nat := 2.
Definition validRegions (refIndex : Z) : list (Z * Z) :=
  if (0 <=? refIndex) && (refIndex <? 2) then [(0, 1000)] else [].
Definition hts_idx_mapped (file_c : nat) (refIndex : Z) : Z := 1.
Definition faidx_fetch_seq (refIndex : Z) : string := "ACGTACGT".
Definition sam_itr (file_c : nat) (refIndex : Z) (vR : Z * Z) : list bam1_t :=
  if (file_c =? 0)%nat && (refIndex =? 0) then reads else [].

Definition hash_string (s : string) : Z := Z.of_nat (String.length s).
Definition hash_pair (r : bam1_t) : Z :=
  (hash_string (qname r) * 1000 + pos r) * 1000 + mpos r.
Definition hash_pair_mate (r : bam1_t) : Z :=
  (hash_string (qname r) * 1000 + mpos r) * 1000 + pos r.

(** Reference span of the alignment: M, D, N, = and X operations. *)
Definition alignmentLength (r : bam1_t) : Z :=
  fold_left (fun a cg =>
               if bool_decide (bam_cigar_op cg ∈ [0; 2; 3; 7; 8])
               then a + bam_cigar_oplen cg else a) (cigar r) 0.

Definition DELLY_SVT_TRANS : nat := 5.
Definition translocationRec (r : bam1_t) : bool := negb (tid r =? mtid r).
Definition translocation (svt : Z) : bool := 5 <=? svt.
(** Deletion-type orientation (the lower mate forward, the upper mate
    reverse) with an insert size not below the cutoff is svt 2. *)
Definition isizeMappingPos (r : bam1_t) (isize_max : Z) : Z :=
  if translocationRec r then 5
  else if pos r =? mpos r then -1
  else if flagged (flag r) BAM_FREVERSE then
    if flagged (flag r) BAM_FMREVERSE then 1
    else if pos r >? mpos r then
      if Z.abs (isize r) <? isize_max then -1 else 2
    else 3
  else
    if flagged (flag r) BAM_FMREVERSE then
      if pos r <? mpos r then
        if Z.abs (isize r) <? isize_max then -1 else 2
      else 3
    else 0.
Definition firstPairObs (r : bam1_t) (seen : gset Z) : bool :=
  if tid r =? mtid r
  then (pos r <? mpos r)
       || ((pos r =? mpos r) && negb (bool_decide (hash_string (qname r) ∈ seen)))
  else tid r <? mtid r.
Definition getVariability (cfg : Config.t) (libs : list LibraryInfo.t) : Z := 0.
Definition adjustOrientation (s : string) (bpPoint : bool) (svt : Z) : string := s.

(** Junctions are kept as the list of insertions; a deletion record pairs a
    right-clipped part with a left-clipped part of the same read. *)
Definition sortJunctions (bp : list JunctionCall) : list JunctionCall := bp.
Definition deletionPairs (bp : list JunctionCall) : list SRBamRecord.t :=
  flat_map (fun a =>
    flat_map (fun b =>
      if negb (call_scleft a) && call_scleft b
         && (call_seed a =? call_seed b) && (call_rp a <? call_rp b)
      then [SRBamRecord.mk 0 (call_rp a) 0 (call_rp b) (call_seed a) 2 (-1)]
      else []) bp) bp.
Definition selectDeletions (cfg : Config.t) (bp : list JunctionCall)
    (br : list (list SRBamRecord.t)) : list (list SRBamRecord.t) :=
  <[2%nat := (br !!! 2%nat) ++ deletionPairs bp]> br.
Definition selectNone (cfg : Config.t) (bp : list JunctionCall)
    (br : list (list SRBamRecord.t)) : list (list SRBamRecord.t) := br.

Definition sortSRBamRecord (br : list SRBamRecord.t) : list SRBamRecord.t := br.
Definition sortBamRecords (br : list BamAlignRecord.t) : list BamAlignRecord.t := br.

(** One cluster per svt: the new SV takes the next index as its id. *)
Definition clusterSR (cfg : Config.t) (br : list SRBamRecord.t)
    (svs : list StructuralVariantRecord.t) (wiggle svt : Z)
  : list SRBamRecord.t * list StructuralVariantRecord.t :=
  let svid := Z.of_nat (length svs) in
  (map (fun r => SRBamRecord.mk (SRBamRecord.chr r) (SRBamRecord.pos r)
                   (SRBamRecord.chr2 r) (SRBamRecord.pos2 r) (SRBamRecord.id r)
                   (SRBamRecord.svt r) svid) br,
   svs ++ [StructuralVariantRecord.mk svid svt
             (default 0 (SRBamRecord.chr <$> head br))
             (default 0 (SRBamRecord.pos <$> head br))
             (default 0 (SRBamRecord.chr2 <$> head br))
             (default 0 (SRBamRecord.pos2 <$> head br))
             0 (Z.of_nat (length br)) true "" 0 ((0, 0), (0, 0))]).
Definition clusterPE (cfg : Config.t) (br : list BamAlignRecord.t)
    (svs : list StructuralVariantRecord.t) (varisize svt : Z)
  : list BamAlignRecord.t * list StructuralVariantRecord.t :=
  (br, svs ++ [StructuralVariantRecord.mk (Z.of_nat (length svs)) svt 0 0 0 0
                 (Z.of_nat (length br)) 0 false "" 0 ((0, 0), (0, 0))]).

(** The consensus is the first sequence; the aligner always fails. *)
Definition msa (cfg : Config.t) (seqs : list string) (old : string) : string :=
  default old (head seqs).
Definition alignConsensus (cfg : Config.t) (refseq : string)
    (sv : StructuralVariantRecord.t) : bool * StructuralVariantRecord.t :=
  (false, sv).

End Demo.

(** ** The model of shortpe.h *)

Section ShortPE.

(** *** External collaborators *)

(** junction.h: the per-sample junction container ([readBp]), the insertion
    of one junction, the per-read sort and the five selectors. *)
Context {TReadBp : Type}.
Variable readBp_empty : TReadBp.
Variable _insertJunction : TReadBp -> Z -> bam1_t -> Z -> Z -> bool -> TReadBp.
Variable sortJunctions : TReadBp -> TReadBp.
Variables selectDeletions selectDuplications selectInversions
  selectInsertions selectTranslocations :
  Config.t -> TReadBp -> list (list SRBamRecord.t) -> list (list SRBamRecord.t).

(** util.h: read-name hashes, alignment length, the two overloads of
    [_translocation], the pair classifier and the first-mate predicate. *)
Variable hash_string : string -> Z.
Variables hash_pair hash_pair_mate : bam1_t -> Z.
Variable alignmentLength : bam1_t -> Z.
Variable _translocationRec : bam1_t -> bool.
Variable _translocation : Z -> bool.
Variable _isizeMappingPos : bam1_t -> Z -> Z.
Variable _firstPairObs : bam1_t -> gset Z -> bool.
Variable getVariability : Config.t -> list LibraryInfo.t -> Z.
Variable _adjustOrientation : string -> bool -> Z -> string.

(** tags.h. *)
Variable DELLY_SVT_TRANS : nat.

(** cluster.h: the sort comparators and the two overloads of [cluster], which
    append to the SV vector and write [svid] into the member records. *)
Variable sortSRBamRecord : list SRBamRecord.t -> list SRBamRecord.t.
Variable sortBamRecords : list BamAlignRecord.t -> list BamAlignRecord.t.
Variable clusterSR : Config.t -> list SRBamRecord.t ->
  list StructuralVariantRecord.t -> Z -> Z ->
  list SRBamRecord.t * list StructuralVariantRecord.t.
Variable clusterPE : Config.t -> list BamAlignRecord.t ->
  list StructuralVariantRecord.t -> Z -> Z ->
  list BamAlignRecord.t * list StructuralVariantRecord.t.

(** msa.h and split.h: [msa] writes the consensus (third argument: its old
    value); [alignConsensus] reports success and may rewrite the SV. *)
Variable msa : Config.t -> list string -> string -> string.
Variable alignConsensus : Config.t -> string -> StructuralVariantRecord.t ->
  bool * StructuralVariantRecord.t.

(** htslib and the caller: the header's target count, the valid regions of a
    reference ([validRegions[refIndex]], a list of intervals), the index
    statistics, the reference sequence, and the records the region iterator
    yields for (file, reference, interval). *)
Variable n_targets : nat.
Variable validRegions : Z -> list (Z * Z).
Variable hts_idx_mapped : nat -> Z -> Z.
Variable faidx_fetch_seq : Z -> string.
Variable sam_itr : nat -> Z -> Z * Z -> list bam1_t.

Variable c : Config.t.

(** *** A. Junction extractor: the CIGAR loop (lines 275-307) *)

(** The body of [for k < oplen: ++sp; ++rp]. *)
Definition matchStep (p : Z * Z) : Z * Z := (u32 (fst p + 1), u32 (snd p + 1)).

(** One iteration of the loop over [cigar[i]]; the state is
    [(rp, sp, readBp)]. *)
Definition cigarStep (seed : Z) (rec : bam1_t) (st : Z * Z * TReadBp) (cg : Z)
  : Z * Z * TReadBp :=
  let '(rp, sp, readBp) := st in
  let op := bam_cigar_op cg in
  let oplen := bam_cigar_oplen cg in
  if (op =? BAM_CMATCH) || (op =? BAM_CEQUAL) || (op =? BAM_CDIFF) then
    let '(sp', rp') := Z.iter oplen matchStep (sp, rp) in
    (rp', sp', readBp)
  else if op =? BAM_CDEL then
    let readBp1 :=
      if oplen >? Config.minRefSep c
      then _insertJunction readBp seed rec rp sp false else readBp in
    let rp' := u32 (rp + oplen) in
    let readBp2 :=
      if oplen >? Config.minRefSep c
      then _insertJunction readBp1 seed rec rp' sp true else readBp1 in
    (rp', sp, readBp2)
  else if op =? BAM_CINS then
    (rp, u32 (sp + oplen), readBp)
  else if (op =? BAM_CSOFT_CLIP) || (op =? BAM_CHARD_CLIP) then
    let finalsp0 := i32 sp in
    let '(finalsp, scleft) :=
      if sp =? 0 then (i32 (finalsp0 + oplen), true) else (finalsp0, false) in
    let sp' := u32 (sp + oplen) in
    let readBp' :=
      if oplen >? Config.minClip c
      then _insertJunction readBp seed rec rp finalsp scleft else readBp in
    (rp, sp', readBp')
  else if op =? BAM_CREF_SKIP then
    (u32 (rp + oplen), sp, readBp)
  else
    (* "Warning: Unknown Cigar operation!" on std::cerr *)
    (rp, sp, readBp).

(** The whole loop: [rp = rec->core.pos], [sp = 0]. *)
Definition parseCigar (seed : Z) (rec : bam1_t) (readBp : TReadBp) : TReadBp :=
  snd (fold_left (cigarStep seed rec) (cigar rec) (u32 (pos rec), 0, readBp)).

(** *** B-D. The per-sample scanner (lines 229-373) *)

(** Worker-private state plus the two sinks a worker writes to.  [bamRecord]
    is a vector of [2 * DELLY_SVT_TRANS] lists indexed by svt; the model keeps
    a finite map from svt to its list (absent: empty). *)
Record ScanState : Type := mkScan {
  readBp : TReadBp;
  mateMap : gmap Z (Z * Z);              (* hash -> (mapQ, alignment length) *)
  matetra : gmap Z (Z * Z);              (* matetra[file_c] *)
  lastAlignedPos : Z;
  lastAlignedPosReads : gset Z;
  bamRecord : gmap Z (list BamAlignRecord.t);   (* bamRecord[svt] *)
  lib : LibraryInfo.t                    (* sampleLib[file_c] *)
}.

Definition set_readBp (bp : TReadBp) (st : ScanState) : ScanState :=
  mkScan bp (mateMap st) (matetra st) (lastAlignedPos st)
         (lastAlignedPosReads st) (bamRecord st) (lib st).

Definition set_mateMap (m : gmap Z (Z * Z)) (st : ScanState) : ScanState :=
  mkScan (readBp st) m (matetra st) (lastAlignedPos st)
         (lastAlignedPosReads st) (bamRecord st) (lib st).

Definition set_matetra (m : gmap Z (Z * Z)) (st : ScanState) : ScanState :=
  mkScan (readBp st) (mateMap st) m (lastAlignedPos st)
         (lastAlignedPosReads st) (bamRecord st) (lib st).

Definition set_lastAligned (p : Z) (s : gset Z) (st : ScanState) : ScanState :=
  mkScan (readBp st) (mateMap st) (matetra st) p s (bamRecord st) (lib st).

(** [bamRecord[svt].push_back(r); ++sampleLib[file_c].abnormal_pairs]. *)
Definition emitPair (svt : Z) (r : BamAlignRecord.t) (st : ScanState) : ScanState :=
  mkScan (readBp st) (mateMap st) (matetra st) (lastAlignedPos st)
         (lastAlignedPosReads st)
         (<[svt := (bamRecord st !!! svt) ++ [r]]> (bamRecord st))
         (LibraryInfo.incr_abnormal_pairs (lib st)).

Definition mkBamAlignRecord (rec : bam1_t) (pairQuality alenmate : Z)
    (l : LibraryInfo.t) : BamAlignRecord.t :=
  BamAlignRecord.mk rec pairQuality (alignmentLength rec) alenmate
    (LibraryInfo.median l) (LibraryInfo.mad l) (LibraryInfo.maxNormalISize l).

(** B. Pair classifier (lines 310-323): the svt of a paired record that
    passes every check, [None] where the source says [continue]. *)
Definition pairClass (overallMaxISize : Z) (rec : bam1_t) (st : ScanState)
  : option Z :=
  if negb (flagged (flag rec) BAM_FPAIRED) then None
  else if LibraryInfo.median (lib st) =? 0 then None     (* Single-end library *)
  else if flagged (flag rec) (Z.lor BAM_FSECONDARY BAM_FSUPPLEMENTARY) then None
  else if (mtid rec <? 0) || flagged (flag rec) BAM_FMUNMAP then None
  else if bool_decide (validRegions (mtid rec) = []) then None
  else if _translocationRec rec && (qual rec <? Config.minTraQual c) then None
  else
    let svt := _isizeMappingPos rec overallMaxISize in
    if svt =? -1 then None
    else if Config.svtcmd c && negb (bool_decide (svt ∈ Config.svtset c)) then None
    else Some svt.

(** C. Mate reconciler (lines 328-367). *)
Definition mateReconcile (svt : Z) (seed : Z) (rec : bam1_t) (st : ScanState)
  : ScanState :=
  (* Clean-up the read store for identical alignment positions *)
  let st1 :=
    if pos rec >? lastAlignedPos st then set_lastAligned (pos rec) ∅ st
    else st in
  if _firstPairObs rec (lastAlignedPosReads st1) then
    (* First read *)
    let st2 :=
      set_lastAligned (lastAlignedPos st1)
                      ({[seed]} ∪ lastAlignedPosReads st1) st1 in
    let hv := hash_pair rec in
    if _translocation svt
    then set_matetra (<[hv := (qual rec, alignmentLength rec)]> (matetra st2)) st2
    else set_mateMap (<[hv := (qual rec, alignmentLength rec)]> (mateMap st2)) st2
  else
    (* Second read *)
    let hv := hash_pair_mate rec in
    if _translocation svt then
      (* Inter-chromosomal *)
      match matetra st1 !! hv with
      | None => st1                                  (* Mate discarded *)
      | Some p =>
          if fst p =? 0 then st1                     (* Mate discarded *)
          else
            let pairQuality := Z.min (fst p) (qual rec) in
            let alenmate := snd p in
            let st2 := set_matetra (<[hv := (0, snd p)]> (matetra st1)) st1 in
            emitPair svt (mkBamAlignRecord rec pairQuality alenmate (lib st2)) st2
      end
    else
      (* Intra-chromosomal *)
      match mateMap st1 !! hv with
      | None => st1
      | Some p =>
          if fst p =? 0 then st1
          else
            let pairQuality := Z.min (fst p) (qual rec) in
            let alenmate := snd p in
            let st2 := set_mateMap (<[hv := (0, snd p)]> (mateMap st1)) st1 in
            emitPair svt (mkBamAlignRecord rec pairQuality alenmate (lib st2)) st2
      end.

(** The paired-end part of one loop iteration (lines 310-368): classifier,
    the library-specific insert-size check for deletions (line 326), mate
    reconciliation. *)
Definition pairedEnd (overallMaxISize : Z) (seed : Z) (rec : bam1_t)
    (st : ScanState) : ScanState :=
  match pairClass overallMaxISize rec st with
  | None => st
  | Some svt =>
      if (svt =? 2)
         && (LibraryInfo.maxISizeCutoff (lib st) >? Z.abs (isize rec))
      then st
      else mateReconcile svt seed rec st
  end.

(** The input filters of lines 269-270. *)
Definition scanFilter (rec : bam1_t) : bool :=
  if flagged (flag rec) (Z.lor BAM_FQCFAIL (Z.lor BAM_FDUP BAM_FUNMAP)) then false
  else if (qual rec <? Config.minMapQual c) || (tid rec <? 0) then false
  else true.

(** One iteration of the [while (sam_itr_next ...)] loop.  [seed] is an
    [unsigned]: the hash is truncated to 32 bits. *)
Definition scanRead (overallMaxISize : Z) (st : ScanState) (rec : bam1_t)
  : ScanState :=
  if scanFilter rec then
    let seed := u32 (hash_string (qname rec)) in
    let st1 := set_readBp (parseCigar seed rec (readBp st)) st in
    pairedEnd overallMaxISize seed rec st1
  else st.

(** One valid region: [lastAlignedPos = 0], an empty position-local set,
    then the records of the iterator in order. *)
Definition scanRegion (overallMaxISize : Z) (file_c : nat) (refIndex : Z)
    (st : ScanState) (vR : Z * Z) : ScanState :=
  fold_left (scanRead overallMaxISize) (sam_itr file_c refIndex vR)
            (set_lastAligned 0 ∅ st).

(** [str] ends in "cram" (line 252). *)
Definition cram_suffix (str : string) : bool :=
  (4 <=? String.length str)%nat
  && String.eqb (String.substring (String.length str - 4)%nat 4 str) "cram".

(** One reference of one sample (lines 244-373). *)
Definition scanChr (overallMaxISize : Z) (file_c : nat) (st : ScanState)
    (refIndex : Z) : ScanState :=
  if bool_decide (validRegions refIndex = []) then st
  else
    let nodata0 := negb (cram_suffix (default ""%string (Config.files c !! file_c))) in
    let nodata := if negb (hts_idx_mapped file_c refIndex =? 0) then false else nodata0 in
    if nodata then st
    else
      fold_left (scanRegion overallMaxISize file_c refIndex)
                (validRegions refIndex) (set_mateMap ∅ st).

Definition refIndices : list Z := map Z.of_nat (seq 0 n_targets).

(** The chromosome loop of one worker: private maps start empty, the sink
    [bamRecord] is the shared one. *)
Definition scanSampleReads (file_c : nat) (l : LibraryInfo.t)
    (sink : gmap Z (list BamAlignRecord.t)) : ScanState :=
  let overallMaxISize :=
    Z.max (LibraryInfo.maxISizeCutoff l) (LibraryInfo.rs l) in
  fold_left (scanChr overallMaxISize file_c) refIndices
            (mkScan readBp_empty ∅ ∅ 0 ∅ sink l).

(** The critical section that ends a worker (lines 376-388). *)
Definition collectSplitReads (bp : TReadBp) (srBR : list (list SRBamRecord.t))
  : list (list SRBamRecord.t) :=
  let bp' := sortJunctions bp in
  selectTranslocations c bp'
    (selectInsertions c bp'
      (selectInversions c bp'
        (selectDuplications c bp'
          (selectDeletions c bp' srBR)))).

(** *** G. The rest of [scanPEandSR] (lines 229-436) *)

(** The shared pools: split-read records per svt ([srBR]), pair evidence per
    svt (the vector [bamRecord], here [peBR]) and the per-sample library
    statistics. *)
Record Pools : Type := mkPools {
  srBR : list (list SRBamRecord.t);
  peBR : gmap Z (list BamAlignRecord.t);
  sampleLib : list LibraryInfo.t
}.

(** One iteration of the loop over samples.  The source runs the iterations
    as OpenMP workers; every write to a shared pool sits in a critical
    section, and the model runs the workers one after the other. *)
Definition scanSample (p : Pools) (file_c : nat) : Pools :=
  match sampleLib p !! file_c with
  | None => p
  | Some l =>
      let st := scanSampleReads file_c l (peBR p) in
      mkPools (collectSplitReads (readBp st) (srBR p))
              (bamRecord st)
              (<[file_c := lib st]> (sampleLib p))
  end.

Definition scanSamples (libs : list LibraryInfo.t) : Pools :=
  fold_left scanSample (seq 0 (length (Config.files c)))
            (mkPools (replicate (2 * DELLY_SVT_TRANS) []) ∅ libs).

(** Split-read clustering, one svt at a time (lines 398-407). *)
Definition clusterSRStep
    (acc : list (list SRBamRecord.t) * list StructuralVariantRecord.t)
    (svt : nat) : list (list SRBamRecord.t) * list StructuralVariantRecord.t :=
  match fst acc !! svt with
  | None | Some [] => acc
  | Some br =>
      let '(br', srSVs') :=
        clusterSR c (sortSRBamRecord br) (snd acc) (Config.maxReadSep c)
                  (Z.of_nat svt) in
      (<[svt := br']> (fst acc), srSVs')
  end.

(** Paired-end clustering (lines 415-425). *)
Definition clusterPEStep (varisize : Z)
    (acc : gmap Z (list BamAlignRecord.t) * list StructuralVariantRecord.t)
    (svt : nat) : gmap Z (list BamAlignRecord.t) * list StructuralVariantRecord.t :=
  match fst acc !!! Z.of_nat svt with
  | [] => acc
  | br =>
      let '(br', svs') :=
        clusterPE c (sortBamRecords br) (snd acc) varisize (Z.of_nat svt) in
      (<[Z.of_nat svt := br']> (fst acc), svs')
  end.

(** [srStore[chr][std::make_pair(pos, id)] = svid]: [srStore] is a vector of
    maps; an index outside the vector has no defined behaviour. *)
Definition setEntry (srStore : list (gmap (Z * Z) Z)) (chr : Z) (key : Z * Z)
    (svid : Z) : option (list (gmap (Z * Z) Z)) :=
  if chr <? 0 then None
  else match srStore !! Z.to_nat chr with
       | None => None
       | Some m => Some (<[Z.to_nat chr := <[key := svid]> m]> srStore)
       end.

(** The body of the loop "Track split-reads" (lines 431-434). *)
Definition trackStep (srStore : list (gmap (Z * Z) Z)) (r : SRBamRecord.t)
  : option (list (gmap (Z * Z) Z)) :=
  if negb (SRBamRecord.svid r =? -1) then
    match setEntry srStore (SRBamRecord.chr r)
                   (SRBamRecord.pos r, SRBamRecord.id r) (SRBamRecord.svid r) with
    | None => None
    | Some s1 =>
        setEntry s1 (SRBamRecord.chr2 r)
                 (SRBamRecord.pos2 r, SRBamRecord.id r) (SRBamRecord.svid r)
    end
  else Some srStore.

(** Lines 428-436: all svt, all records of each svt, in order. *)
Definition trackSplitReads (br : list (list SRBamRecord.t))
    (srStore : list (gmap (Z * Z) Z)) : option (list (gmap (Z * Z) Z)) :=
  foldM (fun s row => foldM trackStep row s) br srStore.

(** Lines 229-425: the sample loop and the two clustering stages.  The
    result gathers the locals [srBR] and [bamRecord] and the three vectors
    the caller passed by reference. *)
Record Clustered : Type := mkClustered {
  cl_srBR : list (list SRBamRecord.t);
  cl_srSVs : list StructuralVariantRecord.t;
  cl_bamRecord : gmap Z (list BamAlignRecord.t);
  cl_svs : list StructuralVariantRecord.t;
  cl_sampleLib : list LibraryInfo.t
}.

Definition scanAndCluster (svs srSVs : list StructuralVariantRecord.t)
    (libs : list LibraryInfo.t) : Clustered :=
  let p := scanSamples libs in
  let '(br, srSVs') :=
    fold_left clusterSRStep (seq 0 (length (srBR p))) (srBR p, srSVs) in
  let varisize := getVariability c (sampleLib p) in
  let '(pe, svs') :=
    fold_left (clusterPEStep varisize) (seq 0 (2 * DELLY_SVT_TRANS)) (peBR p, svs) in
  mkClustered br srSVs' pe svs' (sampleLib p).

(** What the caller holds when [scanPEandSR] returns. *)
Record ScanResult : Type := mkResult {
  res_svs : list StructuralVariantRecord.t;
  res_srSVs : list StructuralVariantRecord.t;
  res_srStore : list (gmap (Z * Z) Z);
  res_sampleLib : list LibraryInfo.t
}.

Definition scanPEandSR (svs srSVs : list StructuralVariantRecord.t)
    (srStore : list (gmap (Z * Z) Z)) (libs : list LibraryInfo.t)
  : option ScanResult :=
  let cl := scanAndCluster svs srSVs libs in
  match trackSplitReads (cl_srBR cl) srStore with
  | None => None
  | Some store' =>
      Some (mkResult (cl_svs cl) (cl_srSVs cl) store' (cl_sampleLib cl))
  end.

(** *** H. [assembleSplitReads] (lines 70-192) *)

Definition maxReadPerSV : Z := 20.

(** The nucleotide table indexed by the 4-bit code. *)
Definition nucleotides : list ascii := list_ascii_of_string "=ACMGRSVTWYHKDBN".

(** Lines 140-143: decode [l_qseq] bases. *)
Definition decodeSequence (rec : bam1_t) : string :=
  string_of_list_ascii
    (map (fun i => nth (Z.to_nat (bam_seqi (seqdata rec) (Z.of_nat i)))
                       nucleotides "="%char)
         (seq 0 (Z.to_nat (l_qseq rec)))).

(** The state of the pass: the SV vector (mutated in place), the per-SV
    sequence store and done flags of the current reference, and the log of
    external calls. *)
Record AsmState : Type := mkAsm {
  svs : list StructuralVariantRecord.t;
  seqStore : list (list string);
  svDone : list bool;
  calls : list AsmCall
}.

Definition asmFilter (rec : bam1_t) : bool :=
  if flagged (flag rec)
       (Z.lor BAM_FQCFAIL (Z.lor BAM_FDUP (Z.lor BAM_FUNMAP
          (Z.lor BAM_FSECONDARY BAM_FSUPPLEMENTARY)))) then false
  else if (qual rec <? Config.minMapQual c) || (tid rec <? 0) then false
  else true.

(** One iteration of the read loop (lines 128-157).  [store] is
    [srStore[refIndex]], [hits] the bitset of its positions.  [None]: the
    access [svs[svid]] falls outside the vector. *)
Definition gatherRead (refIndex : Z) (store : gmap (Z * Z) Z) (hits : gset Z)
    (st : AsmState) (rec : bam1_t) : option AsmState :=
  if negb (asmFilter rec) then Some st
  else if negb (bool_decide (pos rec ∈ hits)) then Some st
  else
    let seed := hash_string (qname rec) in
    match store !! (pos rec, seed) with
    | None => Some st
    | Some svid =>
        if svid <? 0 then None
        else
          match svs st !! Z.to_nat svid with
          | None => None
          | Some sv =>
              if svid =? i32 (StructuralVariantRecord.id sv) then
                (* Should be always true *)
                let bpPoint :=
                  if _translocationRec rec then mtid rec =? refIndex
                  else pos rec >? StructuralVariantRecord.svStart sv in
                let sequence :=
                  _adjustOrientation (decodeSequence rec) bpPoint
                                     (StructuralVariantRecord.svt sv) in
                let i := Z.to_nat svid in
                (* At most n split-reads *)
                if negb (svDone st !!! i)
                   && (Z.of_nat (length (seqStore st !!! i)) <? maxReadPerSV)
                then Some (mkAsm (svs st)
                                 (<[i := (seqStore st !!! i) ++ [sequence]]> (seqStore st))
                                 (svDone st) (calls st))
                else Some st
              else Some st
          end
    end.

(** One iteration of the loop "Do we have all SVs for one SV"
    (lines 162-177); [refseq] is the loaded reference sequence. *)
Definition completeOne (refseq : string) (st : AsmState) (svid : nat) : AsmState :=
  match svs st !! svid with
  | None => st
  | Some sv =>
      let seqs := seqStore st !!! svid in
      let n := Z.of_nat (length seqs) in
      if negb (svDone st !!! svid)
         && ((n =? maxReadPerSV) || (n =? u32 (StructuralVariantRecord.srSupport sv)))
      then
        let st1 :=
          (* MSA *)
          if negb (_translocation (StructuralVariantRecord.svt sv)) && (n >? 1) then
            let sv1 :=
              StructuralVariantRecord.set_consensus
                (msa c seqs (StructuralVariantRecord.consensus sv)) sv in
            let '(ok, sv2) := alignConsensus c refseq sv1 in
            let sv3 :=
              if ok then sv2
              else (* MSA failed *)
                StructuralVariantRecord.set_srSupport 0
                  (StructuralVariantRecord.set_consensus "" sv2) in
            mkAsm (<[svid := sv3]> (svs st)) (seqStore st) (svDone st)
                  (calls st ++ [CallMsa svid seqs; CallAlignConsensus svid])
          else st in
        (* Clean-up *)
        mkAsm (svs st1) (<[svid := []]> (seqStore st1))
              (<[svid := true]> (svDone st1)) (calls st1)
      else st
  end.

Definition completeAll (refseq : string) (st : AsmState) : AsmState :=
  fold_left (completeOne refseq) (seq 0 (length (seqStore st))) st.

(** One valid region of one file: the read loop, then the completion loop. *)
Definition assembleRegion (file_c : nat) (refIndex : Z) (store : gmap (Z * Z) Z)
    (hits : gset Z) (refseq : string) (st : AsmState) (vR : Z * Z)
  : option AsmState :=
  match foldM (gatherRead refIndex store hits) (sam_itr file_c refIndex vR) st with
  | None => None
  | Some st' => Some (completeAll refseq st')
  end.

Definition assembleFile (refIndex : Z) (store : gmap (Z * Z) Z) (hits : gset Z)
    (refseq : string) (st : AsmState) (file_c : nat) : option AsmState :=
  foldM (assembleRegion file_c refIndex store hits refseq)
        (validRegions refIndex) st.

(** Lines 118-119: [seqStore] and [svDone] are created anew for a reference. *)
Definition chrInit (svs0 : list StructuralVariantRecord.t) (log : list AsmCall)
  : AsmState :=
  mkAsm svs0 (replicate (length svs0) []) (replicate (length svs0) false) log.

(** One reference (lines 101-184). *)
Definition assembleChr (srStore : list (gmap (Z * Z) Z)) (st : AsmState)
    (refIndex : Z) : option AsmState :=
  if bool_decide (validRegions refIndex = []) then Some st
  else
    match srStore !! Z.to_nat refIndex with
    | None => None
    | Some store =>
        if bool_decide (store = ∅) then Some st
        else
          let refseq := faidx_fetch_seq refIndex in
          let hits : gset Z := set_map fst (dom store) in
          foldM (assembleFile refIndex store hits refseq)
                (seq 0 (length (Config.files c))) (chrInit (svs st) (calls st))
    end.

Definition assembleSplitReads (srStore : list (gmap (Z * Z) Z))
    (svs0 : list StructuralVariantRecord.t) : option AsmState :=
  foldM (assembleChr srStore) refIndices (mkAsm svs0 [] [] []).

(** *** Specification predicates *)

(** The records the iterator can hand to the worker of sample [file_c]. *)
Definition Seen (file_c : nat) (r : bam1_t) : Prop :=
  exists refIndex vR, In r (sam_itr file_c refIndex vR).

(** A stored mate-map entry is either consumed (quality zero) or carries the
    mapping quality of a filtered-in read that hashes to its key. *)
Definition MateOk (S : bam1_t -> Prop) (m : gmap Z (Z * Z)) : Prop :=
  forall hv p, m !! hv = Some p ->
    fst p = 0 \/
    exists r, S r /\ scanFilter r = true /\ hash_pair r = hv /\ qual r = fst p.

(** An evidence record built from a first mate [r1] and the emitting second
    mate: both passed the input filters, and the pair quality is the smaller
    mapping quality. *)
Definition PairOk (S : bam1_t -> Prop) (e : BamAlignRecord.t) : Prop :=
  exists r1,
    S r1 /\ S (BamAlignRecord.rec e) /\
    hash_pair r1 = hash_pair_mate (BamAlignRecord.rec e) /\
    BamAlignRecord.pairQuality e = Z.min (qual r1) (qual (BamAlignRecord.rec e)) /\
    Config.minMapQual c <= qual r1 /\
    Config.minMapQual c <= qual (BamAlignRecord.rec e).

(** The scanner invariant: [Q] is what is known of every record in the sink. *)
Definition ScanInv (S : bam1_t -> Prop) (Q : BamAlignRecord.t -> Prop)
    (st : ScanState) : Prop :=
  MateOk S (mateMap st) /\ MateOk S (matetra st) /\
  forall svt e, In e (bamRecord st !!! svt) -> Q e.

(** Junction extraction alone, in the order the scanner meets the records:
    the CIGAR loop on every record that passes the input filters. *)
Definition extractRead (bp : TReadBp) (rec : bam1_t) : TReadBp :=
  if scanFilter rec
  then parseCigar (u32 (hash_string (qname rec))) rec bp
  else bp.

Definition extractRegion (file_c : nat) (refIndex : Z) (bp : TReadBp)
    (vR : Z * Z) : TReadBp :=
  fold_left extractRead (sam_itr file_c refIndex vR) bp.

Definition extractChr (file_c : nat) (bp : TReadBp) (refIndex : Z) : TReadBp :=
  if bool_decide (validRegions refIndex = []) then bp
  else if negb (hts_idx_mapped file_c refIndex =? 0) then
    fold_left (extractRegion file_c refIndex) (validRegions refIndex) bp
  else if cram_suffix (default ""%string (Config.files c !! file_c)) then
    fold_left (extractRegion file_c refIndex) (validRegions refIndex) bp
  else bp.

Definition extractSample (file_c : nat) : TReadBp :=
  fold_left (extractChr file_c) refIndices readBp_empty.

(** With median 0 the scanner state moves like junction extraction alone:
    the sink and the library record stay as they are. *)
Definition SingleEndSim (l : LibraryInfo.t) (sink : gmap Z (list BamAlignRecord.t))
    (st : ScanState) (bp : TReadBp) : Prop :=
  readBp st = bp /\ lib st = l /\ bamRecord st = sink.

(** Reading the back-index: [srStore[chr].find(key)]. *)
Definition entry (srStore : list (gmap (Z * Z) Z)) (e : Z * (Z * Z)) : option Z :=
  if fst e <? 0 then None
  else match srStore !! Z.to_nat (fst e) with
       | Some m => m !! snd e
       | None => None
       end.

(** The two keys a split-read record writes. *)
Definition endpoint1 (r : SRBamRecord.t) : Z * (Z * Z) :=
  (SRBamRecord.chr r, (SRBamRecord.pos r, SRBamRecord.id r)).
Definition endpoint2 (r : SRBamRecord.t) : Z * (Z * Z) :=
  (SRBamRecord.chr2 r, (SRBamRecord.pos2 r, SRBamRecord.id r)).

Definition assigned (r : SRBamRecord.t) : bool := negb (SRBamRecord.svid r =? -1).

Definition touches (r : SRBamRecord.t) (e : Z * (Z * Z)) : bool :=
  bool_decide (endpoint1 r = e) || bool_decide (endpoint2 r = e).

(** The value of a key after the tracking loop, read off the record list: the
    svid of the last assigned record with an endpoint on the key. *)
Definition lastWrite (rs : list SRBamRecord.t) (e : Z * (Z * Z))
    (acc : option Z) : option Z :=
  fold_left (fun a r => if assigned r && touches r e
                        then Some (SRBamRecord.svid r) else a) rs acc.

(** Both references of an assigned record index the vector [srStore]. *)
Definition inStore (n : nat) (r : SRBamRecord.t) : Prop :=
  assigned r = true ->
  (0 <= SRBamRecord.chr r < Z.of_nat n) /\ (0 <= SRBamRecord.chr2 r < Z.of_nat n).

(** The states the assembler passes through while it works on one reference:
    the fresh state of line 118, then read steps and completion steps. *)
Inductive AsmReach : AsmState -> Prop :=
| reach_init (svs0 : list StructuralVariantRecord.t) (log : list AsmCall) :
    AsmReach (chrInit svs0 log)
| reach_gather (st st' : AsmState) (refIndex : Z) (store : gmap (Z * Z) Z)
    (hits : gset Z) (rec : bam1_t) :
    AsmReach st -> gatherRead refIndex store hits st rec = Some st' ->
    AsmReach st'
| reach_complete (st : AsmState) (refseq : string) (svid : nat) :
    AsmReach st -> AsmReach (completeOne refseq st svid).

(** Shape of the per-reference stores: one slot per SV, at most
    [maxReadPerSV] sequences in a slot, none in the slot of a finished SV. *)
Definition AsmInv (st : AsmState) : Prop :=
  length (seqStore st) = length (svs st) /\
  length (svDone st) = length (svs st) /\
  (forall i, Z.of_nat (length (seqStore st !!! i)) <= maxReadPerSV) /\
  (forall i, svDone st !!! i = true -> seqStore st !!! i = []).

(** The completion test of line 162 and the consensus test of line 164, on
    the number [n] of gathered sequences. *)
Definition svComplete (sv : StructuralVariantRecord.t) (n : Z) : Prop :=
  n = maxReadPerSV \/ n = u32 (StructuralVariantRecord.srSupport sv).

Definition consensusDue (sv : StructuralVariantRecord.t) (n : Z) : Prop :=
  svComplete sv n /\
  _translocation (StructuralVariantRecord.svt sv) = false /\ 2 <= n.


(** *** Further specification predicates *)

(** A CIGAR word that cannot raise a junction: not a deletion longer than
    [minRefSep], not a clip longer than [minClip]. *)
Definition quietOp (cg : Z) : bool :=
  let op := bam_cigar_op cg in
  let oplen := bam_cigar_oplen cg in
  if op =? BAM_CDEL then oplen <=? Config.minRefSep c
  else if (op =? BAM_CSOFT_CLIP) || (op =? BAM_CHARD_CLIP)
       then oplen <=? Config.minClip c
       else true.

(** Bases of the reference, and positions of the sequence pointer, that a
    CIGAR walks over in the loop of lines 280-307. *)
Definition refAdvance (cg : Z) : Z :=
  let op := bam_cigar_op cg in
  if (op =? BAM_CMATCH) || (op =? BAM_CEQUAL) || (op =? BAM_CDIFF)
     || (op =? BAM_CDEL) || (op =? BAM_CREF_SKIP)
  then bam_cigar_oplen cg else 0.

Definition seqAdvance (cg : Z) : Z :=
  let op := bam_cigar_op cg in
  if (op =? BAM_CMATCH) || (op =? BAM_CEQUAL) || (op =? BAM_CDIFF)
     || (op =? BAM_CINS) || (op =? BAM_CSOFT_CLIP) || (op =? BAM_CHARD_CLIP)
  then bam_cigar_oplen cg else 0.

Definition refSpan (cg : list Z) : Z := fold_right (fun x a => refAdvance x + a) 0 cg.
Definition seqSpan (cg : list Z) : Z := fold_right (fun x a => seqAdvance x + a) 0 cg.

(** Number of evidence records in the sink, over all svt. *)
Definition pairCount (m : gmap Z (list BamAlignRecord.t)) : nat :=
  map_fold (fun _ l n => (length l + n)%nat) 0%nat m.

(** [l'] differs from [l] in the abnormal-pair counter at most. *)
Definition sameLibrary (l l' : LibraryInfo.t) : Prop :=
  LibraryInfo.rs l' = LibraryInfo.rs l /\
  LibraryInfo.median l' = LibraryInfo.median l /\
  LibraryInfo.mad l' = LibraryInfo.mad l /\
  LibraryInfo.maxNormalISize l' = LibraryInfo.maxNormalISize l /\
  LibraryInfo.maxISizeCutoff l' = LibraryInfo.maxISizeCutoff l.

(** An evidence record stamped with the parameters of library [l]. *)
Definition carriesLibrary (l : LibraryInfo.t) (e : BamAlignRecord.t) : Prop :=
  BamAlignRecord.median e = LibraryInfo.median l /\
  BamAlignRecord.mad e = LibraryInfo.mad l /\
  BamAlignRecord.maxNormalISize e = LibraryInfo.maxNormalISize l /\
  BamAlignRecord.alen e = alignmentLength (BamAlignRecord.rec e).

(** What a worker may do to the sink and to its library record. *)
Definition SinkInv (l : LibraryInfo.t) (sink : gmap Z (list BamAlignRecord.t))
    (st : ScanState) : Prop :=
  sameLibrary l (lib st) /\
  Z.of_nat (pairCount (bamRecord st)) - LibraryInfo.abnormal_pairs (lib st)
    = Z.of_nat (pairCount sink) - LibraryInfo.abnormal_pairs l /\
  forall svt, exists new,
    bamRecord st !!! svt = sink !!! svt ++ new /\ Forall (carriesLibrary l) new.

(** The 4-bit code of base [i] read off the packed bytes: high nibble for an
    even index, low nibble for an odd one. *)
Definition nibble (s : list Z) (i : Z) : Z :=
  let byte := nth (Z.to_nat (i / 2)) s 0 in
  if Z.even i then (byte / 16) mod 16 else byte mod 16.

(** A well-formed log of external calls: pairs of one MSA call on 2 to
    [maxReadPerSV] sequences and one consensus alignment of the same SV. *)
Fixpoint callsOk (log : list AsmCall) : bool :=
  match log with
  | [] => true
  | CallMsa i seqs :: CallAlignConsensus j :: rest =>
      (i =? j)%nat && (2 <=? Z.of_nat (length seqs))
      && (Z.of_nat (length seqs) <=? maxReadPerSV) && callsOk rest
  | _ => false
  end.

(** No key of the back-index points at SV [i]. *)
Definition unreferenced (srStore : list (gmap (Z * Z) Z)) (i : nat) : Prop :=
  forall store key, In store srStore -> store !! key <> Some (Z.of_nat i).

(** What the pass keeps of an unreferenced SV [i]: its record, an empty
    slot, and the size of the vector. *)
Definition Untouched (svs0 : list StructuralVariantRecord.t) (i : nat)
    (st : AsmState) : Prop :=
  length (svs st) = length svs0 /\ svs st !! i = svs0 !! i
  /\ seqStore st !!! i = [].

(** The pass neither adds nor removes SV records. *)
Definition SameLength (svs0 : list StructuralVariantRecord.t) (st : AsmState)
  : Prop :=
  length (svs st) = length svs0.

(** The log is well formed, at the top of the pass and within a reference. *)
Definition LogOk (st : AsmState) : Prop := callsOk (calls st) = true.
Definition LogInv (st : AsmState) : Prop := AsmInv st /\ LogOk st.

(** Everything lines 310-326 have checked of a record that reaches the mate
    reconciler as class [svt], for overall maximum [o] and library [l]. *)
Definition Classified (o : Z) (l : LibraryInfo.t) (svt : Z) (rec : bam1_t) : Prop :=
  svt = _isizeMappingPos rec o /\ svt <> -1 /\
  flagged (flag rec) BAM_FPAIRED = true /\
  LibraryInfo.median l <> 0 /\
  flagged (flag rec) (Z.lor BAM_FSECONDARY BAM_FSUPPLEMENTARY) = false /\
  0 <= mtid rec /\ flagged (flag rec) BAM_FMUNMAP = false /\
  validRegions (mtid rec) <> [] /\
  (_translocationRec rec = true -> Config.minTraQual c <= qual rec) /\
  (Config.svtcmd c = true -> svt ∈ Config.svtset c) /\
  (svt = 2 -> LibraryInfo.maxISizeCutoff l <= Z.abs (isize rec)).

(** The sink holds old records and records of classified emitters. *)
Definition FilterInv (o : Z) (l : LibraryInfo.t)
    (sink : gmap Z (list BamAlignRecord.t)) (st : ScanState) : Prop :=
  sameLibrary l (lib st) /\
  forall svt e, In e (bamRecord st !!! svt) ->
    In e (sink !!! svt) \/ Classified o l svt (BamAlignRecord.rec e).

(** Every library of the pool is the caller's, up to the counter. *)
Definition PoolLibraries (libs : list LibraryInfo.t) (p : Pools) : Prop :=
  length (sampleLib p) = length libs /\
  forall i l, libs !! i = Some l ->
    exists l', sampleLib p !! i = Some l' /\ sameLibrary l l'.

(** Two worker states that differ in what the sink held at the start only:
    the private state and the library record agree, and each sink holds its
    own old records followed by the same additions. *)
Definition SinkSim (sink sink' : gmap Z (list BamAlignRecord.t))
    (st st' : ScanState) : Prop :=
  readBp st = readBp st' /\ mateMap st = mateMap st' /\
  matetra st = matetra st' /\ lastAlignedPos st = lastAlignedPos st' /\
  lastAlignedPosReads st = lastAlignedPosReads st' /\ lib st = lib st' /\
  exists new : Z -> list BamAlignRecord.t,
    forall svt, bamRecord st !!! svt = sink !!! svt ++ new svt
                /\ bamRecord st' !!! svt = sink' !!! svt ++ new svt.

(** The split-read records of all samples, computed from the junctions
    alone. *)
Definition splitReadsOnly : list (list SRBamRecord.t) :=
  fold_left (fun br file_c => collectSplitReads (extractSample file_c) br)
            (seq 0 (length (Config.files c)))
            (replicate (2 * DELLY_SVT_TRANS) []).

(** Pools of a run in which no sample has paired-end statistics. *)
Definition SingleEndPools (libs : list LibraryInfo.t) (p : Pools) : Prop :=
  peBR p = ∅ /\ sampleLib p = libs.

(** Pools whose split-read part is [br], with a library for every file. *)
Definition SplitPools (br : list (list SRBamRecord.t)) (p : Pools) : Prop :=
  srBR p = br /\ (length (Config.files c) <= length (sampleLib p))%nat.

(** *** Junction extraction in the words of the specification *)

(** The junctions one alignment operation raises at pointers [rp], [sp]
    (rules of section 4.A, the thresholds read as "longer than"): a
    deletion longer than [minRefSep] gives two junctions bracketing the gap,
    the first before the reference pointer advances ([scleft] false), the
    second after ([scleft] true); a soft or hard clip longer than [minClip]
    gives one junction, at the offset past the clip and [scleft] true when
    the clip is leading (sequence pointer still zero), at the current offset
    and [scleft] false otherwise; every other operation gives none. *)
Definition opJunctions (seed rp sp cg : Z) : list JunctionCall :=
  let op := bam_cigar_op cg in
  let oplen := bam_cigar_oplen cg in
  if op =? BAM_CDEL then
    if oplen >? Config.minRefSep c
    then [mkCall seed rp sp false; mkCall seed (u32 (rp + oplen)) sp true]
    else []
  else if (op =? BAM_CSOFT_CLIP) || (op =? BAM_CHARD_CLIP) then
    if oplen >? Config.minClip c
    then [if sp =? 0 then mkCall seed rp (i32 oplen) true
          else mkCall seed rp (i32 sp) false]
    else []
  else [].

(** The junctions of a whole CIGAR, in order: match, equal and diff advance
    both pointers, deletion and ref-skip the reference pointer, insertion
    and clips the sequence pointer. *)
Fixpoint specJunctions (seed rp sp : Z) (cg : list Z) : list JunctionCall :=
  match cg with
  | [] => []
  | w :: rest =>
      opJunctions seed rp sp w
      ++ specJunctions seed (u32 (rp + refAdvance w)) (u32 (sp + seqAdvance w))
                       rest
  end.

(** Handing a list of junctions of record [rec] to [_insertJunction]. *)
Definition insertAll (rec : bam1_t) (js : list JunctionCall) (bp : TReadBp)
  : TReadBp :=
  fold_left (fun b j =>
               _insertJunction b (call_seed j) rec (call_rp j) (call_sp j)
                               (call_scleft j)) js bp.

(** What one streamed record adds to the junction container: nothing when
    an input filter drops it, its junctions otherwise. *)
Definition readJunctions (bp : TReadBp) (rec : bam1_t) : TReadBp :=
  if scanFilter rec
  then insertAll rec
         (specJunctions (u32 (hash_string (qname rec))) (u32 (pos rec)) 0
                        (cigar rec)) bp
  else bp.

(** The records streamed for sample [file_c]: reference by reference, every
    valid region of a reference that has valid regions and either mapped
    reads or a file name ending in "cram". *)
Definition chrReads (file_c : nat) (refIndex : Z) : list bam1_t :=
  if bool_decide (validRegions refIndex = []) then []
  else if negb (hts_idx_mapped file_c refIndex =? 0)
          || cram_suffix (default ""%string (Config.files c !! file_c))
       then flat_map (sam_itr file_c refIndex) (validRegions refIndex)
       else [].

Definition sampleReads (file_c : nat) : list bam1_t :=
  flat_map (chrReads file_c) refIndices.

(** The junction container of a sample, by the specification. *)
Definition sampleJunctions (file_c : nat) : TReadBp :=
  fold_left readJunctions (sampleReads file_c) readBp_empty.

(** ** Properties *)

(** *** Junction extraction *)

Lemma oplen_range (cg : Z) :
  0 <= cg < 2 ^ 32 -> 0 <= bam_cigar_oplen cg < 2 ^ 28.
Proof.
  intros H. unfold bam_cigar_oplen. rewrite Z.shiftr_div_pow2 by lia.
  split; [apply Z.div_pos; lia | apply Z.div_lt_upper_bound; lia].
Qed.

Lemma i32_small (x : Z) : 0 <= x < 2 ^ 31 -> i32 x = x.
Proof.
  intros H. unfold i32.
  rewrite Z.mod_small by lia. lia.
Qed.

Lemma Ziter_succ {A : Type} (f : A -> A) (x : A) (k : Z) :
  0 <= k -> Z.iter (Z.succ k) f x = f (Z.iter k f x).
Proof.
  destruct k as [| p | p]; intros Hk; [reflexivity | | lia].
  change (Z.succ (Z.pos p)) with (Z.pos (p + 1)).
  rewrite Pos.add_1_r. cbn [Z.iter]. apply Pos.iter_succ.
Qed.

(** The match loop advances both pointers by the operation length. *)
Lemma matchStep_iter (n sp rp : Z) :
  0 <= n ->
  Z.iter n matchStep (u32 sp, u32 rp) = (u32 (sp + n), u32 (rp + n)).
Proof.
  intros Hn. pattern n. apply natlike_ind; [| | exact Hn].
  - cbn. rewrite !Z.add_0_r. reflexivity.
  - intros k Hk IH. rewrite Ziter_succ by exact Hk. rewrite IH.
    unfold matchStep, u32. cbn [fst snd].
    rewrite !Zplus_mod_idemp_l. f_equal; f_equal; lia.
Qed.

(** C2 (amended): in the CIGAR loop a deletion-from-reference operation longer
    than [minRefSep] (so of length [minRefSep + 1] at least) makes exactly
    the two calls of [_insertJunction], the first with the reference pointer
    before the gap and [scleft = false], the second with the pointer after
    the gap and [scleft = true]; a deletion of length [minRefSep] or less
    advances the reference pointer and inserts nothing. *)
Theorem deletion_junction_threshold (seed : Z) (rec : bam1_t) (rp sp : Z)
    (bp : TReadBp) (cg : Z) :
  bam_cigar_op cg = BAM_CDEL ->
  (Config.minRefSep c < bam_cigar_oplen cg ->
   cigarStep seed rec (rp, sp, bp) cg =
     (u32 (rp + bam_cigar_oplen cg), sp,
      _insertJunction (_insertJunction bp seed rec rp sp false)
                      seed rec (u32 (rp + bam_cigar_oplen cg)) sp true))
  /\ (bam_cigar_oplen cg <= Config.minRefSep c ->
      cigarStep seed rec (rp, sp, bp) cg =
        (u32 (rp + bam_cigar_oplen cg), sp, bp)).
Proof.
  intros Hop. unfold cigarStep. rewrite Hop. cbn [BAM_CDEL].
  change ((2 =? BAM_CMATCH) || (2 =? BAM_CEQUAL) || (2 =? BAM_CDIFF)) with false.
  change (2 =? BAM_CDEL) with true. cbv iota.
  split; intros Hlen.
  - assert (Hgt : (bam_cigar_oplen cg >? Config.minRefSep c) = true)
      by (apply Z.gtb_lt; lia).
    rewrite Hgt. reflexivity.
  - assert (Hgt : (bam_cigar_oplen cg >? Config.minRefSep c) = false)
      by (rewrite Z.gtb_ltb; apply Z.ltb_ge; lia).
    rewrite Hgt. reflexivity.
Qed.

(** C3 (amended): a soft-clip or hard-clip operation longer than [minClip] (so
    of length [minClip + 1] at least) makes exactly one call of
    [_insertJunction]: when the sequence pointer is still zero the recorded
    offset is the clip length and [scleft = true], otherwise the offset is the
    current sequence pointer and [scleft = false]; a clip of length [minClip]
    or less only advances the sequence pointer. *)
Theorem clip_junction_threshold (seed : Z) (rec : bam1_t) (rp sp : Z)
    (bp : TReadBp) (cg : Z) :
  0 <= cg < 2 ^ 32 ->
  bam_cigar_op cg = BAM_CSOFT_CLIP \/ bam_cigar_op cg = BAM_CHARD_CLIP ->
  (Config.minClip c < bam_cigar_oplen cg ->
   cigarStep seed rec (rp, sp, bp) cg =
     (rp, u32 (sp + bam_cigar_oplen cg),
      if sp =? 0
      then _insertJunction bp seed rec rp (bam_cigar_oplen cg) true
      else _insertJunction bp seed rec rp (i32 sp) false))
  /\ (bam_cigar_oplen cg <= Config.minClip c ->
      cigarStep seed rec (rp, sp, bp) cg =
        (rp, u32 (sp + bam_cigar_oplen cg), bp)).
Proof.
  intros Hcg Hop. pose proof (oplen_range cg Hcg) as Hr.
  assert (Hsel : cigarStep seed rec (rp, sp, bp) cg =
    let finalsp0 := i32 sp in
    let '(finalsp, scleft) :=
      if sp =? 0 then (i32 (finalsp0 + bam_cigar_oplen cg), true)
      else (finalsp0, false) in
    (rp, u32 (sp + bam_cigar_oplen cg),
     if bam_cigar_oplen cg >? Config.minClip c
     then _insertJunction bp seed rec rp finalsp scleft else bp)).
  { unfold cigarStep. destruct Hop as [-> | ->]; reflexivity. }
  rewrite Hsel. clear Hsel. cbv zeta.
  split; intros Hlen.
  - assert (Hgt : (bam_cigar_oplen cg >? Config.minClip c) = true)
      by (apply Z.gtb_lt; lia).
    destruct (Z.eqb_spec sp 0) as [-> | Hsp]; rewrite Hgt.
    + change (i32 0) with 0. rewrite Z.add_0_l, i32_small by lia. reflexivity.
    + reflexivity.
  - assert (Hgt : (bam_cigar_oplen cg >? Config.minClip c) = false)
      by (rewrite Z.gtb_ltb; apply Z.ltb_ge; lia).
    destruct (sp =? 0); rewrite Hgt; reflexivity.
Qed.

(** *** Paired-end evidence *)

Lemma scanFilter_qual (r : bam1_t) :
  scanFilter r = true -> Config.minMapQual c <= qual r.
Proof.
  unfold scanFilter. intros H.
  destruct (flagged _ _); [discriminate |].
  destruct (qual r <? Config.minMapQual c) eqn:E; [discriminate |].
  apply Z.ltb_ge in E. exact E.
Qed.

Lemma MateOk_empty (S : bam1_t -> Prop) : MateOk S ∅.
Proof. intros hv p H. rewrite lookup_empty in H. discriminate. Qed.

Lemma MateOk_store (S : bam1_t -> Prop) (m : gmap Z (Z * Z)) (r : bam1_t) (l : Z) :
  MateOk S m -> S r -> scanFilter r = true ->
  MateOk S (<[hash_pair r := (qual r, l)]> m).
Proof.
  intros Hm Hs Hf hv p Hlk.
  destruct (decide (hash_pair r = hv)) as [<- | Hne].
  - rewrite lookup_insert_eq in Hlk. inversion Hlk; subst. right.
    exists r. auto.
  - rewrite lookup_insert_ne in Hlk by exact Hne. eauto.
Qed.

Lemma MateOk_consume (S : bam1_t -> Prop) (m : gmap Z (Z * Z)) (hv l : Z) :
  MateOk S m -> MateOk S (<[hv := (0, l)]> m).
Proof.
  intros Hm hv' p Hlk.
  destruct (decide (hv = hv')) as [<- | Hne].
  - rewrite lookup_insert_eq in Hlk. inversion Hlk; subst. left. reflexivity.
  - rewrite lookup_insert_ne in Hlk by exact Hne. eauto.
Qed.

Lemma In_emit (svt svt' : Z) (r e : BamAlignRecord.t)
    (m : gmap Z (list BamAlignRecord.t)) :
  In e (<[svt := (m !!! svt) ++ [r]]> m !!! svt') ->
  e = r \/ In e (m !!! svt').
Proof.
  intros H. destruct (decide (svt = svt')) as [<- | Hne].
  - rewrite lookup_total_insert_eq in H. apply in_app_or in H.
    destruct H as [H | [H | []]]; auto.
  - rewrite lookup_total_insert_ne in H by exact Hne. auto.
Qed.

(** What a second mate emits when the stored entry is live. *)
Lemma PairOk_emit (S : bam1_t -> Prop) (m : gmap Z (Z * Z)) (rec : bam1_t)
    (p : Z * Z) (l : LibraryInfo.t) :
  MateOk S m -> S rec -> scanFilter rec = true ->
  m !! hash_pair_mate rec = Some p -> (fst p =? 0) = false ->
  PairOk S (mkBamAlignRecord rec (Z.min (fst p) (qual rec)) (snd p) l).
Proof.
  intros Hm Hs Hf Hlk Hnz. apply Z.eqb_neq in Hnz.
  destruct (Hm _ _ Hlk) as [Hz | (r1 & Hs1 & Hf1 & Hh & Hq)]; [contradiction |].
  exists r1. cbn. rewrite Hq.
  repeat split; auto using scanFilter_qual.
  rewrite <- Hq. auto using scanFilter_qual.
Qed.

Lemma mateReconcile_inv (S : bam1_t -> Prop) (Q : BamAlignRecord.t -> Prop)
    (svt seed : Z) (rec : bam1_t) (st : ScanState) :
  (forall e, PairOk S e -> Q e) ->
  S rec -> scanFilter rec = true ->
  ScanInv S Q st -> ScanInv S Q (mateReconcile svt seed rec st).
Proof.
  intros HQ Hs Hf (Hmm & Hmt & Hbr).
  assert (Hst1 : ScanInv S Q
            (if pos rec >? lastAlignedPos st
             then set_lastAligned (pos rec) ∅ st else st)).
  { destruct (pos rec >? lastAlignedPos st); repeat split; assumption. }
  unfold mateReconcile. cbv zeta.
  set (st1 := if pos rec >? lastAlignedPos st
              then set_lastAligned (pos rec) ∅ st else st) in *.
  destruct Hst1 as (Hmm1 & Hmt1 & Hbr1).
  destruct (_firstPairObs rec (lastAlignedPosReads st1)).
  - destruct (_translocation _); repeat split; cbn;
      auto using MateOk_store.
  - destruct (_translocation svt).
    + destruct (matetra st1 !! hash_pair_mate rec) as [p |] eqn:Hlk;
        [| repeat split; assumption].
      destruct (fst p =? 0) eqn:Hz; [repeat split; assumption |].
      repeat split; cbn; auto using MateOk_consume.
      intros svt' e Hin. apply In_emit in Hin. destruct Hin as [-> | Hin]; eauto.
      apply HQ. apply (PairOk_emit S (matetra st1)); assumption.
    + destruct (mateMap st1 !! hash_pair_mate rec) as [p |] eqn:Hlk;
        [| repeat split; assumption].
      destruct (fst p =? 0) eqn:Hz; [repeat split; assumption |].
      repeat split; cbn; auto using MateOk_consume.
      intros svt' e Hin. apply In_emit in Hin. destruct Hin as [-> | Hin]; eauto.
      apply HQ. apply (PairOk_emit S (mateMap st1)); assumption.
Qed.

Lemma pairedEnd_inv (S : bam1_t -> Prop) (Q : BamAlignRecord.t -> Prop)
    (o seed : Z) (rec : bam1_t) (st : ScanState) :
  (forall e, PairOk S e -> Q e) ->
  S rec -> scanFilter rec = true ->
  ScanInv S Q st -> ScanInv S Q (pairedEnd o seed rec st).
Proof.
  intros HQ Hs Hf Hinv. unfold pairedEnd.
  destruct (pairClass o rec st) as [svt |]; [| exact Hinv].
  destruct (_ && _); [exact Hinv |].
  apply mateReconcile_inv; assumption.
Qed.

Lemma fold_left_inv {A B : Type} (P : A -> Prop) (f : A -> B -> A) (l : list B) :
  (forall a x, In x l -> P a -> P (f a x)) ->
  forall a, P a -> P (fold_left f l a).
Proof.
  induction l as [| x l IH]; intros Hf a Ha; [exact Ha |].
  cbn. apply IH.
  - intros a' y Hy. apply Hf. right. exact Hy.
  - apply Hf; [left; reflexivity | exact Ha].
Qed.

Lemma scanRead_inv (S : bam1_t -> Prop) (Q : BamAlignRecord.t -> Prop)
    (o : Z) (rec : bam1_t) (st : ScanState) :
  (forall e, PairOk S e -> Q e) ->
  S rec -> ScanInv S Q st -> ScanInv S Q (scanRead o st rec).
Proof.
  intros HQ Hs Hinv. unfold scanRead.
  destruct (scanFilter rec) eqn:Hf; [| exact Hinv].
  apply pairedEnd_inv; assumption.
Qed.

Lemma scanSampleReads_inv (Q : BamAlignRecord.t -> Prop) (file_c : nat)
    (l : LibraryInfo.t) (sink : gmap Z (list BamAlignRecord.t)) :
  (forall e, PairOk (Seen file_c) e -> Q e) ->
  (forall svt e, In e (sink !!! svt) -> Q e) ->
  ScanInv (Seen file_c) Q (scanSampleReads file_c l sink).
Proof.
  intros HQ Hsink. unfold scanSampleReads.
  apply fold_left_inv.
  - intros st refIndex _ Hinv. unfold scanChr.
    destruct (bool_decide _); [exact Hinv |].
    destruct (if negb _ then false else _); [exact Hinv |].
    apply fold_left_inv.
    + intros st' vR _ Hinv'. unfold scanRegion.
      apply fold_left_inv.
      * intros st'' rec Hin Hinv''. apply scanRead_inv; try assumption.
        exists refIndex, vR. exact Hin.
      * destruct Hinv' as (? & ? & ?). repeat split; assumption.
    + destruct Hinv as (? & ? & ?).
      repeat split; try assumption. apply MateOk_empty.
  - repeat split; try apply MateOk_empty. exact Hsink.
Qed.

(** C4 (amended): every paired-end evidence record in the pool after the
    sample loop of [scanPEandSR] was emitted by a second mate [rec e] of some
    sample that met the stored entry of a first mate [r1] of the same sample;
    its pair quality is the minimum of the two mapping qualities, and both
    mapping qualities are at least [minMapQual] (the input filter drops a read
    only when its quality is strictly below the threshold). *)
Theorem pair_quality_is_min_of_mates (libs : list LibraryInfo.t) (svt : Z)
    (e : BamAlignRecord.t) :
  In e (peBR (scanSamples libs) !!! svt) ->
  exists file_c r1,
    Seen file_c r1 /\ Seen file_c (BamAlignRecord.rec e) /\
    hash_pair r1 = hash_pair_mate (BamAlignRecord.rec e) /\
    BamAlignRecord.pairQuality e
      = Z.min (qual r1) (qual (BamAlignRecord.rec e)) /\
    Config.minMapQual c <= qual r1 /\
    Config.minMapQual c <= qual (BamAlignRecord.rec e).
Proof.
  set (Q := fun e => exists file_c, PairOk (Seen file_c) e).
  assert (Hall : forall svt' e', In e' (peBR (scanSamples libs) !!! svt') -> Q e').
  { unfold scanSamples. apply fold_left_inv.
    - intros p file_c _ Hp. unfold scanSample.
      destruct (sampleLib p !! file_c) as [l |]; [| exact Hp].
      cbn. apply (scanSampleReads_inv Q file_c l (peBR p)); [| exact Hp].
      intros e' He'. exists file_c. exact He'.
    - cbn. intros svt' e'. rewrite lookup_total_empty. intros []. }
  intros Hin. destruct (Hall _ _ Hin) as (file_c & r1 & H).
  exists file_c, r1. exact H.
Qed.

(** C8 (amended): for a paired read that the classifier makes a deletion
    candidate (svt 2), line 326 rejects the read when the absolute insert size
    is strictly below the sample's [maxISizeCutoff], and hands it to mate
    reconciliation when the absolute insert size is at least the cutoff
    (equality included). *)
Theorem deletion_pairs_isize_cutoff (o seed : Z) (rec : bam1_t) (st : ScanState) :
  pairClass o rec st = Some 2 ->
  (Z.abs (isize rec) < LibraryInfo.maxISizeCutoff (lib st) ->
   pairedEnd o seed rec st = st)
  /\ (LibraryInfo.maxISizeCutoff (lib st) <= Z.abs (isize rec) ->
      pairedEnd o seed rec st = mateReconcile 2 seed rec st).
Proof.
  intros Hcl. unfold pairedEnd. rewrite Hcl.
  change (2 =? 2) with true. rewrite andb_true_l.
  split; intros H.
  - assert (E : (LibraryInfo.maxISizeCutoff (lib st) >? Z.abs (isize rec)) = true)
      by (apply Z.gtb_lt; lia).
    rewrite E. reflexivity.
  - assert (E : (LibraryInfo.maxISizeCutoff (lib st) >? Z.abs (isize rec)) = false)
      by (rewrite Z.gtb_ltb; apply Z.ltb_ge; lia).
    rewrite E. reflexivity.
Qed.

(** *** Single-end libraries *)

Lemma pairClass_single_end (o : Z) (rec : bam1_t) (st : ScanState) :
  LibraryInfo.median (lib st) = 0 -> pairClass o rec st = None.
Proof.
  intros Hm. unfold pairClass. rewrite Hm.
  destruct (negb _); reflexivity.
Qed.

Lemma fold_left_sim {A A' B : Type} (R : A -> A' -> Prop)
    (f : A -> B -> A) (f' : A' -> B -> A') (l : list B) :
  (forall a a' x, R a a' -> R (f a x) (f' a' x)) ->
  forall a a', R a a' -> R (fold_left f l a) (fold_left f' l a').
Proof.
  intros Hstep. induction l as [| x l IH]; intros a a' Ha; [exact Ha |].
  cbn. apply IH. apply Hstep. exact Ha.
Qed.

Lemma scanRead_single_end (l : LibraryInfo.t)
    (sink : gmap Z (list BamAlignRecord.t)) (o : Z) (st : ScanState)
    (bp : TReadBp) (rec : bam1_t) :
  LibraryInfo.median l = 0 ->
  SingleEndSim l sink st bp ->
  SingleEndSim l sink (scanRead o st rec) (extractRead bp rec).
Proof.
  intros Hm (Hbp & Hl & Hs). unfold scanRead, extractRead.
  destruct (scanFilter rec); [| repeat split; assumption].
  unfold pairedEnd. rewrite pairClass_single_end by (cbn; rewrite Hl; exact Hm).
  repeat split; cbn; congruence.
Qed.

Lemma scanSampleReads_single_end (file_c : nat) (l : LibraryInfo.t)
    (sink : gmap Z (list BamAlignRecord.t)) :
  LibraryInfo.median l = 0 ->
  SingleEndSim l sink (scanSampleReads file_c l sink) (extractSample file_c).
Proof.
  intros Hm. unfold scanSampleReads, extractSample.
  apply fold_left_sim; [| repeat split].
  intros st bp refIndex Hsim. unfold scanChr, extractChr.
  destruct (bool_decide _); [exact Hsim |].
  assert (Hregions : SingleEndSim l sink
            (fold_left (scanRegion (Z.max (LibraryInfo.maxISizeCutoff l)
                                          (LibraryInfo.rs l)) file_c refIndex)
                       (validRegions refIndex) (set_mateMap ∅ st))
            (fold_left (extractRegion file_c refIndex) (validRegions refIndex) bp)).
  { apply fold_left_sim.
    - intros st' bp' vR Hsim'. unfold scanRegion, extractRegion.
      apply fold_left_sim.
      + intros st'' bp'' rec Hsim''. apply scanRead_single_end; assumption.
      + destruct Hsim' as (? & ? & ?). repeat split; assumption.
    - destruct Hsim as (? & ? & ?). repeat split; assumption. }
  destruct (negb (hts_idx_mapped file_c refIndex =? 0)); [exact Hregions |].
  destruct (cram_suffix _); [exact Hregions | exact Hsim].
Qed.

(** *** The split-read back-index *)

Lemma foldM_app {A St : Type} (f : St -> A -> option St) (l1 l2 : list A) (s : St) :
  foldM f (l1 ++ l2) s =
  match foldM f l1 s with Some s' => foldM f l2 s' | None => None end.
Proof.
  revert s. induction l1 as [| x l1 IH]; intros s; cbn; [reflexivity |].
  destruct (f s x); [apply IH | reflexivity].
Qed.

Lemma trackSplitReads_flat (br : list (list SRBamRecord.t))
    (store : list (gmap (Z * Z) Z)) :
  trackSplitReads br store = foldM trackStep (concat br) store.
Proof.
  unfold trackSplitReads. revert store.
  induction br as [| row br IH]; intros store; cbn; [reflexivity |].
  rewrite foldM_app. destruct (foldM trackStep row store); [apply IH | reflexivity].
Qed.

Lemma setEntry_defined (store : list (gmap (Z * Z) Z)) (chr : Z) (key : Z * Z)
    (v : Z) :
  0 <= chr < Z.of_nat (length store) ->
  exists s', setEntry store chr key v = Some s'.
Proof.
  intros H. unfold setEntry.
  assert (E : (chr <? 0) = false) by (apply Z.ltb_ge; lia). rewrite E.
  destruct (lookup_lt_is_Some_2 store (Z.to_nat chr)) as [m Hm]; [lia |].
  rewrite Hm. eauto.
Qed.

Lemma setEntry_entry (store s' : list (gmap (Z * Z) Z)) (chr : Z) (key : Z * Z)
    (v : Z) (e : Z * (Z * Z)) :
  setEntry store chr key v = Some s' ->
  length s' = length store /\
  entry s' e = if bool_decide ((chr, key) = e) then Some v else entry store e.
Proof.
  unfold setEntry. destruct (chr <? 0) eqn:Hneg; [discriminate |].
  apply Z.ltb_ge in Hneg.
  destruct (store !! Z.to_nat chr) as [m |] eqn:Hm; [| discriminate].
  intros [= <-]. split; [apply length_insert |].
  pose proof (lookup_lt_Some _ _ _ Hm) as Hlt.
  destruct e as [chr' key']. unfold entry. cbn [fst snd].
  destruct (chr' <? 0) eqn:Hneg'.
  - apply Z.ltb_lt in Hneg'. rewrite bool_decide_eq_false_2; [reflexivity |].
    intros [= -> _]. lia.
  - apply Z.ltb_ge in Hneg'.
    destruct (decide (chr = chr')) as [<- | Hne].
    + rewrite list_lookup_insert_eq by exact Hlt. rewrite Hm.
      destruct (decide (key = key')) as [<- | Hk].
      * rewrite bool_decide_eq_true_2 by reflexivity. apply lookup_insert_eq.
      * rewrite bool_decide_eq_false_2 by congruence.
        apply lookup_insert_ne. exact Hk.
    + rewrite bool_decide_eq_false_2 by congruence.
      rewrite list_lookup_insert_ne; [reflexivity |].
      intros Heq. apply Hne. apply Z2Nat.inj; assumption.
Qed.

Lemma trackStep_entry (store s' : list (gmap (Z * Z) Z)) (r : SRBamRecord.t)
    (e : Z * (Z * Z)) :
  trackStep store r = Some s' ->
  length s' = length store /\
  entry s' e = if assigned r && touches r e
               then Some (SRBamRecord.svid r) else entry store e.
Proof.
  unfold trackStep, assigned, touches.
  destruct (negb (SRBamRecord.svid r =? -1)); cbn [andb].
  - destruct (setEntry store _ _ _) as [s1 |] eqn:H1; [| discriminate].
    intros H2.
    destruct (setEntry_entry _ _ _ _ _ e H1) as [L1 E1].
    destruct (setEntry_entry _ _ _ _ _ e H2) as [L2 E2].
    split; [congruence |]. rewrite E2, E1. unfold endpoint1, endpoint2.
    destruct (bool_decide (_ = e)), (bool_decide (_ = e)); reflexivity.
  - intros [= <-]. split; reflexivity.
Qed.

Lemma lastWrite_cons (r : SRBamRecord.t) (rs : list SRBamRecord.t)
    (e : Z * (Z * Z)) (acc : option Z) :
  lastWrite (r :: rs) e acc =
  lastWrite rs e (if assigned r && touches r e
                  then Some (SRBamRecord.svid r) else acc).
Proof. reflexivity. Qed.

Lemma track_flat_entry (rs : list SRBamRecord.t)
    (store s' : list (gmap (Z * Z) Z)) (e : Z * (Z * Z)) :
  foldM trackStep rs store = Some s' ->
  entry s' e = lastWrite rs e (entry store e).
Proof.
  revert store. induction rs as [| r rs IH]; intros store.
  - cbn. intros [= <-]. reflexivity.
  - rewrite lastWrite_cons. cbn [foldM].
    destruct (trackStep store r) as [s1 |] eqn:H1; [| discriminate].
    intros H. rewrite (IH _ H).
    destruct (trackStep_entry _ _ _ e H1) as [_ ->]. reflexivity.
Qed.

Lemma track_flat_defined (rs : list SRBamRecord.t)
    (store : list (gmap (Z * Z) Z)) :
  (forall r, In r rs -> inStore (length store) r) ->
  exists s', foldM trackStep rs store = Some s'.
Proof.
  revert store. induction rs as [| r rs IH]; intros store Hr; cbn; [eauto |].
  assert (H1 : exists s1, trackStep store r = Some s1).
  { unfold trackStep. pose proof (Hr r (or_introl eq_refl)) as Hin.
    unfold inStore, assigned in Hin.
    destruct (negb (SRBamRecord.svid r =? -1)); [| eauto].
    destruct (Hin eq_refl) as [Hc1 Hc2].
    destruct (setEntry_defined store _ (SRBamRecord.pos r, SRBamRecord.id r)
                (SRBamRecord.svid r) Hc1) as [s1 Hs1].
    rewrite Hs1. apply setEntry_defined.
    destruct (setEntry_entry _ _ _ _ _ (0, (0, 0)) Hs1) as [-> _]. exact Hc2. }
  destruct H1 as [s1 H1]. rewrite H1.
  apply IH. intros r' Hr'.
  destruct (trackStep_entry _ _ _ (0, (0, 0)) H1) as [-> _].
  apply Hr. right. exact Hr'.
Qed.

(** A key keeps its old value or holds the svid of an assigned record that
    has an endpoint on it. *)
Lemma lastWrite_cases (rs : list SRBamRecord.t) (e : Z * (Z * Z)) (acc : option Z) :
  lastWrite rs e acc = acc \/
  exists r', In r' rs /\ assigned r' = true /\ touches r' e = true /\
             lastWrite rs e acc = Some (SRBamRecord.svid r').
Proof.
  revert acc. induction rs as [| r rs IH]; intros acc; [left; reflexivity |].
  rewrite lastWrite_cons.
  destruct (assigned r && touches r e) eqn:Hr.
  - apply andb_true_iff in Hr. destruct Hr as [Ha Ht].
    destruct (IH (Some (SRBamRecord.svid r))) as [-> | (r' & Hin & ? & ? & ?)].
    + right. exists r. split; [left; reflexivity | auto].
    + right. exists r'. split; [right; exact Hin | auto].
  - destruct (IH acc) as [-> | (r' & Hin & ? & ? & ?)]; [left; reflexivity |].
    right. exists r'. split; [right; exact Hin | auto].
Qed.

Lemma lastWrite_written (rs : list SRBamRecord.t) (e : Z * (Z * Z))
    (acc : option Z) (r : SRBamRecord.t) :
  In r rs -> assigned r = true -> touches r e = true ->
  exists r', In r' rs /\ assigned r' = true /\ touches r' e = true /\
             lastWrite rs e acc = Some (SRBamRecord.svid r').
Proof.
  revert acc. induction rs as [| r0 rs IH]; intros acc Hin Ha Ht; [destruct Hin |].
  rewrite lastWrite_cons. destruct Hin as [-> | Hin].
  - rewrite Ha, Ht. cbn [andb].
    destruct (lastWrite_cases rs e (Some (SRBamRecord.svid r)))
      as [-> | (r' & Hin & ? & ? & ?)].
    + exists r. split; [left; reflexivity | auto].
    + exists r'. split; [right; exact Hin | auto].
  - destruct (IH (if assigned r0 && touches r0 e
                  then Some (SRBamRecord.svid r0) else acc) Hin Ha Ht)
      as (r' & Hin' & ? & ? & ?).
    exists r'. split; [right; exact Hin' | auto].
Qed.

(** C1 (amended): when every assigned split-read record names references
    inside [srStore], [scanPEandSR] returns, and in the back-index it leaves
    (i) every key holds the svid of the last assigned record, in svt-then-index
    order, that has an endpoint on it (or its old value when there is none);
    (ii) for every assigned record both endpoint keys are present, each with
    the svid of an assigned record that has an endpoint there; (iii) both
    hold the record's own svid whenever every assigned record that shares one
    of its two endpoint keys has the same svid; (iv) a record with svid -1
    leaves the index as it is. *)
Theorem srStore_holds_both_endpoints
    (svs srSVs : list StructuralVariantRecord.t)
    (srStore : list (gmap (Z * Z) Z)) (libs : list LibraryInfo.t) :
  let rs := concat (cl_srBR (scanAndCluster svs srSVs libs)) in
  (forall r, In r rs -> inStore (length srStore) r) ->
  exists res,
    scanPEandSR svs srSVs srStore libs = Some res /\
    (forall e, entry (res_srStore res) e = lastWrite rs e (entry srStore e)) /\
    (forall r, In r rs -> assigned r = true ->
       (exists r1 r2,
          In r1 rs /\ assigned r1 = true /\ touches r1 (endpoint1 r) = true /\
          In r2 rs /\ assigned r2 = true /\ touches r2 (endpoint2 r) = true /\
          entry (res_srStore res) (endpoint1 r) = Some (SRBamRecord.svid r1) /\
          entry (res_srStore res) (endpoint2 r) = Some (SRBamRecord.svid r2)) /\
       ((forall r', In r' rs -> assigned r' = true ->
           touches r' (endpoint1 r) = true \/ touches r' (endpoint2 r) = true ->
           SRBamRecord.svid r' = SRBamRecord.svid r) ->
        entry (res_srStore res) (endpoint1 r) = Some (SRBamRecord.svid r) /\
        entry (res_srStore res) (endpoint2 r) = Some (SRBamRecord.svid r))) /\
    (forall s r, assigned r = false -> trackStep s r = Some s).
Proof.
  intros rs Hrange.
  destruct (track_flat_defined rs srStore Hrange) as [store' Hst].
  assert (Hentry : forall e, entry store' e = lastWrite rs e (entry srStore e))
    by (intros e; apply track_flat_entry; exact Hst).
  exists (mkResult (cl_svs (scanAndCluster svs srSVs libs))
                   (cl_srSVs (scanAndCluster svs srSVs libs)) store'
                   (cl_sampleLib (scanAndCluster svs srSVs libs))).
  split; [| split; [| split]].
  - unfold scanPEandSR. cbv zeta. rewrite trackSplitReads_flat.
    fold rs. rewrite Hst. reflexivity.
  - exact Hentry.
  - intros r Hin Ha. cbn [res_srStore].
    assert (Ht1 : touches r (endpoint1 r) = true).
    { unfold touches. rewrite bool_decide_eq_true_2 by reflexivity. reflexivity. }
    assert (Ht2 : touches r (endpoint2 r) = true).
    { unfold touches. rewrite (bool_decide_eq_true_2 (endpoint2 r = endpoint2 r))
        by reflexivity. apply orb_true_r. }
    destruct (lastWrite_written rs (endpoint1 r) (entry srStore (endpoint1 r)) r
                Hin Ha Ht1) as (r1 & Hin1 & Ha1 & Hr1 & E1).
    destruct (lastWrite_written rs (endpoint2 r) (entry srStore (endpoint2 r)) r
                Hin Ha Ht2) as (r2 & Hin2 & Ha2 & Hr2 & E2).
    rewrite !Hentry, E1, E2. split.
    + exists r1, r2. auto 10.
    + intros Hsame.
      rewrite (Hsame r1 Hin1 Ha1 (or_introl Hr1)).
      rewrite (Hsame r2 Hin2 Ha2 (or_intror Hr2)). split; reflexivity.
  - intros s r Ha. unfold trackStep. unfold assigned in Ha. rewrite Ha. reflexivity.
Qed.

(** *** Split-read assembly *)

(** A read step either leaves the state alone or appends one sequence to the
    slot [i] it looked up, and then [i] is an index of [svs] whose record
    carries [i] as its id, the slot is not done and holds fewer than
    [maxReadPerSV] sequences. *)
Lemma gatherRead_cases (refIndex : Z) (store : gmap (Z * Z) Z) (hits : gset Z)
    (st st' : AsmState) (rec : bam1_t) :
  gatherRead refIndex store hits st rec = Some st' ->
  st' = st \/
  exists i sv sequence,
    store !! (pos rec, hash_string (qname rec)) = Some (Z.of_nat i) /\
    svs st !! i = Some sv /\
    Z.of_nat i = i32 (StructuralVariantRecord.id sv) /\
    svDone st !!! i = false /\
    Z.of_nat (length (seqStore st !!! i)) < maxReadPerSV /\
    st' = mkAsm (svs st) (<[i := (seqStore st !!! i) ++ [sequence]]> (seqStore st))
                (svDone st) (calls st).
Proof.
  unfold gatherRead.
  destruct (negb (asmFilter rec)); [intros [= <-]; left; reflexivity |].
  destruct (negb (bool_decide _)); [intros [= <-]; left; reflexivity |].
  destruct (store !! _) as [svid |] eqn:Hlk; [| intros [= <-]; left; reflexivity].
  destruct (svid <? 0) eqn:Hneg; [discriminate |]. apply Z.ltb_ge in Hneg.
  destruct (svs st !! Z.to_nat svid) as [sv |] eqn:Hsv; [| discriminate].
  destruct (svid =? i32 _) eqn:Hid; [| intros [= <-]; left; reflexivity].
  apply Z.eqb_eq in Hid.
  destruct (negb (svDone st !!! Z.to_nat svid)) eqn:Hdone;
    [| intros [= <-]; left; reflexivity].
  destruct (_ <? maxReadPerSV) eqn:Hcap; cbn [andb];
    [| intros [= <-]; left; reflexivity].
  intros [= <-]. right.
  exists (Z.to_nat svid), sv. eexists.
  rewrite Z2Nat.id by exact Hneg.
  apply negb_true_iff in Hdone. apply Z.ltb_lt in Hcap.
  repeat split; try eassumption.
Qed.

Lemma gatherRead_svs (refIndex : Z) (store : gmap (Z * Z) Z) (hits : gset Z)
    (st st' : AsmState) (rec : bam1_t) :
  gatherRead refIndex store hits st rec = Some st' ->
  svs st' = svs st /\ calls st' = calls st /\ svDone st' = svDone st.
Proof.
  intros H. apply gatherRead_cases in H.
  destruct H as [-> | (i & sv & sq & _ & _ & _ & _ & _ & ->)]; repeat split.
Qed.

Lemma AsmInv_init (svs0 : list StructuralVariantRecord.t) (log : list AsmCall) :
  AsmInv (chrInit svs0 log).
Proof.
  unfold AsmInv, chrInit. cbn. rewrite !length_replicate.
  repeat split.
  - intros i. rewrite list_lookup_total_alt.
    destruct (replicate _ _ !! i) as [x |] eqn:E; cbn.
    + apply lookup_replicate_1 in E. destruct E as [-> _]. cbn. unfold maxReadPerSV. lia.
    + unfold maxReadPerSV. lia.
  - intros i _. rewrite list_lookup_total_alt.
    destruct (replicate _ _ !! i) as [x |] eqn:E; cbn; [| reflexivity].
    apply lookup_replicate_1 in E. destruct E as [-> _]. reflexivity.
Qed.

Lemma AsmInv_gather (refIndex : Z) (store : gmap (Z * Z) Z) (hits : gset Z)
    (st st' : AsmState) (rec : bam1_t) :
  gatherRead refIndex store hits st rec = Some st' -> AsmInv st -> AsmInv st'.
Proof.
  intros H (Hl1 & Hl2 & Hcap & Hdone). apply gatherRead_cases in H.
  destruct H as [-> | (i & sv & sq & _ & Hsv & _ & Hnd & Hlt & ->)];
    [repeat split; assumption |].
  unfold AsmInv. cbn. rewrite length_insert. repeat split; try assumption.
  - intros j. rewrite list_lookup_total_insert.
    case_decide; [| apply Hcap].
    rewrite length_app. cbn. lia.
  - intros j Hj. rewrite list_lookup_total_insert.
    case_decide as Hij; [| apply Hdone; exact Hj].
    destruct Hij as [-> _]. congruence.
Qed.

Lemma AsmInv_complete (refseq : string) (st : AsmState) (svid : nat) :
  AsmInv st -> AsmInv (completeOne refseq st svid).
Proof.
  intros (Hl1 & Hl2 & Hcap & Hdone). unfold completeOne.
  destruct (svs st !! svid) as [sv |] eqn:Hsv; [| repeat split; assumption].
  pose proof (lookup_lt_Some _ _ _ Hsv) as Hlt.
  destruct (negb _ && _); [| repeat split; assumption].
  assert (Hgoal : forall st1 : AsmState,
            length (svs st1) = length (svs st) ->
            seqStore st1 = seqStore st -> svDone st1 = svDone st ->
            AsmInv (mkAsm (svs st1) (<[svid := []]> (seqStore st1))
                          (<[svid := true]> (svDone st1)) (calls st1))).
  { intros st1 E1 E2 E3. unfold AsmInv. cbn. rewrite E1, E2, E3, !length_insert.
    repeat split; try assumption.
    - intros j. rewrite list_lookup_total_insert.
      case_decide; [cbn; unfold maxReadPerSV; lia | apply Hcap].
    - intros j. rewrite !list_lookup_total_insert.
      case_decide as Hj.
      + intros _. rewrite decide_True; [reflexivity |].
        destruct Hj as [-> _]. split; [reflexivity | lia].
      + intros Hd. rewrite decide_False; [apply Hdone; exact Hd |].
        intros [-> _]. apply Hj. split; [reflexivity | lia]. }
  destruct (negb _ && _).
  - destruct (alignConsensus c refseq _) as [ok sv2].
    apply Hgoal; cbn; try reflexivity. apply length_insert.
  - apply Hgoal; reflexivity.
Qed.

Lemma AsmReach_inv (st : AsmState) : AsmReach st -> AsmInv st.
Proof.
  induction 1; eauto using AsmInv_init, AsmInv_gather, AsmInv_complete.
Qed.

Lemma foldM_inv {A St : Type} (P : St -> Prop) (f : St -> A -> option St)
    (l : list A) :
  (forall s x s', In x l -> P s -> f s x = Some s' -> P s') ->
  forall s s', P s -> foldM f l s = Some s' -> P s'.
Proof.
  induction l as [| x l IH]; intros Hf s s' Hs; cbn.
  - intros [= <-]. exact Hs.
  - destruct (f s x) as [s1 |] eqn:E; [| discriminate].
    apply IH.
    + intros s0 y s0' Hy. apply Hf. right. exact Hy.
    + apply (Hf s x s1); [left; reflexivity | exact Hs | exact E].
Qed.



Lemma completeOne_consensus (refseq : string) (st : AsmState) (svid : nat)
    (sv : StructuralVariantRecord.t) :
  svs st !! svid = Some sv ->
  svDone st !!! svid = false ->
  consensusDue sv (Z.of_nat (length (seqStore st !!! svid))) ->
  let seqs := seqStore st !!! svid in
  let r := alignConsensus c refseq
             (StructuralVariantRecord.set_consensus
                (msa c seqs (StructuralVariantRecord.consensus sv)) sv) in
  completeOne refseq st svid =
    mkAsm (<[svid := if fst r then snd r
                     else StructuralVariantRecord.set_srSupport 0
                            (StructuralVariantRecord.set_consensus "" (snd r))]>
             (svs st))
          (<[svid := []]> (seqStore st)) (<[svid := true]> (svDone st))
          (calls st ++ [CallMsa svid seqs; CallAlignConsensus svid]).
Proof.
  intros Hsv Hd (Hc & Htra & Hn) seqs r. unfold completeOne.
  rewrite Hsv, Hd. cbn [negb andb]. fold seqs.
  assert (E : ((Z.of_nat (length seqs) =? maxReadPerSV)
               || (Z.of_nat (length seqs)
                   =? u32 (StructuralVariantRecord.srSupport sv))) = true).
  { apply orb_true_iff. destruct Hc as [Hc | Hc]; [left | right];
      apply Z.eqb_eq; exact Hc. }
  rewrite E, Htra. cbn [negb andb].
  assert (E2 : (Z.of_nat (length seqs) >? 1) = true) by (apply Z.gtb_lt; unfold seqs; lia).
  rewrite E2. fold r. destruct r as [ok sv2]. reflexivity.
Qed.

(** The pass only moves through reachable states. *)
Lemma assembleRegion_reach (file_c : nat) (refIndex : Z) (store : gmap (Z * Z) Z)
    (hits : gset Z) (refseq : string) (st st' : AsmState) (vR : Z * Z) :
  AsmReach st ->
  assembleRegion file_c refIndex store hits refseq st vR = Some st' ->
  AsmReach st'.
Proof.
  intros Hr. unfold assembleRegion.
  destruct (foldM _ _ st) as [st1 |] eqn:E; [| discriminate].
  intros [= <-]. unfold completeAll.
  apply fold_left_inv.
  - intros a i _ Ha. apply reach_complete. exact Ha.
  - revert E. apply foldM_inv; [| exact Hr].
    intros s x s' _ Hs Hg. eapply reach_gather; eassumption.
Qed.

Lemma assembleChr_reach (srStore : list (gmap (Z * Z) Z)) (st st' : AsmState)
    (refIndex : Z) :
  assembleChr srStore st refIndex = Some st' -> st' = st \/ AsmReach st'.
Proof.
  unfold assembleChr.
  destruct (bool_decide _); [intros [= <-]; left; reflexivity |].
  destruct (srStore !! _) as [store |]; [| discriminate].
  destruct (bool_decide _); [intros [= <-]; left; reflexivity |].
  intros H. right. revert H. apply foldM_inv; [| apply reach_init].
  intros s file_c s' _ Hs. unfold assembleFile. apply foldM_inv; [| exact Hs].
  intros s0 vR s0' _ Hs0. apply assembleRegion_reach. exact Hs0.
Qed.

(** C5: in every state of the assembly of a reference no slot of the sequence
    store holds more than [maxReadPerSV] = 20 sequences, and a read step
    changes the store only by appending one sequence to a slot that is not
    marked done and holds fewer than 20 sequences. *)
Theorem seqStore_capped_at_maxReadPerSV (st : AsmState) :
  AsmReach st ->
  maxReadPerSV = 20
  /\ (forall i seqs, seqStore st !! i = Some seqs ->
        Z.of_nat (length seqs) <= maxReadPerSV)
  /\ (forall refIndex store hits rec st',
        gatherRead refIndex store hits st rec = Some st' ->
        seqStore st' = seqStore st
        \/ exists i sequence,
             svDone st !! i = Some false /\
             Z.of_nat (length (seqStore st !!! i)) < maxReadPerSV /\
             seqStore st' = <[i := (seqStore st !!! i) ++ [sequence]]> (seqStore st)).
Proof.
  intros Hr. pose proof (AsmReach_inv st Hr) as (Hl1 & Hl2 & Hcap & Hdone).
  split; [reflexivity |]. split.
  - intros i seqs Hi. rewrite <- (list_lookup_total_correct _ _ _ Hi). apply Hcap.
  - intros refIndex store hits rec st' Hg. apply gatherRead_cases in Hg.
    destruct Hg as [-> | (i & sv & sq & _ & Hsv & _ & Hnd & Hlt & ->)];
      [left; reflexivity |].
    right. exists i, sq. cbn. repeat split; try assumption.
    rewrite <- Hnd. apply list_lookup_lookup_total_lt.
    rewrite Hl2. eapply lookup_lt_Some. exact Hsv.
Qed.

(** C6: when the SV at [svid] is due for consensus and [alignConsensus]
    reports failure, leaving the record [sv2], the completion step stores
    [sv2] with an empty consensus and srSupport 0 and every other field as
    [alignConsensus] left it; no other SV record changes; the slot is cleared
    and marked done, and the completion loop goes on with the next svid. *)
Theorem alignment_failure_clears_consensus (refseq : string) (st : AsmState)
    (svid : nat) (sv sv2 : StructuralVariantRecord.t) :
  svs st !! svid = Some sv ->
  svDone st !!! svid = false ->
  consensusDue sv (Z.of_nat (length (seqStore st !!! svid))) ->
  alignConsensus c refseq
    (StructuralVariantRecord.set_consensus
       (msa c (seqStore st !!! svid) (StructuralVariantRecord.consensus sv)) sv)
    = (false, sv2) ->
  let st' := completeOne refseq st svid in
  (exists sv',
     svs st' !! svid = Some sv' /\
     StructuralVariantRecord.consensus sv' = ""%string /\
     StructuralVariantRecord.srSupport sv' = 0 /\
     StructuralVariantRecord.id sv' = StructuralVariantRecord.id sv2 /\
     StructuralVariantRecord.svt sv' = StructuralVariantRecord.svt sv2 /\
     StructuralVariantRecord.chr sv' = StructuralVariantRecord.chr sv2 /\
     StructuralVariantRecord.svStart sv' = StructuralVariantRecord.svStart sv2 /\
     StructuralVariantRecord.chr2 sv' = StructuralVariantRecord.chr2 sv2 /\
     StructuralVariantRecord.svEnd sv' = StructuralVariantRecord.svEnd sv2 /\
     StructuralVariantRecord.peSupport sv' = StructuralVariantRecord.peSupport sv2 /\
     StructuralVariantRecord.precise sv' = StructuralVariantRecord.precise sv2 /\
     StructuralVariantRecord.srAlignQuality sv'
       = StructuralVariantRecord.srAlignQuality sv2 /\
     StructuralVariantRecord.ci sv' = StructuralVariantRecord.ci sv2)
  /\ (forall j, j <> svid -> svs st' !! j = svs st !! j)
  /\ seqStore st' = <[svid := []]> (seqStore st)
  /\ svDone st' = <[svid := true]> (svDone st)
  /\ (forall rest,
        fold_left (completeOne refseq) (svid :: rest) st
        = fold_left (completeOne refseq) rest st').
Proof.
  intros Hsv Hd Hdue Hal st'.
  pose proof (completeOne_consensus refseq st svid sv Hsv Hd Hdue) as E.
  cbv zeta in E. rewrite Hal in E. cbn [fst snd] in E.
  subst st'. rewrite E. cbn [svs seqStore svDone].
  split; [| split; [| split; [| split]]]; try reflexivity.
  - eexists. split.
    + apply list_lookup_insert_eq. eapply lookup_lt_Some. exact Hsv.
    + cbn. repeat split.
  - intros j Hj. apply list_lookup_insert_ne. congruence.
  - intros rest. cbn [fold_left]. rewrite E. reflexivity.
Qed.




(** The guard of line 139: a stored svid that indexes a record with another
    id makes the read step a no-op. *)
Lemma gatherRead_id_mismatch (refIndex : Z) (store : gmap (Z * Z) Z)
    (hits : gset Z) (st : AsmState) (rec : bam1_t) (svid : Z)
    (sv : StructuralVariantRecord.t) :
  store !! (pos rec, hash_string (qname rec)) = Some svid ->
  0 <= svid ->
  svs st !! Z.to_nat svid = Some sv ->
  svid <> i32 (StructuralVariantRecord.id sv) ->
  gatherRead refIndex store hits st rec = Some st.
Proof.
  intros Hlk Hpos Hsv Hne. unfold gatherRead.
  destruct (negb (asmFilter rec)); [reflexivity |].
  destruct (negb (bool_decide _)); [reflexivity |].
  rewrite Hlk.
  assert (E : (svid <? 0) = false) by (apply Z.ltb_ge; exact Hpos).
  rewrite E, Hsv.
  assert (E2 : (svid =? i32 (StructuralVariantRecord.id sv)) = false)
    by (apply Z.eqb_neq; exact Hne).
  rewrite E2. reflexivity.
Qed.

(** *** More on the CIGAR loop *)

Lemma cigarStep_quiet (seed : Z) (rec : bam1_t) (rp sp : Z) (bp : TReadBp)
    (cg : Z) :
  quietOp cg = true -> snd (cigarStep seed rec (rp, sp, bp) cg) = bp.
Proof.
  unfold quietOp, cigarStep. cbv zeta.
  destruct ((bam_cigar_op cg =? BAM_CMATCH) || (bam_cigar_op cg =? BAM_CEQUAL)
            || (bam_cigar_op cg =? BAM_CDIFF)).
  { intros _. destruct (Z.iter _ _ _). reflexivity. }
  destruct (bam_cigar_op cg =? BAM_CDEL).
  { intros H. apply Z.leb_le in H.
    assert (E : (bam_cigar_oplen cg >? Config.minRefSep c) = false)
      by (rewrite Z.gtb_ltb; apply Z.ltb_ge; exact H).
    rewrite E. reflexivity. }
  destruct (bam_cigar_op cg =? BAM_CINS).
  { destruct ((bam_cigar_op cg =? BAM_CSOFT_CLIP) || _); reflexivity. }
  destruct ((bam_cigar_op cg =? BAM_CSOFT_CLIP) || (bam_cigar_op cg =? BAM_CHARD_CLIP)).
  { intros H. apply Z.leb_le in H.
    assert (E : (bam_cigar_oplen cg >? Config.minClip c) = false)
      by (rewrite Z.gtb_ltb; apply Z.ltb_ge; exact H).
    rewrite E. destruct (sp =? 0); reflexivity. }
  intros _. destruct (bam_cigar_op cg =? BAM_CREF_SKIP); reflexivity.
Qed.

(** X1: a read whose CIGAR holds no deletion longer than [minRefSep] and no
    soft or hard clip longer than [minClip] leaves the junction container as
    it was: [_insertJunction] is not called. *)
Theorem parseCigar_quiet (seed : Z) (rec : bam1_t) (bp : TReadBp) :
  forallb quietOp (cigar rec) = true ->
  parseCigar seed rec bp = bp.
Proof.
  unfold parseCigar. generalize (u32 (pos rec)) 0.
  induction (cigar rec) as [| cg l IH]; intros rp sp H; [reflexivity |].
  cbn [forallb] in H. apply andb_true_iff in H. destruct H as [Hq Hl].
  cbn [fold_left].
  pose proof (cigarStep_quiet seed rec rp sp bp cg Hq) as E.
  destruct (cigarStep seed rec (rp, sp, bp) cg) as [[rp' sp'] bp'].
  cbn in E. subst bp'. apply IH. exact Hl.
Qed.

Lemma oplen_nonneg (cg : Z) : 0 <= cg -> 0 <= bam_cigar_oplen cg.
Proof. intros H. unfold bam_cigar_oplen. apply Z.shiftr_nonneg. exact H. Qed.

Lemma u32_add_l (a b : Z) : u32 (u32 a + b) = u32 (a + b).
Proof. unfold u32. apply Zplus_mod_idemp_l. Qed.

(** Case analysis on the operation code, first match first. *)
Ltac cigar_op_case n :=
  let E := fresh "Eop" in
  destruct (bam_cigar_op _ =? n) eqn:E;
  [ apply Z.eqb_eq in E; rewrite ?E; cbn [Z.eqb Pos.eqb orb andb negb fst snd] | ].

Lemma cigarStep_pointers (seed : Z) (rec : bam1_t) (rp sp : Z) (bp : TReadBp)
    (cg : Z) :
  0 <= cg ->
  fst (cigarStep seed rec (u32 rp, u32 sp, bp) cg)
  = (u32 (rp + refAdvance cg), u32 (sp + seqAdvance cg)).
Proof.
  intros Hcg. pose proof (oplen_nonneg cg Hcg) as Hlen.
  unfold cigarStep, refAdvance, seqAdvance. cbv zeta.
  unfold BAM_CMATCH, BAM_CEQUAL, BAM_CDIFF, BAM_CDEL, BAM_CINS, BAM_CSOFT_CLIP,
    BAM_CHARD_CLIP, BAM_CREF_SKIP.
  cigar_op_case 0.
  { rewrite matchStep_iter by exact Hlen. reflexivity. }
  cigar_op_case 7.
  { rewrite matchStep_iter by exact Hlen. reflexivity. }
  cigar_op_case 8.
  { rewrite matchStep_iter by exact Hlen. reflexivity. }
  cigar_op_case 2.
  { rewrite u32_add_l, Z.add_0_r. reflexivity. }
  cigar_op_case 1.
  { rewrite u32_add_l, Z.add_0_r. reflexivity. }
  cigar_op_case 4.
  { destruct (u32 sp =? 0); cbn [fst]; rewrite u32_add_l, Z.add_0_r; reflexivity. }
  cigar_op_case 5.
  { destruct (u32 sp =? 0); cbn [fst]; rewrite u32_add_l, Z.add_0_r; reflexivity. }
  cigar_op_case 3.
  { rewrite u32_add_l, Z.add_0_r. reflexivity. }
  cbn [orb fst]. rewrite !Z.add_0_r. reflexivity.
Qed.

Lemma fold_cigarStep_pointers (seed : Z) (rec : bam1_t) (l : list Z) :
  forall (rp sp : Z) (b : TReadBp),
    Forall (fun cg => 0 <= cg) l ->
    fst (fold_left (cigarStep seed rec) l (u32 rp, u32 sp, b))
    = (u32 (rp + refSpan l), u32 (sp + seqSpan l)).
Proof.
  induction l as [| cg l IH]; intros rp sp b H.
  - cbn. rewrite !Z.add_0_r. reflexivity.
  - inversion H as [| ? ? Hcg Hl]; subst. cbn [fold_left].
    pose proof (cigarStep_pointers seed rec rp sp b cg Hcg) as E.
    destruct (cigarStep seed rec (u32 rp, u32 sp, b) cg) as [[rp' sp'] b'].
    cbn [fst] in E. inversion E; subst rp' sp'.
    rewrite (IH _ _ _ Hl).
    change (refSpan (cg :: l)) with (refAdvance cg + refSpan l).
    change (seqSpan (cg :: l)) with (seqAdvance cg + seqSpan l).
    f_equal; f_equal; lia.
Qed.

(** X2: whatever junctions a read raises, the CIGAR loop ends with the
    reference pointer at the read position plus the lengths of all M, =, X,
    D and N operations, and the sequence pointer at the lengths of all M, =,
    X, I, S and H operations (hard clips count), both modulo 2^32. *)
Theorem parseCigar_pointers (seed : Z) (rec : bam1_t) (bp : TReadBp) :
  Forall (fun cg => 0 <= cg) (cigar rec) ->
  fst (fold_left (cigarStep seed rec) (cigar rec) (u32 (pos rec), 0, bp))
  = (u32 (pos rec + refSpan (cigar rec)), u32 (seqSpan (cigar rec))).
Proof.
  intros H.
  exact (fold_cigarStep_pointers seed rec (cigar rec) (pos rec) 0 bp H).
Qed.

(** *** More on the paired-end path *)

(** X3: a record that is unpaired, secondary, supplementary, or whose mate is
    unmapped only feeds the junction extractor: the mate maps, the
    position-local set, the evidence sink and the library statistics stay as
    they were. *)
Theorem scanRead_junctions_only (o : Z) (st : ScanState) (rec : bam1_t) :
  negb (flagged (flag rec) BAM_FPAIRED)
  || flagged (flag rec) (Z.lor BAM_FSECONDARY BAM_FSUPPLEMENTARY)
  || (mtid rec <? 0) || flagged (flag rec) BAM_FMUNMAP = true ->
  scanRead o st rec = set_readBp (extractRead (readBp st) rec) st.
Proof.
  intros H. unfold scanRead, extractRead.
  destruct (scanFilter rec); [| destruct st; reflexivity].
  unfold pairedEnd.
  assert (E : forall s : ScanState, pairClass o rec s = None).
  { intros s. unfold pairClass.
    destruct (negb (flagged (flag rec) BAM_FPAIRED)); [reflexivity |].
    destruct (LibraryInfo.median (lib s) =? 0); [reflexivity |].
    destruct (flagged (flag rec) (Z.lor BAM_FSECONDARY BAM_FSUPPLEMENTARY));
      [reflexivity |].
    cbn [orb] in H. rewrite H. reflexivity. }
  rewrite E. reflexivity.
Qed.

(** The two branches of the mate reconciler, seen through the fields. *)
Lemma mateReconcile_first (svt seed : Z) (rec : bam1_t) (st : ScanState) :
  (forall s, _firstPairObs rec s = true) ->
  let st' := mateReconcile svt seed rec st in
  bamRecord st' = bamRecord st /\ lib st' = lib st /\ readBp st' = readBp st /\
  matetra st' = (if _translocation svt
                 then <[hash_pair rec := (qual rec, alignmentLength rec)]> (matetra st)
                 else matetra st) /\
  mateMap st' = (if _translocation svt
                 then mateMap st
                 else <[hash_pair rec := (qual rec, alignmentLength rec)]> (mateMap st)).
Proof.
  intros Hf. unfold mateReconcile. cbv zeta. rewrite Hf.
  destruct (pos rec >? lastAlignedPos st), (_translocation svt); cbn; auto.
Qed.

Lemma mateReconcile_second (svt seed : Z) (rec : bam1_t) (st : ScanState) :
  (forall s, _firstPairObs rec s = false) ->
  let st' := mateReconcile svt seed rec st in
  let m := if _translocation svt then matetra st else mateMap st in
  readBp st' = readBp st /\
  match m !! hash_pair_mate rec with
  | Some p =>
      if fst p =? 0
      then bamRecord st' = bamRecord st /\ lib st' = lib st /\
           matetra st' = matetra st /\ mateMap st' = mateMap st
      else bamRecord st'
           = <[svt := (bamRecord st !!! svt)
                      ++ [mkBamAlignRecord rec (Z.min (fst p) (qual rec)) (snd p)
                            (lib st)]]> (bamRecord st) /\
           lib st' = LibraryInfo.incr_abnormal_pairs (lib st) /\
           matetra st' = (if _translocation svt
                          then <[hash_pair_mate rec := (0, snd p)]> (matetra st)
                          else matetra st) /\
           mateMap st' = (if _translocation svt
                          then mateMap st
                          else <[hash_pair_mate rec := (0, snd p)]> (mateMap st))
  | None => bamRecord st' = bamRecord st /\ lib st' = lib st /\
            matetra st' = matetra st /\ mateMap st' = mateMap st
  end.
Proof.
  intros Hf. unfold mateReconcile. cbv zeta. rewrite Hf.
  destruct (pos rec >? lastAlignedPos st), (_translocation svt); cbn;
    (split; [| destruct (_ !! hash_pair_mate rec) as [p |]; [destruct (fst p =? 0) |]];
     cbn; auto;
     match goal with
     | |- readBp ?x = _ =>
         destruct (_ !! hash_pair_mate rec) as [p |]; [destruct (fst p =? 0) |];
         reflexivity
     end).
Qed.

(** The map a first mate of class [svt] lands in holds it under its hash. *)
Lemma mateReconcile_first_lookup (svt svt' seed : Z) (rec : bam1_t)
    (st : ScanState) :
  (forall s, _firstPairObs rec s = true) ->
  _translocation svt' = _translocation svt ->
  let st' := mateReconcile svt seed rec st in
  (if _translocation svt' then matetra st' else mateMap st') !! hash_pair rec
  = Some (qual rec, alignmentLength rec).
Proof.
  intros Hf Ht st'.
  destruct (mateReconcile_first svt seed rec st Hf) as (_ & _ & _ & Htra & Hmap).
  fold st' in Htra, Hmap. rewrite Ht, Htra, Hmap.
  destruct (_translocation svt); apply lookup_insert_eq.
Qed.

(** X4: a first mate followed by its second mate (the second mate's
    [hash_pair_mate] is the first mate's [hash_pair], both classified on the
    same side of the translocation split) appends exactly one evidence record
    to the slot of the second mate's svt: pair quality the smaller of the two
    mapping qualities, mate length the first mate's alignment length; the
    abnormal-pair counter goes up by one.  The first mate's mapping quality
    must not be 0. *)
Theorem first_then_second_mate_emits (svt1 seed1 svt2 seed2 : Z)
    (r1 r2 : bam1_t) (st : ScanState) :
  (forall s, _firstPairObs r1 s = true) ->
  (forall s, _firstPairObs r2 s = false) ->
  hash_pair_mate r2 = hash_pair r1 ->
  _translocation svt2 = _translocation svt1 ->
  qual r1 <> 0 ->
  let st2 := mateReconcile svt2 seed2 r2 (mateReconcile svt1 seed1 r1 st) in
  bamRecord st2
  = <[svt2 := (bamRecord st !!! svt2)
              ++ [mkBamAlignRecord r2 (Z.min (qual r1) (qual r2))
                    (alignmentLength r1) (lib st)]]> (bamRecord st)
  /\ lib st2 = LibraryInfo.incr_abnormal_pairs (lib st).
Proof.
  intros Hf1 Hf2 Hh Ht Hq st2.
  pose proof (mateReconcile_first_lookup svt1 svt2 seed1 r1 st Hf1 Ht) as Hlk.
  destruct (mateReconcile_first svt1 seed1 r1 st Hf1) as (Hb & Hl & _).
  cbv zeta in Hlk.
  pose proof (mateReconcile_second svt2 seed2 r2
                (mateReconcile svt1 seed1 r1 st) Hf2) as H2.
  cbv zeta in H2. destruct H2 as [_ H2].
  rewrite Hh, Hlk in H2. cbn [fst snd] in H2.
  assert (E : (qual r1 =? 0) = false) by (apply Z.eqb_neq; exact Hq).
  rewrite E in H2. destruct H2 as (H2b & H2l & _).
  subst st2. rewrite H2b, H2l, Hb, Hl. split; reflexivity.
Qed.

(** X5: a first mate of mapping quality 0 (possible when [minMapQual] is 0)
    never yields evidence: quality 0 is the mark of a consumed entry, so its
    second mate is discarded without a record and without a count. *)
Theorem zero_quality_first_mate_is_discarded (svt1 seed1 svt2 seed2 : Z)
    (r1 r2 : bam1_t) (st : ScanState) :
  (forall s, _firstPairObs r1 s = true) ->
  (forall s, _firstPairObs r2 s = false) ->
  hash_pair_mate r2 = hash_pair r1 ->
  _translocation svt2 = _translocation svt1 ->
  qual r1 = 0 ->
  let st2 := mateReconcile svt2 seed2 r2 (mateReconcile svt1 seed1 r1 st) in
  bamRecord st2 = bamRecord st /\ lib st2 = lib st.
Proof.
  intros Hf1 Hf2 Hh Ht Hq st2.
  pose proof (mateReconcile_first_lookup svt1 svt2 seed1 r1 st Hf1 Ht) as Hlk.
  destruct (mateReconcile_first svt1 seed1 r1 st Hf1) as (Hb & Hl & _).
  cbv zeta in Hlk.
  pose proof (mateReconcile_second svt2 seed2 r2
                (mateReconcile svt1 seed1 r1 st) Hf2) as H2.
  cbv zeta in H2. destruct H2 as [_ H2].
  rewrite Hh, Hlk in H2. cbn [fst snd] in H2.
  rewrite Hq in H2. change (0 =? 0) with true in H2. cbv iota in H2.
  destruct H2 as (H2b & H2l & _).
  subst st2. rewrite H2b, H2l, Hb, Hl. split; reflexivity.
Qed.

(** X6: no double emission.  Once a second mate has met a live entry and
    emitted, a further second-mate record with the same [hash_pair_mate] in
    the same class finds quality 0 and adds nothing: neither a record nor a
    count. *)
Theorem consumed_entry_emits_no_more (svt2 seed2 svt3 seed3 : Z)
    (r2 r3 : bam1_t) (st : ScanState) (p : Z * Z) :
  (forall s, _firstPairObs r2 s = false) ->
  (forall s, _firstPairObs r3 s = false) ->
  (if _translocation svt2 then matetra st else mateMap st) !! hash_pair_mate r2
    = Some p ->
  fst p <> 0 ->
  hash_pair_mate r3 = hash_pair_mate r2 ->
  _translocation svt3 = _translocation svt2 ->
  let st2 := mateReconcile svt2 seed2 r2 st in
  let st3 := mateReconcile svt3 seed3 r3 st2 in
  bamRecord st2 <> bamRecord st
  /\ bamRecord st3 = bamRecord st2 /\ lib st3 = lib st2.
Proof.
  intros Hf2 Hf3 Hlk Hnz Hh Ht st2 st3.
  pose proof (mateReconcile_second svt2 seed2 r2 st Hf2) as H2.
  cbv zeta in H2. destruct H2 as [_ H2]. rewrite Hlk in H2.
  assert (E : (fst p =? 0) = false) by (apply Z.eqb_neq; exact Hnz).
  rewrite E in H2. destruct H2 as (H2b & H2l & H2t & H2m).
  fold st2 in H2b, H2l, H2t, H2m.
  split.
  - rewrite H2b. intros Heq.
    assert (Hlen : length (<[svt2 := (bamRecord st !!! svt2)
                               ++ [mkBamAlignRecord r2 (Z.min (fst p) (qual r2))
                                     (snd p) (lib st)]]> (bamRecord st) !!! svt2)
                   = length (bamRecord st !!! svt2)) by (rewrite Heq; reflexivity).
    rewrite lookup_total_insert_eq, length_app in Hlen. cbn in Hlen. lia.
  - pose proof (mateReconcile_second svt3 seed3 r3 st2 Hf3) as H3.
    cbv zeta in H3. destruct H3 as [_ H3]. fold st3 in H3.
    assert (Hlk3 : (if _translocation svt3 then matetra st2 else mateMap st2)
                   !! hash_pair_mate r3 = Some (0, snd p)).
    { rewrite Ht, Hh, H2t, H2m.
      destruct (_translocation svt2); apply lookup_insert_eq. }
    rewrite Hlk3 in H3. cbn [fst] in H3. change (0 =? 0) with true in H3.
    cbv iota in H3. destruct H3 as (? & ? & _). split; assumption.
Qed.

(** *** The evidence sink and the abnormal-pair counter *)

Lemma pairCount_split (m : gmap Z (list BamAlignRecord.t)) (k : Z) :
  pairCount m = (length (m !!! k) + pairCount (delete k m))%nat.
Proof.
  unfold pairCount. rewrite lookup_total_alt.
  destruct (m !! k) as [l |] eqn:E; cbn.
  - apply (map_fold_delete_L (fun _ l n => (length l + n)%nat)); [| exact E].
    intros; lia.
  - rewrite delete_id by exact E. reflexivity.
Qed.

Lemma pairCount_emit (m : gmap Z (list BamAlignRecord.t)) (k : Z)
    (r : BamAlignRecord.t) :
  pairCount (<[k := (m !!! k) ++ [r]]> m) = S (pairCount m).
Proof.
  rewrite (pairCount_split m k).
  rewrite (pairCount_split (<[k := (m !!! k) ++ [r]]> m) k).
  rewrite lookup_total_insert_eq, delete_insert_eq, length_app. cbn. lia.
Qed.

(** A reconciler step leaves sink and library alone or emits one record. *)
Lemma mateReconcile_sink (svt seed : Z) (rec : bam1_t) (st : ScanState) :
  let st' := mateReconcile svt seed rec st in
  (bamRecord st' = bamRecord st /\ lib st' = lib st)
  \/ exists q a,
       bamRecord st'
       = <[svt := (bamRecord st !!! svt) ++ [mkBamAlignRecord rec q a (lib st)]]>
           (bamRecord st)
       /\ lib st' = LibraryInfo.incr_abnormal_pairs (lib st).
Proof.
  unfold mateReconcile. cbv zeta.
  set (st1 := if pos rec >? lastAlignedPos st
              then set_lastAligned (pos rec) ∅ st else st).
  assert (Hb : bamRecord st1 = bamRecord st /\ lib st1 = lib st)
    by (subst st1; destruct (pos rec >? lastAlignedPos st); split; reflexivity).
  destruct Hb as [Hb Hl].
  destruct (_firstPairObs rec (lastAlignedPosReads st1)).
  { left. destruct (_translocation svt); cbn; auto. }
  destruct (_translocation svt).
  - destruct (matetra st1 !! hash_pair_mate rec) as [p |]; [| left; auto].
    destruct (fst p =? 0); [left; auto |].
    right. eexists _, _. cbn. rewrite Hb, Hl. split; reflexivity.
  - destruct (mateMap st1 !! hash_pair_mate rec) as [p |]; [| left; auto].
    destruct (fst p =? 0); [left; auto |].
    right. eexists _, _. cbn. rewrite Hb, Hl. split; reflexivity.
Qed.

Lemma SinkInv_emit (l : LibraryInfo.t) (sink : gmap Z (list BamAlignRecord.t))
    (st st' : ScanState) (svt q a : Z) (rec : bam1_t) :
  SinkInv l sink st ->
  bamRecord st'
    = <[svt := (bamRecord st !!! svt) ++ [mkBamAlignRecord rec q a (lib st)]]>
        (bamRecord st) ->
  lib st' = LibraryInfo.incr_abnormal_pairs (lib st) ->
  SinkInv l sink st'.
Proof.
  intros (Hs & Hc & Ha) Hb Hl. unfold SinkInv. rewrite Hb, Hl.
  split; [| split].
  - exact Hs.
  - rewrite pairCount_emit. cbn. lia.
  - intros svt'. destruct (Ha svt') as (new & Hn & Hf).
    destruct (decide (svt = svt')) as [<- | Hne].
    + exists (new ++ [mkBamAlignRecord rec q a (lib st)]).
      rewrite lookup_total_insert_eq, Hn, app_assoc. split; [reflexivity |].
      apply Forall_app. split; [exact Hf |]. constructor; [| constructor].
      destruct Hs as (_ & Hm & Hd & Hx & _).
      unfold carriesLibrary, mkBamAlignRecord. cbn. auto.
    + exists new. rewrite lookup_total_insert_ne by exact Hne. auto.
Qed.

Lemma SinkInv_same (l : LibraryInfo.t) (sink : gmap Z (list BamAlignRecord.t))
    (st st' : ScanState) :
  SinkInv l sink st -> bamRecord st' = bamRecord st -> lib st' = lib st ->
  SinkInv l sink st'.
Proof. intros H Hb Hl. unfold SinkInv. rewrite Hb, Hl. exact H. Qed.

Lemma scanRead_SinkInv (l : LibraryInfo.t) (sink : gmap Z (list BamAlignRecord.t))
    (o : Z) (st : ScanState) (rec : bam1_t) :
  SinkInv l sink st -> SinkInv l sink (scanRead o st rec).
Proof.
  intros H. unfold scanRead. destruct (scanFilter rec); [| exact H].
  unfold pairedEnd.
  set (st1 := set_readBp _ st).
  assert (H1 : SinkInv l sink st1) by (apply (SinkInv_same l sink st); auto).
  destruct (pairClass o rec st1) as [svt |]; [| exact H1].
  destruct (_ && _); [exact H1 |].
  destruct (mateReconcile_sink svt (u32 (hash_string (qname rec))) rec st1)
    as [[Hb Hl] | (q & a & Hb & Hl)].
  - apply (SinkInv_same l sink st1); assumption.
  - apply (SinkInv_emit l sink st1 _ svt q a rec); assumption.
Qed.

Lemma scanSampleReads_SinkInv (file_c : nat) (l : LibraryInfo.t)
    (sink : gmap Z (list BamAlignRecord.t)) :
  SinkInv l sink (scanSampleReads file_c l sink).
Proof.
  unfold scanSampleReads. apply fold_left_inv.
  - intros st refIndex _ H. unfold scanChr.
    destruct (bool_decide _); [exact H |].
    destruct (if negb _ then false else _); [exact H |].
    apply fold_left_inv.
    + intros st' vR _ H'. unfold scanRegion. apply fold_left_inv.
      * intros st'' rec _ H''. apply scanRead_SinkInv. exact H''.
      * apply (SinkInv_same l sink st'); auto.
    + apply (SinkInv_same l sink st); auto.
  - unfold SinkInv. cbn. repeat split.
    intros svt. exists []. rewrite app_nil_r. split; [reflexivity | constructor].
Qed.

(** X7: a worker only appends to the evidence sink: for every svt the list
    after the scan is the list before it followed by new records, and every
    new record carries the median, MAD and maxNormalISize of the sample's
    library and the alignment length of the record that emitted it.  Of the
    library record itself only the abnormal-pair counter can change. *)
Theorem worker_appends_stamped_evidence (file_c : nat) (l : LibraryInfo.t)
    (sink : gmap Z (list BamAlignRecord.t)) :
  let st := scanSampleReads file_c l sink in
  sameLibrary l (lib st)
  /\ forall svt, exists new,
       bamRecord st !!! svt = sink !!! svt ++ new
       /\ Forall (carriesLibrary l) new.
Proof.
  destruct (scanSampleReads_SinkInv file_c l sink) as (Hs & _ & Ha).
  split; assumption.
Qed.

(** X8: the abnormal-pair counter of a sample grows by exactly the number of
    evidence records its worker added to the sink. *)
Theorem abnormal_pairs_counts_evidence (file_c : nat) (l : LibraryInfo.t)
    (sink : gmap Z (list BamAlignRecord.t)) :
  let st := scanSampleReads file_c l sink in
  LibraryInfo.abnormal_pairs (lib st) - LibraryInfo.abnormal_pairs l
  = Z.of_nat (pairCount (bamRecord st)) - Z.of_nat (pairCount sink).
Proof.
  destruct (scanSampleReads_SinkInv file_c l sink) as (_ & Hc & _).
  cbv zeta. lia.
Qed.

(** *** Which references a worker scans *)

Lemma substring_all (t : string) : String.substring 0 (String.length t) t = t.
Proof. induction t as [| a t IH]; cbn; [reflexivity | rewrite IH; reflexivity]. Qed.

Lemma substring_after (s t : string) :
  String.substring (String.length s) (String.length t) (s ++ t) = t.
Proof.
  induction s as [| a s IH]; [apply substring_all |].
  change (String.append (String a s) t) with (String a (String.append s t)).
  cbn. exact IH.
Qed.

Lemma string_length_app (s t : string) :
  String.length (s ++ t) = (String.length s + String.length t)%nat.
Proof.
  induction s as [| a s IH]; [reflexivity |].
  change (String.append (String a s) t) with (String a (String.append s t)).
  cbn. rewrite IH. reflexivity.
Qed.

Lemma substring_split (s : string) :
  forall n, (n <= String.length s)%nat ->
    s = (String.substring 0 n s
         ++ String.substring n (String.length s - n) s)%string.
Proof.
  induction s as [| a s IH]; intros n Hn.
  - destruct n; reflexivity.
  - destruct n as [| n].
    + cbn. rewrite substring_all. reflexivity.
    + cbn in Hn. cbn [String.substring String.length Nat.sub].
      change (String.append (String a ?x) ?y) with (String a (String.append x y)).
      f_equal. apply IH. lia.
Qed.

(** The test of line 252 is true exactly for names that end in "cram". *)
Lemma cram_suffix_iff (str : string) :
  cram_suffix str = true <-> exists s, str = (s ++ "cram")%string.
Proof.
  unfold cram_suffix. split.
  - intros H. apply andb_true_iff in H. destruct H as [Hlen Heq].
    apply Nat.leb_le in Hlen. apply String.eqb_eq in Heq.
    exists (String.substring 0 (String.length str - 4) str).
    pose proof (substring_split str (String.length str - 4)) as Hs.
    replace (String.length str - (String.length str - 4))%nat with 4%nat in Hs
      by lia.
    rewrite Heq in Hs. apply Hs. lia.
  - intros [s ->]. rewrite string_length_app. cbn [String.length].
    apply andb_true_iff. split; [apply Nat.leb_le; lia |].
    replace (String.length s + 4 - 4)%nat with (String.length s) by lia.
    apply String.eqb_eq. exact (substring_after s "cram").
Qed.

(** X9: a worker skips a reference when it has no valid region, or when the
    index reports no mapped read and the file name does not end in "cram";
    it scans every valid region, starting from an empty intra-chromosomal
    mate map, when the reference has valid regions and either the index
    reports mapped reads or the file name ends in "cram". *)
Theorem scanChr_skips_reference (o : Z) (file_c : nat) (st : ScanState)
    (refIndex : Z) (str : string) :
  Config.files c !! file_c = Some str ->
  (validRegions refIndex = []
   \/ (hts_idx_mapped file_c refIndex = 0
       /\ ~ exists s, str = (s ++ "cram")%string) ->
   scanChr o file_c st refIndex = st)
  /\ (validRegions refIndex <> [] ->
      hts_idx_mapped file_c refIndex <> 0
      \/ (exists s, str = (s ++ "cram")%string) ->
      scanChr o file_c st refIndex
      = fold_left (scanRegion o file_c refIndex) (validRegions refIndex)
                  (set_mateMap ∅ st)).
Proof.
  intros Hf. unfold scanChr. rewrite Hf. cbn [default id]. cbv zeta.
  split.
  - intros [Hv | [Hm Hn]].
    + rewrite bool_decide_eq_true_2 by exact Hv. reflexivity.
    + destruct (bool_decide _); [reflexivity |].
      rewrite Hm. cbn.
      destruct (cram_suffix str) eqn:E; [| reflexivity].
      exfalso. apply Hn. apply cram_suffix_iff. exact E.
  - intros Hv H. rewrite bool_decide_eq_false_2 by exact Hv.
    destruct H as [Hm | Hs].
    + apply Z.eqb_neq in Hm. rewrite Hm. reflexivity.
    + apply cram_suffix_iff in Hs. rewrite Hs.
      destruct (negb (hts_idx_mapped file_c refIndex =? 0)); reflexivity.
Qed.

(** X10: state that the source declares inside a loop body does not leak
    into the next iteration: what a reference scan leaves in the junction
    container, the inter-chromosomal map, the sink and the library record
    does not depend on the intra-chromosomal mate map it starts with, and a
    region scan does not depend on the position-local pair it starts with. *)
Theorem loop_local_state_is_fresh (o : Z) (file_c : nat) (st : ScanState)
    (refIndex : Z) (vR : Z * Z) (m : gmap Z (Z * Z)) (p : Z) (s : gset Z) :
  let a := scanChr o file_c (set_mateMap m st) refIndex in
  let b := scanChr o file_c st refIndex in
  readBp a = readBp b /\ matetra a = matetra b
  /\ bamRecord a = bamRecord b /\ lib a = lib b
  /\ scanRegion o file_c refIndex (set_lastAligned p s st) vR
     = scanRegion o file_c refIndex st vR.
Proof.
  cbv zeta. unfold scanChr.
  destruct (bool_decide _); [repeat split |].
  destruct (if negb _ then false else _); repeat split.
Qed.

(** *** More on the back-index *)

Lemma track_flat_length (rs : list SRBamRecord.t)
    (store s' : list (gmap (Z * Z) Z)) :
  foldM trackStep rs store = Some s' -> length s' = length store.
Proof.
  revert store. induction rs as [| r rs IH]; intros store; cbn [foldM].
  - intros [= <-]. reflexivity.
  - destruct (trackStep store r) as [s1 |] eqn:H1; [| discriminate].
    intros H. rewrite (IH _ H).
    destruct (trackStep_entry _ _ _ (0, (0, 0)) H1) as [-> _]. reflexivity.
Qed.

(** X11: the tracking loop keeps the number of references, writes only
    svids of assigned records (never -1) on keys such records have an
    endpoint on, and leaves every other key of the index with the value it
    had. *)
Theorem trackSplitReads_frame (br : list (list SRBamRecord.t))
    (srStore store' : list (gmap (Z * Z) Z)) :
  trackSplitReads br srStore = Some store' ->
  length store' = length srStore
  /\ forall e,
       (entry store' e = entry srStore e
        \/ exists r, In r (concat br) /\ SRBamRecord.svid r <> -1
                     /\ touches r e = true
                     /\ entry store' e = Some (SRBamRecord.svid r))
       /\ ((forall r, In r (concat br) -> assigned r = true -> touches r e = false) ->
           entry store' e = entry srStore e).
Proof.
  rewrite trackSplitReads_flat. intros H.
  split; [exact (track_flat_length _ _ _ H) |].
  intros e. rewrite (track_flat_entry _ _ _ e H).
  destruct (lastWrite_cases (concat br) e (entry srStore e))
    as [E | (r & Hin & Ha & Ht & E)].
  - split; [left; exact E | intros _; exact E].
  - split.
    + right. exists r. repeat split; try assumption.
      unfold assigned in Ha. apply negb_true_iff, Z.eqb_neq in Ha. exact Ha.
    + intros Hnone. rewrite (Hnone r Hin Ha) in Ht. discriminate.
Qed.

Lemma concat_all_nil {A : Type} (ll : list (list A)) :
  Forall (fun row => row = []) ll -> concat ll = [].
Proof.
  induction 1 as [| row ll Hrow _ IH]; [reflexivity |].
  cbn. rewrite Hrow, IH. reflexivity.
Qed.

Lemma clusterSR_all_empty (br : list (list SRBamRecord.t))
    (srSVs : list StructuralVariantRecord.t) (l : list nat) :
  Forall (fun row => row = []) br ->
  fold_left clusterSRStep l (br, srSVs) = (br, srSVs).
Proof.
  intros Hbr. induction l as [| svt l IH]; [reflexivity |].
  cbn [fold_left].
  assert (E : clusterSRStep (br, srSVs) svt = (br, srSVs)).
  { unfold clusterSRStep. cbn [fst snd].
    destruct (br !! svt) as [row |] eqn:Hrow; [| reflexivity].
    rewrite Forall_lookup in Hbr. rewrite (Hbr svt row Hrow). reflexivity. }
  rewrite E. exact IH.
Qed.

(** X12: when the samples yield no split-read record at all, [cluster] is
    never called on split reads: [scanPEandSR] returns with the split-read
    SV vector and the back-index exactly as the caller passed them.  The
    caller passes one library per input file ([sampleLib[file_c]] is read
    for every file). *)
Theorem no_split_reads_no_sr_output (svs srSVs : list StructuralVariantRecord.t)
    (srStore : list (gmap (Z * Z) Z)) (libs : list LibraryInfo.t) :
  (length (Config.files c) <= length libs)%nat ->
  Forall (fun row => row = []) (srBR (scanSamples libs)) ->
  exists res,
    scanPEandSR svs srSVs srStore libs = Some res
    /\ res_srSVs res = srSVs /\ res_srStore res = srStore.
Proof.
  intros _ Hempty. unfold scanPEandSR, scanAndCluster. cbv zeta.
  rewrite (clusterSR_all_empty _ srSVs _ Hempty).
  destruct (fold_left (clusterPEStep _) _ _) as [pe svs'].
  cbn [cl_srBR cl_svs cl_srSVs cl_sampleLib].
  rewrite trackSplitReads_flat, (concat_all_nil _ Hempty). cbn [foldM].
  eexists. repeat split.
Qed.

(** *** More on the assembler *)

Lemma flagged_lor (f a b : Z) :
  flagged f (Z.lor a b) = flagged f a || flagged f b.
Proof.
  unfold flagged. rewrite Z.land_lor_distr_r.
  destruct (Z.eqb_spec (Z.land f a) 0) as [Ea | Ea];
    destruct (Z.eqb_spec (Z.land f b) 0) as [Eb | Eb]; cbn.
  - rewrite Ea, Eb. reflexivity.
  - apply negb_true_iff, Z.eqb_neq. intros H.
    apply Z.lor_eq_0_iff in H. tauto.
  - apply negb_true_iff, Z.eqb_neq. intros H.
    apply Z.lor_eq_0_iff in H. tauto.
  - apply negb_true_iff, Z.eqb_neq. intros H.
    apply Z.lor_eq_0_iff in H. tauto.
Qed.

(** X13: the second pass takes exactly the records the first pass takes,
    minus secondary and supplementary alignments: its input filter is the
    scanner's filter and the test of these two flags. *)
Theorem asmFilter_is_scanFilter_minus_secondary (rec : bam1_t) :
  asmFilter rec
  = scanFilter rec
    && negb (flagged (flag rec) (Z.lor BAM_FSECONDARY BAM_FSUPPLEMENTARY)).
Proof.
  unfold asmFilter, scanFilter. rewrite !flagged_lor.
  destruct (flagged (flag rec) BAM_FQCFAIL), (flagged (flag rec) BAM_FDUP),
    (flagged (flag rec) BAM_FUNMAP), (flagged (flag rec) BAM_FSECONDARY),
    (flagged (flag rec) BAM_FSUPPLEMENTARY),
    ((qual rec <? Config.minMapQual c) || (tid rec <? 0)); reflexivity.
Qed.

Lemma bam_seqi_range (s : list Z) (i : Z) : 0 <= bam_seqi s i < 16.
Proof.
  unfold bam_seqi. change 15 with (Z.ones 4).
  rewrite Z.land_ones by lia. apply Z.mod_pos_bound. lia.
Qed.

Lemma bam_seqi_nibble (s : list Z) (i : Z) :
  0 <= i -> bam_seqi s i = nibble s i.
Proof.
  intros Hi. unfold bam_seqi, nibble. cbv zeta.
  change 15 with (Z.ones 4). rewrite Z.land_ones by lia.
  rewrite (Z.shiftr_div_pow2 i 1) by lia. change (2 ^ 1) with 2.
  destruct (Z.even i).
  - rewrite Z.shiftr_div_pow2 by lia. reflexivity.
  - rewrite Z.shiftr_0_r. reflexivity.
Qed.

Lemma string_of_list_ascii_length (l : list ascii) :
  String.length (string_of_list_ascii l) = length l.
Proof. induction l as [| a l IH]; cbn; [reflexivity | rewrite IH; reflexivity]. Qed.

Lemma get_decoded (f : nat -> ascii) (n : nat) :
  forall start i, (i < n)%nat ->
    String.get i (string_of_list_ascii (map f (seq start n)))
    = Some (f (start + i)%nat).
Proof.
  induction n as [| n IH]; intros start i Hi; [lia |].
  cbn [seq map string_of_list_ascii]. destruct i as [| i]; cbn [String.get].
  - rewrite Nat.add_0_r. reflexivity.
  - rewrite IH by lia. f_equal. f_equal. lia.
Qed.

(** X14: the decoded sequence of a record has [l_qseq] characters, all
    taken from the table "=ACMGRSVTWYHKDBN"; character [i] is the table entry
    of the 4-bit code of base [i], which is the high nibble of byte [i/2]
    for even [i] and its low nibble for odd [i]. *)
Theorem decodeSequence_spec (rec : bam1_t) :
  String.length (decodeSequence rec) = Z.to_nat (l_qseq rec)
  /\ Forall (fun ch => In ch nucleotides) (list_ascii_of_string (decodeSequence rec))
  /\ forall i, (i < Z.to_nat (l_qseq rec))%nat ->
       String.get i (decodeSequence rec)
       = Some (nth (Z.to_nat (nibble (seqdata rec) (Z.of_nat i))) nucleotides "="%char).
Proof.
  unfold decodeSequence. split; [| split].
  - rewrite string_of_list_ascii_length, length_map, length_seq. reflexivity.
  - rewrite list_ascii_of_string_of_list_ascii. apply Forall_forall.
    intros ch Hch. apply list_elem_of_In, in_map_iff in Hch.
    destruct Hch as (i & <- & _). apply nth_In.
    pose proof (bam_seqi_range (seqdata rec) (Z.of_nat i)) as Hr.
    change (length nucleotides) with 16%nat. lia.
  - intros i Hi. rewrite get_decoded by exact Hi. cbn [Nat.add].
    rewrite bam_seqi_nibble by lia. reflexivity.
Qed.

(** X15: the position bitset of lines 113-115 is only a shortcut: with the
    bitset built from the keys of the back-index, a read step does what it
    would do if the bitset test let the record through. *)
Theorem hits_is_a_shortcut (refIndex : Z) (store : gmap (Z * Z) Z)
    (hits' : gset Z) (st : AsmState) (rec : bam1_t) :
  pos rec ∈ hits' ->
  gatherRead refIndex store (set_map fst (dom store)) st rec
  = gatherRead refIndex store hits' st rec.
Proof.
  intros Hin. unfold gatherRead.
  destruct (negb (asmFilter rec)); [reflexivity |].
  rewrite (bool_decide_eq_true_2 (pos rec ∈ hits')) by exact Hin. cbn [negb].
  destruct (bool_decide (pos rec ∈ (set_map fst (dom store) : gset Z))) eqn:E;
    [reflexivity |].
  cbn [negb]. apply bool_decide_eq_false_1 in E.
  destruct (store !! (pos rec, hash_string (qname rec))) as [svid |] eqn:Hlk;
    [| reflexivity].
  exfalso. apply E. apply elem_of_map.
  exists (pos rec, hash_string (qname rec)). split; [reflexivity |].
  apply elem_of_dom. eauto.
Qed.

Lemma Untouched_complete (svs0 : list StructuralVariantRecord.t) (i : nat)
    (refseq : string) (st : AsmState) (j : nat) :
  Untouched svs0 i st -> Untouched svs0 i (completeOne refseq st j).
Proof.
  intros (Hlen & Hsv & Hslot). unfold completeOne.
  destruct (svs st !! j) as [sv |] eqn:Hj; [| repeat split; assumption].
  destruct (negb (svDone st !!! j) && _); [| repeat split; assumption].
  assert (Hclear : forall l : list (list string),
            l !!! i = [] -> <[j := []]> l !!! i = []).
  { intros l Hl. rewrite list_lookup_total_insert. case_decide; auto. }
  destruct (decide (j = i)) as [-> | Hne].
  - rewrite Hslot. cbn [length Z.of_nat]. change (0 >? 1) with false.
    rewrite andb_false_r. unfold Untouched. cbn [svs seqStore].
    repeat split; auto.
  - destruct (negb (_translocation _) && _).
    + destruct (alignConsensus c refseq _) as [ok sv2].
      unfold Untouched. cbn [svs seqStore].
      rewrite length_insert, list_lookup_insert_ne by exact Hne.
      repeat split; auto.
    + unfold Untouched. cbn [svs seqStore]. repeat split; auto.
Qed.

Lemma Untouched_gather (svs0 : list StructuralVariantRecord.t) (i : nat)
    (refIndex : Z) (store : gmap (Z * Z) Z) (hits : gset Z)
    (st st' : AsmState) (rec : bam1_t) :
  (forall key, store !! key <> Some (Z.of_nat i)) ->
  gatherRead refIndex store hits st rec = Some st' ->
  Untouched svs0 i st -> Untouched svs0 i st'.
Proof.
  intros Hno Hg (Hlen & Hsv & Hslot). apply gatherRead_cases in Hg.
  destruct Hg as [-> | (j & sv & sq & Hlk & _ & _ & _ & _ & ->)];
    [repeat split; assumption |].
  unfold Untouched. cbn [svs seqStore]. repeat split; try assumption.
  rewrite list_lookup_total_insert_ne; [exact Hslot |].
  intros ->. exact (Hno _ Hlk).
Qed.

(** X16: the assembly pass keeps the number of SV records, and an SV that no
    key of the back-index points at comes out exactly as it went in: no read
    is gathered for it and no consensus is computed. *)
Theorem unreferenced_sv_is_untouched (srStore : list (gmap (Z * Z) Z))
    (svs0 : list StructuralVariantRecord.t) (final : AsmState) (i : nat) :
  assembleSplitReads srStore svs0 = Some final ->
  length (svs final) = length svs0
  /\ (unreferenced srStore i -> svs final !! i = svs0 !! i).
Proof.
  intros Hpass.
  assert (Hlen : SameLength svs0 final).
  { revert Hpass. unfold assembleSplitReads.
    apply foldM_inv; [| reflexivity].
    intros st refIndex st' _ Hst. unfold assembleChr.
    destruct (bool_decide _); [intros [= <-]; exact Hst |].
    destruct (srStore !! _) as [store |]; [| discriminate].
    destruct (bool_decide _); [intros [= <-]; exact Hst |].
    apply foldM_inv; [| exact Hst].
    intros s file_c s' _ Hs. unfold assembleFile. apply foldM_inv; [| exact Hs].
    intros s0 vR s0' _ Hs0. unfold assembleRegion.
    destruct (foldM _ _ s0) as [s1 |] eqn:E; [| discriminate].
    intros [= <-]. unfold completeAll. apply fold_left_inv.
    - intros a j _ Ha. unfold completeOne.
      destruct (svs a !! j); [| exact Ha].
      destruct (negb (svDone a !!! j) && _); [| exact Ha].
      destruct (negb (_translocation _) && _); [| exact Ha].
      destruct (alignConsensus c _ _). unfold SameLength. cbn [svs].
      rewrite length_insert. exact Ha.
    - revert E. apply foldM_inv; [| exact Hs0].
      intros a x a' _ Ha Hg. apply gatherRead_svs in Hg.
      destruct Hg as (Hsvs & _ & _). unfold SameLength. rewrite Hsvs. exact Ha. }
  split; [exact Hlen |].
  intros Hun.
  assert (H : Untouched svs0 i final); [| destruct H as (_ & H & _); exact H].
  revert Hpass. unfold assembleSplitReads.
  apply foldM_inv; [| repeat split].
  intros st refIndex st' _ Hst. unfold assembleChr.
  destruct (bool_decide _); [intros [= <-]; exact Hst |].
  destruct (srStore !! Z.to_nat refIndex) as [store |] eqn:Hstore; [| discriminate].
  destruct (bool_decide _); [intros [= <-]; exact Hst |].
  assert (Hno : forall key, store !! key <> Some (Z.of_nat i)).
  { intros key. apply Hun. apply list_elem_of_In.
    eapply list_elem_of_lookup_2. exact Hstore. }
  apply foldM_inv.
  - intros s file_c s' _ Hs. unfold assembleFile. apply foldM_inv; [| exact Hs].
    intros s0 vR s0' _ Hs0. unfold assembleRegion.
    destruct (foldM _ _ s0) as [s1 |] eqn:E; [| discriminate].
    intros [= <-]. unfold completeAll. apply fold_left_inv.
    + intros a j _ Ha. apply Untouched_complete. exact Ha.
    + revert E. apply foldM_inv; [| exact Hs0].
      intros a x a' _ Ha Hg. exact (Untouched_gather _ _ _ _ _ _ _ _ Hno Hg Ha).
  - destruct Hst as (Hl & Hsv & _). unfold Untouched, chrInit. cbn [svs seqStore].
    repeat split; try assumption.
    rewrite list_lookup_total_alt.
    destruct (replicate _ _ !! i) as [x |] eqn:Ex; [| reflexivity].
    apply lookup_replicate_1 in Ex. destruct Ex as [-> _]. reflexivity.
Qed.

Lemma callsOk_app (l1 l2 : list AsmCall) :
  callsOk l1 = true -> callsOk l2 = true -> callsOk (l1 ++ l2) = true.
Proof.
  intros H1 H2. remember (length l1) as n eqn:Hn.
  revert l1 H1 Hn. induction n as [n IH] using lt_wf_ind. intros l1 H1 Hn.
  destruct l1 as [| [i seqs | j] l1]; [exact H2 | | discriminate].
  destruct l1 as [| [i' seqs' | j] rest]; [discriminate | discriminate |].
  cbn [callsOk app] in *. apply andb_true_iff in H1. destruct H1 as [H1 Hrest].
  rewrite H1. cbn [andb].
  apply (IH (length rest)); [cbn in Hn; lia | exact Hrest | reflexivity].
Qed.

Lemma callsOk_complete (refseq : string) (st : AsmState) (j : nat) :
  AsmInv st -> callsOk (calls st) = true ->
  callsOk (calls (completeOne refseq st j)) = true.
Proof.
  intros (_ & _ & Hcap & _) Hok. unfold completeOne.
  destruct (svs st !! j) as [sv |]; [| exact Hok].
  destruct (negb (svDone st !!! j) && _); [| exact Hok].
  destruct (negb (_translocation _) && (_ >? 1)) eqn:E; [| exact Hok].
  destruct (alignConsensus c refseq _) as [ok sv2]. cbn [calls].
  apply callsOk_app; [exact Hok |].
  apply andb_true_iff in E. destruct E as [_ E]. apply Z.gtb_lt in E.
  cbn [callsOk]. rewrite Nat.eqb_refl. cbn [andb].
  specialize (Hcap j).
  assert (E1 : (2 <=? Z.of_nat (length (seqStore st !!! j))) = true)
    by (apply Z.leb_le; lia).
  assert (E2 : (Z.of_nat (length (seqStore st !!! j)) <=? maxReadPerSV) = true)
    by (apply Z.leb_le; exact Hcap).
  rewrite E1, E2. reflexivity.
Qed.

(** X17: in the log of a completed pass every call of the MSA primitive has
    between 2 and [maxReadPerSV] sequences and is followed at once by the
    consensus alignment of the same SV; the aligner is never called on its
    own. *)
Theorem msa_called_on_2_to_20_sequences (srStore : list (gmap (Z * Z) Z))
    (svs0 : list StructuralVariantRecord.t) (final : AsmState) :
  assembleSplitReads srStore svs0 = Some final ->
  callsOk (calls final) = true.
Proof.
  intros Hpass. change (LogOk final). revert Hpass.
  unfold assembleSplitReads. apply foldM_inv; [| reflexivity].
  intros st refIndex st' _ Hst. unfold assembleChr.
  destruct (bool_decide _); [intros [= <-]; exact Hst |].
  destruct (srStore !! _) as [store |]; [| discriminate].
  destruct (bool_decide _); [intros [= <-]; exact Hst |].
  intros H.
  assert (Hgoal : LogInv st'); [| destruct Hgoal as [_ Hg]; exact Hg].
  revert H. apply foldM_inv; [| split; [apply AsmInv_init | exact Hst]].
  intros s file_c s' _ Hs. unfold assembleFile. apply foldM_inv; [| exact Hs].
  intros s0 vR s0' _ Hs0. unfold assembleRegion.
  destruct (foldM _ _ s0) as [s1 |] eqn:E; [| discriminate].
  intros [= <-]. unfold completeAll. apply fold_left_inv.
  - intros a j _ [Ha Hc]. split; [apply AsmInv_complete; exact Ha |].
    apply callsOk_complete; assumption.
  - revert E. apply foldM_inv; [| exact Hs0].
    intros a x a' _ [Ha Hc] Hg. split; [eapply AsmInv_gather; eassumption |].
    apply gatherRead_svs in Hg. destruct Hg as (_ & Hcalls & _).
    unfold LogOk. rewrite Hcalls. exact Hc.
Qed.

(** *** What reaches the evidence pool *)

Lemma pairClass_Some (o : Z) (rec : bam1_t) (st : ScanState) (svt : Z) :
  pairClass o rec st = Some svt ->
  svt = _isizeMappingPos rec o /\ svt <> -1 /\
  flagged (flag rec) BAM_FPAIRED = true /\
  LibraryInfo.median (lib st) <> 0 /\
  flagged (flag rec) (Z.lor BAM_FSECONDARY BAM_FSUPPLEMENTARY) = false /\
  0 <= mtid rec /\ flagged (flag rec) BAM_FMUNMAP = false /\
  validRegions (mtid rec) <> [] /\
  (_translocationRec rec = true -> Config.minTraQual c <= qual rec) /\
  (Config.svtcmd c = true -> svt ∈ Config.svtset c).
Proof.
  unfold pairClass.
  destruct (flagged (flag rec) BAM_FPAIRED) eqn:Ep; cbn [negb]; [| discriminate].
  destruct (LibraryInfo.median (lib st) =? 0) eqn:Em; [discriminate |].
  destruct (flagged (flag rec) (Z.lor _ _)) eqn:Es; [discriminate |].
  destruct ((mtid rec <? 0) || flagged (flag rec) BAM_FMUNMAP) eqn:Eu;
    [discriminate |].
  destruct (bool_decide (validRegions (mtid rec) = [])) eqn:Ev; [discriminate |].
  destruct (_translocationRec rec && (qual rec <? Config.minTraQual c)) eqn:Et;
    [discriminate |].
  cbv zeta. destruct (_isizeMappingPos rec o =? -1) eqn:E1; [discriminate |].
  destruct (Config.svtcmd c && _) eqn:Ec; [discriminate |].
  intros [= <-].
  apply orb_false_iff in Eu. destruct Eu as [Eu1 Eu2].
  apply Z.eqb_neq in Em, E1. apply Z.ltb_ge in Eu1.
  apply bool_decide_eq_false_1 in Ev.
  repeat split; try assumption.
  - intros Ht. rewrite Ht in Et. cbn in Et. apply Z.ltb_ge in Et. exact Et.
  - intros Hc. rewrite Hc in Ec. cbn in Ec. apply negb_false_iff in Ec.
    apply bool_decide_eq_true_1 in Ec. exact Ec.
Qed.

Lemma scanRead_FilterInv (o : Z) (l : LibraryInfo.t)
    (sink : gmap Z (list BamAlignRecord.t)) (st : ScanState) (rec : bam1_t) :
  FilterInv o l sink st -> FilterInv o l sink (scanRead o st rec).
Proof.
  intros H. unfold scanRead. destruct (scanFilter rec); [| exact H].
  unfold pairedEnd. set (st1 := set_readBp _ st).
  assert (H1 : FilterInv o l sink st1) by exact H.
  destruct (pairClass o rec st1) as [svt |] eqn:Hcl; [| exact H1].
  destruct ((svt =? 2) && _) eqn:Edel; [exact H1 |].
  destruct H1 as [Hs Hin].
  destruct (mateReconcile_sink svt (u32 (hash_string (qname rec))) rec st1)
    as [[Hb Hl] | (q & a & Hb & Hl)]; unfold FilterInv; rewrite Hb, Hl.
  - split; assumption.
  - split; [exact Hs |]. intros svt' e He.
    destruct (decide (svt = svt')) as [<- | Hne].
    + rewrite lookup_total_insert_eq in He. apply in_app_or in He.
      destruct He as [He | [<- | []]]; [apply Hin; exact He |].
      right. cbn [mkBamAlignRecord BamAlignRecord.rec].
      destruct (pairClass_Some _ _ _ _ Hcl)
        as (H1 & H2 & H3 & H4 & H5 & H6 & H7 & H8 & H9 & H10).
      destruct Hs as (_ & Hmed & _ & _ & Hcut).
      unfold Classified. rewrite <- Hmed, <- Hcut.
      repeat split; try assumption.
      intros ->. change (2 =? 2) with true in Edel. cbn [andb] in Edel.
      rewrite Z.gtb_ltb in Edel. apply Z.ltb_ge in Edel. exact Edel.
    + rewrite lookup_total_insert_ne in He by exact Hne. apply Hin. exact He.
Qed.

(** X18: every evidence record a worker adds comes from a record that
    passed all of lines 310-326: paired, primary, mate mapped on a
    reference with valid regions, library median not 0, class [svt] (the
    slot it is stored in) not -1 and in the svt allow-list when one is set,
    mapping quality at least [minTraQual] for an inter-chromosomal pair, and
    absolute insert size at least [maxISizeCutoff] for class 2. *)
Theorem evidence_passed_every_filter (file_c : nat) (l : LibraryInfo.t)
    (sink : gmap Z (list BamAlignRecord.t)) (svt : Z) (e : BamAlignRecord.t) :
  In e (bamRecord (scanSampleReads file_c l sink) !!! svt) ->
  In e (sink !!! svt)
  \/ Classified (Z.max (LibraryInfo.maxISizeCutoff l) (LibraryInfo.rs l)) l svt
       (BamAlignRecord.rec e).
Proof.
  assert (H : FilterInv (Z.max (LibraryInfo.maxISizeCutoff l) (LibraryInfo.rs l))
                l sink (scanSampleReads file_c l sink)).
  { unfold scanSampleReads. apply fold_left_inv.
    - intros st refIndex _ H. unfold scanChr.
      destruct (bool_decide _); [exact H |].
      destruct (if negb _ then false else _); [exact H |].
      apply fold_left_inv; [| exact H].
      intros st' vR _ H'. unfold scanRegion. apply fold_left_inv; [| exact H'].
      intros st'' rec _ H''. apply scanRead_FilterInv. exact H''.
    - split; [repeat split | intros svt' e' He'; left; exact He']. }
  destruct H as [_ H]. apply H.
Qed.

Lemma sameLibrary_trans (l1 l2 l3 : LibraryInfo.t) :
  sameLibrary l1 l2 -> sameLibrary l2 l3 -> sameLibrary l1 l3.
Proof.
  unfold sameLibrary. intros (? & ? & ? & ? & ?) (? & ? & ? & ? & ?).
  repeat split; congruence.
Qed.

(** X19: given one library per input file, the sample loop hands back one
    library record per sample, in the same positions, and each differs from
    the caller's at most in its abnormal-pair counter. *)
Theorem sample_loop_keeps_libraries (libs : list LibraryInfo.t) :
  (length (Config.files c) <= length libs)%nat ->
  length (sampleLib (scanSamples libs)) = length libs
  /\ forall i l, libs !! i = Some l ->
       exists l', sampleLib (scanSamples libs) !! i = Some l' /\ sameLibrary l l'.
Proof.
  intros _. change (PoolLibraries libs (scanSamples libs)).
  unfold scanSamples. apply fold_left_inv.
  - intros p file_c _ [Hlen Hp]. unfold scanSample.
    destruct (sampleLib p !! file_c) as [l1 |] eqn:E1; [| split; assumption].
    split; cbn [sampleLib]; [rewrite length_insert; exact Hlen |].
    intros i l Hi. destruct (Hp i l Hi) as (l' & Hl' & Hsame).
    destruct (decide (file_c = i)) as [-> | Hne].
    + exists (lib (scanSampleReads i l1 (peBR p))). split.
      * apply list_lookup_insert_eq. eapply lookup_lt_Some. exact E1.
      * rewrite E1 in Hl'. inversion Hl'; subst l'.
        apply (sameLibrary_trans l l1); [exact Hsame |].
        destruct (scanSampleReads_SinkInv i l1 (peBR p)) as [Hs _]. exact Hs.
    + exists l'. rewrite list_lookup_insert_ne by exact Hne. auto.
  - split; [reflexivity |]. intros i l Hi. exists l. split; [exact Hi |].
    repeat split.
Qed.

(** X20: the sequence store and the done flags are local to a reference:
    what the assembly of a reference does to the SV vector and to the call
    log does not depend on the store and flags left by the reference before
    it. *)
Theorem per_reference_stores_are_fresh (srStore : list (gmap (Z * Z) Z))
    (v : list StructuralVariantRecord.t) (log : list AsmCall)
    (ss ss' : list (list string)) (sd sd' : list bool) (refIndex : Z) :
  (fun s => (svs s, calls s)) <$> assembleChr srStore (mkAsm v ss sd log) refIndex
  = (fun s => (svs s, calls s)) <$> assembleChr srStore (mkAsm v ss' sd' log) refIndex.
Proof.
  unfold assembleChr.
  destruct (bool_decide _); [reflexivity |].
  destruct (srStore !! _) as [store |]; [| reflexivity].
  destruct (bool_decide _); reflexivity.
Qed.

(** X21: done is final within a reference.  For an SV marked done, a read
    step keeps the mark and the empty slot, the completion step of that SV
    changes nothing (no further MSA or alignment), and the completion step
    of any other SV keeps the mark. *)
Theorem done_sv_stays_done (st : AsmState) (i : nat) :
  AsmInv st -> svDone st !!! i = true ->
  (forall refIndex store hits rec st',
      gatherRead refIndex store hits st rec = Some st' ->
      svDone st' !!! i = true /\ seqStore st' !!! i = [])
  /\ (forall refseq, completeOne refseq st i = st)
  /\ (forall refseq j, svDone (completeOne refseq st j) !!! i = true).
Proof.
  intros (_ & _ & _ & Hdone) Hd.
  assert (Hself : forall refseq, completeOne refseq st i = st).
  { intros refseq. unfold completeOne.
    destruct (svs st !! i); [| reflexivity]. rewrite Hd. reflexivity. }
  split; [| split; [exact Hself |]].
  - intros refIndex store hits rec st' Hg. apply gatherRead_cases in Hg.
    destruct Hg as [-> | (j & sv & sq & _ & _ & _ & Hnd & _ & ->)];
      [split; [exact Hd | apply Hdone; exact Hd] |].
    cbn [svDone seqStore]. split; [exact Hd |].
    rewrite list_lookup_total_insert_ne; [apply Hdone; exact Hd |].
    intros ->. congruence.
  - intros refseq j. destruct (decide (j = i)) as [-> | Hne];
      [rewrite Hself; exact Hd |].
    unfold completeOne.
    destruct (svs st !! j); [| exact Hd].
    destruct (negb (svDone st !!! j) && _); [| exact Hd].
    destruct (negb (_translocation _) && _);
      [destruct (alignConsensus c refseq _) |]; cbn [svDone];
      rewrite list_lookup_total_insert_ne by exact Hne; exact Hd.
Qed.

(** *** Workers and the shared sink *)

Lemma emit_SinkSim (sink sink' : gmap Z (list BamAlignRecord.t))
    (svt : Z) (e : BamAlignRecord.t) (st st' : ScanState) :
  SinkSim sink sink' st st' ->
  SinkSim sink sink' (emitPair svt e st) (emitPair svt e st').
Proof.
  intros (H1 & H2 & H3 & H4 & H5 & H6 & new & Hnew).
  unfold SinkSim, emitPair. cbn. rewrite H6.
  repeat (split; [assumption || reflexivity |]).
  exists (fun s => if decide (s = svt) then new s ++ [e] else new s).
  intros s. destruct (decide (s = svt)) as [-> | Hne].
  - rewrite !lookup_total_insert_eq.
    destruct (Hnew svt) as [-> ->]. rewrite <- !app_assoc. split; reflexivity.
  - rewrite !lookup_total_insert_ne by congruence. apply Hnew.
Qed.

Lemma SinkSim_private (sink sink' : gmap Z (list BamAlignRecord.t))
    (st st' t t' : ScanState) :
  SinkSim sink sink' st st' ->
  readBp t = readBp t' -> mateMap t = mateMap t' -> matetra t = matetra t' ->
  lastAlignedPos t = lastAlignedPos t' ->
  lastAlignedPosReads t = lastAlignedPosReads t' ->
  bamRecord t = bamRecord st -> bamRecord t' = bamRecord st' ->
  lib t = lib st -> lib t' = lib st' ->
  SinkSim sink sink' t t'.
Proof.
  intros (_ & _ & _ & _ & _ & H6 & Hnew) ? ? ? ? ? Hb Hb' Hl Hl'.
  unfold SinkSim. rewrite Hb, Hb', Hl, Hl'. repeat (split; [assumption |]).
  exact Hnew.
Qed.

Lemma mateReconcile_SinkSim (sink sink' : gmap Z (list BamAlignRecord.t))
    (svt seed : Z) (rec : bam1_t) (st st' : ScanState) :
  SinkSim sink sink' st st' ->
  SinkSim sink sink' (mateReconcile svt seed rec st)
                     (mateReconcile svt seed rec st').
Proof.
  intros H. pose proof H as (H1 & H2 & H3 & H4 & H5 & H6 & _).
  unfold mateReconcile. cbv zeta.
  set (st1 := if pos rec >? lastAlignedPos st
              then set_lastAligned (pos rec) ∅ st else st).
  set (st1' := if pos rec >? lastAlignedPos st'
               then set_lastAligned (pos rec) ∅ st' else st').
  assert (Hs : SinkSim sink sink' st1 st1').
  { subst st1 st1'. rewrite <- H4.
    destruct (pos rec >? lastAlignedPos st); [| exact H].
    apply (SinkSim_private sink sink' st st'); auto. }
  clearbody st1 st1'. clear H H1 H2 H3 H4 H5 H6.
  pose proof Hs as (H1 & H2 & H3 & H4 & H5 & H6 & _).
  rewrite <- H5.
  destruct (_firstPairObs rec (lastAlignedPosReads st1)).
  { destruct (_translocation svt);
      apply (SinkSim_private sink sink' st1 st1'); cbn; auto; congruence. }
  rewrite <- H2, <- H3.
  destruct (_translocation svt).
  - destruct (matetra st1 !! hash_pair_mate rec) as [p |]; [| exact Hs].
    destruct (fst p =? 0); [exact Hs |].
    cbn [lib set_matetra]. rewrite <- H6.
    apply emit_SinkSim.
    apply (SinkSim_private sink sink' st1 st1'); cbn; auto.
  - destruct (mateMap st1 !! hash_pair_mate rec) as [p |]; [| exact Hs].
    destruct (fst p =? 0); [exact Hs |].
    cbn [lib set_mateMap]. rewrite <- H6.
    apply emit_SinkSim.
    apply (SinkSim_private sink sink' st1 st1'); cbn; auto.
Qed.

Lemma scanRead_SinkSim (sink sink' : gmap Z (list BamAlignRecord.t))
    (o : Z) (rec : bam1_t) (st st' : ScanState) :
  SinkSim sink sink' st st' ->
  SinkSim sink sink' (scanRead o st rec) (scanRead o st' rec).
Proof.
  intros H. unfold scanRead. destruct (scanFilter rec); [| exact H].
  pose proof H as (H1 & H2 & H3 & H4 & H5 & H6 & _).
  rewrite <- H1.
  set (st1 := set_readBp _ st). set (st1' := set_readBp _ st').
  assert (Hs : SinkSim sink sink' st1 st1')
    by (apply (SinkSim_private sink sink' st st'); subst st1 st1'; cbn;
        first [assumption | reflexivity]).
  unfold pairedEnd.
  assert (Hc : pairClass o rec st1' = pairClass o rec st1)
    by (unfold pairClass; subst st1 st1'; cbn; rewrite H6; reflexivity).
  rewrite Hc.
  destruct (pairClass o rec st1) as [svt |]; [| exact Hs].
  assert (Hl : lib st1' = lib st1) by (subst st1 st1'; cbn; congruence).
  rewrite Hl.
  destruct (_ && _); [exact Hs |].
  apply mateReconcile_SinkSim. exact Hs.
Qed.

Lemma scanSampleReads_SinkSim (file_c : nat) (l : LibraryInfo.t)
    (sink sink' : gmap Z (list BamAlignRecord.t)) :
  SinkSim sink sink' (scanSampleReads file_c l sink)
                     (scanSampleReads file_c l sink').
Proof.
  unfold scanSampleReads. apply fold_left_sim.
  - intros st st' refIndex H. unfold scanChr.
    destruct (bool_decide _); [exact H |].
    destruct (if negb _ then false else _); [exact H |].
    pose proof H as (H1 & H2 & H3 & H4 & H5 & H6 & _).
    apply fold_left_sim.
    + intros a a' vR Ha. unfold scanRegion.
      pose proof Ha as (A1 & A2 & A3 & A4 & A5 & A6 & _).
      apply fold_left_sim.
      * intros b b' rec Hb. apply scanRead_SinkSim. exact Hb.
      * apply (SinkSim_private sink sink' a a'); cbn;
          first [assumption | reflexivity].
    + apply (SinkSim_private sink sink' st st'); cbn;
        first [assumption | reflexivity].
  - unfold SinkSim. cbn. repeat (split; [reflexivity |]).
    exists (fun _ => []). intros svt. rewrite !app_nil_r. split; reflexivity.
Qed.

(** X22: what a worker adds does not depend on what the shared sink holds
    when it starts: run on two sinks, a worker ends with the same junctions
    and the same library record, and appends the same records, svt by svt,
    to either sink. *)
Theorem worker_additions_ignore_sink (file_c : nat) (l : LibraryInfo.t)
    (sink sink' : gmap Z (list BamAlignRecord.t)) :
  let st := scanSampleReads file_c l sink in
  let st' := scanSampleReads file_c l sink' in
  readBp st = readBp st' /\ lib st = lib st'
  /\ exists new : Z -> list BamAlignRecord.t,
       forall svt, bamRecord st !!! svt = sink !!! svt ++ new svt
                   /\ bamRecord st' !!! svt = sink' !!! svt ++ new svt.
Proof.
  cbv zeta.
  destruct (scanSampleReads_SinkSim file_c l sink sink')
    as (H1 & _ & _ & _ & _ & H6 & Hnew).
  auto.
Qed.

(** *** Split reads do not wait for pairs *)

Lemma mateReconcile_readBp (svt seed : Z) (rec : bam1_t) (st : ScanState) :
  readBp (mateReconcile svt seed rec st) = readBp st.
Proof.
  unfold mateReconcile. cbv zeta.
  destruct (pos rec >? lastAlignedPos st);
    destruct (_firstPairObs rec _); destruct (_translocation svt); cbn;
    try reflexivity;
    (destruct (_ !! _) as [p |]; [destruct (fst p =? 0) |]; reflexivity).
Qed.

Lemma scanRead_readBp (o : Z) (st : ScanState) (rec : bam1_t) :
  readBp (scanRead o st rec) = extractRead (readBp st) rec.
Proof.
  unfold scanRead, extractRead. destruct (scanFilter rec); [| reflexivity].
  unfold pairedEnd. destruct (pairClass _ _ _) as [svt |]; [| reflexivity].
  destruct (_ && _); [reflexivity |].
  rewrite mateReconcile_readBp. reflexivity.
Qed.

Lemma scanSampleReads_readBp (file_c : nat) (l : LibraryInfo.t)
    (sink : gmap Z (list BamAlignRecord.t)) :
  readBp (scanSampleReads file_c l sink) = extractSample file_c.
Proof.
  unfold scanSampleReads, extractSample.
  apply (fold_left_sim (fun st bp => readBp st = bp)); [| reflexivity].
  intros st bp refIndex H. unfold scanChr, extractChr.
  destruct (bool_decide _); [exact H |].
  assert (Hregions :
            readBp (fold_left (scanRegion (Z.max (LibraryInfo.maxISizeCutoff l)
                                                 (LibraryInfo.rs l)) file_c refIndex)
                              (validRegions refIndex) (set_mateMap ∅ st))
            = fold_left (extractRegion file_c refIndex) (validRegions refIndex) bp).
  { apply (fold_left_sim (fun st bp => readBp st = bp)); [| exact H].
    intros st' bp' vR H'. unfold scanRegion, extractRegion.
    apply (fold_left_sim (fun st bp => readBp st = bp)); [| exact H'].
    intros st'' bp'' rec H''. rewrite scanRead_readBp, H''. reflexivity. }
  destruct (negb (hts_idx_mapped file_c refIndex =? 0)); [exact Hregions |].
  destruct (cram_suffix _); [exact Hregions | exact H].
Qed.

Lemma scanSamples_SplitPools (l : list nat) (p : Pools) :
  (forall x, In x l -> (x < length (sampleLib p))%nat) ->
  srBR (fold_left scanSample l p)
  = fold_left (fun br file_c => collectSplitReads (extractSample file_c) br)
              l (srBR p).
Proof.
  revert p. induction l as [| x l IH]; intros p Hlt; [reflexivity |].
  cbn [fold_left].
  destruct (lookup_lt_is_Some_2 (sampleLib p) x (Hlt x (or_introl eq_refl)))
    as [l0 Hl0].
  assert (Hstep : scanSample p x
                  = mkPools (collectSplitReads (extractSample x) (srBR p))
                            (bamRecord (scanSampleReads x l0 (peBR p)))
                            (<[x := lib (scanSampleReads x l0 (peBR p))]>
                               (sampleLib p))).
  { unfold scanSample. rewrite Hl0. cbv zeta.
    rewrite scanSampleReads_readBp. reflexivity. }
  rewrite Hstep, IH; [reflexivity |].
  intros y Hy. cbn [sampleLib]. rewrite length_insert.
  apply Hlt. right. exact Hy.
Qed.

(** X23: split reads do not wait for pairs.  Given one library per input
    file, the split-read records of the sample loop are the selectors
    applied, file by file, to the junctions of every filtered-in read:
    library statistics and the pair logic have no part in them. *)
Theorem split_read_records_ignore_pairs (libs : list LibraryInfo.t) :
  (length (Config.files c) <= length libs)%nat ->
  srBR (scanSamples libs) = splitReadsOnly.
Proof.
  intros Hlen. unfold scanSamples, splitReadsOnly.
  rewrite scanSamples_SplitPools; [reflexivity |].
  intros x Hx. cbn [sampleLib]. apply in_seq in Hx. lia.
Qed.

(** *** A run on single-end data *)

Lemma scanSamples_single_end (libs : list LibraryInfo.t) :
  Forall (fun l => LibraryInfo.median l = 0) libs ->
  SingleEndPools libs (scanSamples libs).
Proof.
  intros Hm. unfold scanSamples. apply fold_left_inv; [| split; reflexivity].
  intros p file_c _ [Hpe Hlib]. unfold scanSample.
  destruct (sampleLib p !! file_c) as [l |] eqn:El; [| split; assumption].
  assert (Hl : LibraryInfo.median l = 0).
  { rewrite Hlib in El. rewrite Forall_forall in Hm. apply Hm.
    apply (list_elem_of_lookup_2 _ file_c). exact El. }
  destruct (scanSampleReads_single_end file_c l (peBR p) Hl) as (_ & Hl' & Hs).
  cbv zeta. split; cbn [peBR sampleLib].
  - rewrite Hs. exact Hpe.
  - rewrite Hl', list_insert_id by exact El. exact Hlib.
Qed.

Lemma clusterPE_nothing (varisize : Z) (l : list nat)
    (svs : list StructuralVariantRecord.t) :
  fold_left (clusterPEStep varisize) l (∅, svs) = (∅, svs).
Proof.
  induction l as [| x l IH]; [reflexivity |].
  cbn [fold_left]. unfold clusterPEStep at 2. cbn [fst snd].
  rewrite lookup_total_empty. exact IH.
Qed.

(** X24: a run on single-end data.  When every library has median 0 (one
    library per input file), [scanPEandSR] calls no paired-end clustering:
    it returns the SV vector and the library records as the caller passed
    them. *)
Theorem single_end_run_adds_no_pe_sv (svs srSVs : list StructuralVariantRecord.t)
    (srStore : list (gmap (Z * Z) Z)) (libs : list LibraryInfo.t)
    (res : ScanResult) :
  (length (Config.files c) <= length libs)%nat ->
  Forall (fun l => LibraryInfo.median l = 0) libs ->
  scanPEandSR svs srSVs srStore libs = Some res ->
  res_svs res = svs /\ res_sampleLib res = libs.
Proof.
  intros _ Hm. destruct (scanSamples_single_end libs Hm) as [Hpe Hlib].
  unfold scanPEandSR, scanAndCluster. cbv zeta.
  destruct (fold_left clusterSRStep _ _) as [br srSVs'].
  rewrite Hpe, clusterPE_nothing.
  cbn [cl_srBR cl_svs cl_srSVs cl_sampleLib].
  destruct (trackSplitReads br srStore); [| discriminate].
  intros [= <-]. cbn. auto.
Qed.

(** *** A single-end sample still yields split reads *)

Lemma insertAll_app (rec : bam1_t) (js1 js2 : list JunctionCall) (bp : TReadBp) :
  insertAll rec (js1 ++ js2) bp = insertAll rec js2 (insertAll rec js1 bp).
Proof. unfold insertAll. apply fold_left_app. Qed.

(** One iteration of the CIGAR loop hands [_insertJunction] the junctions
    of the operation, in order, and nothing else. *)
Lemma cigarStep_junctions (seed : Z) (rec : bam1_t) (rp sp : Z) (bp : TReadBp)
    (cg : Z) :
  snd (cigarStep seed rec (rp, sp, bp) cg)
  = insertAll rec (opJunctions seed rp sp cg) bp.
Proof.
  unfold cigarStep, opJunctions, insertAll. cbv zeta.
  unfold BAM_CMATCH, BAM_CEQUAL, BAM_CDIFF, BAM_CDEL, BAM_CINS, BAM_CSOFT_CLIP,
    BAM_CHARD_CLIP, BAM_CREF_SKIP.
  cigar_op_case 0.
  { destruct (Z.iter _ matchStep _). reflexivity. }
  cigar_op_case 7.
  { destruct (Z.iter _ matchStep _). reflexivity. }
  cigar_op_case 8.
  { destruct (Z.iter _ matchStep _). reflexivity. }
  cigar_op_case 2.
  { destruct (_ >? _); reflexivity. }
  cigar_op_case 1.
  { reflexivity. }
  cigar_op_case 4.
  { destruct (Z.eqb_spec sp 0) as [-> | _]; destruct (_ >? _); reflexivity. }
  cigar_op_case 5.
  { destruct (Z.eqb_spec sp 0) as [-> | _]; destruct (_ >? _); reflexivity. }
  cigar_op_case 3.
  { reflexivity. }
  reflexivity.
Qed.

Lemma fold_cigarStep_junctions (seed : Z) (rec : bam1_t) (l : list Z) :
  forall (rp sp : Z) (bp : TReadBp),
    Forall (fun cg => 0 <= cg) l ->
    snd (fold_left (cigarStep seed rec) l (u32 rp, u32 sp, bp))
    = insertAll rec (specJunctions seed (u32 rp) (u32 sp) l) bp.
Proof.
  induction l as [| cg l IH]; intros rp sp bp H; [reflexivity |].
  inversion H as [| ? ? Hcg Hl]; subst. cbn [fold_left specJunctions].
  pose proof (cigarStep_pointers seed rec rp sp bp cg Hcg) as E.
  pose proof (cigarStep_junctions seed rec (u32 rp) (u32 sp) bp cg) as J.
  destruct (cigarStep seed rec (u32 rp, u32 sp, bp) cg) as [[rp' sp'] bp'].
  cbn [fst snd] in E, J. inversion E; subst rp' sp'. subst bp'.
  rewrite (IH _ _ _ Hl), insertAll_app, !u32_add_l. reflexivity.
Qed.

(** The CIGAR loop of a record inserts the junctions the specification
    lists for it, in order. *)
Lemma parseCigar_spec (seed : Z) (rec : bam1_t) (bp : TReadBp) :
  Forall (fun cg => 0 <= cg) (cigar rec) ->
  parseCigar seed rec bp
  = insertAll rec (specJunctions seed (u32 (pos rec)) 0 (cigar rec)) bp.
Proof.
  intros H.
  exact (fold_cigarStep_junctions seed rec (cigar rec) (pos rec) 0 bp H).
Qed.

Lemma extractRead_spec (bp : TReadBp) (rec : bam1_t) :
  Forall (fun cg => 0 <= cg) (cigar rec) ->
  extractRead bp rec = readJunctions bp rec.
Proof.
  intros H. unfold extractRead, readJunctions.
  destruct (scanFilter rec); [apply parseCigar_spec; exact H | reflexivity].
Qed.

Lemma fold_left_ext_in {A B : Type} (f g : A -> B -> A) (l : list B) :
  (forall a x, In x l -> f a x = g a x) ->
  forall a, fold_left f l a = fold_left g l a.
Proof.
  induction l as [| x l IH]; intros H a; [reflexivity |].
  cbn [fold_left]. rewrite (H a x (or_introl eq_refl)).
  apply IH. intros a' y Hy. apply H. right. exact Hy.
Qed.

Lemma fold_left_flat_map {A B C : Type} (f : A -> C -> A) (g : B -> list C)
    (l : list B) :
  forall a, fold_left f (flat_map g l) a
            = fold_left (fun a x => fold_left f (g x) a) l a.
Proof.
  induction l as [| x l IH]; intros a; [reflexivity |].
  cbn [flat_map fold_left]. rewrite fold_left_app. apply IH.
Qed.

Lemma extractChr_reads (file_c : nat) (bp : TReadBp) (refIndex : Z) :
  extractChr file_c bp refIndex
  = fold_left extractRead (chrReads file_c refIndex) bp.
Proof.
  unfold extractChr, chrReads.
  destruct (bool_decide _); [reflexivity |].
  destruct (negb _); cbn [orb]; [apply eq_sym, fold_left_flat_map |].
  destruct (cram_suffix _); [apply eq_sym, fold_left_flat_map | reflexivity].
Qed.

Lemma extractSample_reads (file_c : nat) :
  extractSample file_c = fold_left extractRead (sampleReads file_c) readBp_empty.
Proof.
  unfold extractSample, sampleReads. rewrite fold_left_flat_map.
  apply fold_left_ext_in. intros bp refIndex _. apply extractChr_reads.
Qed.

Lemma extractSample_spec (file_c : nat) :
  (forall r, In r (sampleReads file_c) -> Forall (fun cg => 0 <= cg) (cigar r)) ->
  extractSample file_c = sampleJunctions file_c.
Proof.
  intros H. rewrite extractSample_reads. unfold sampleJunctions.
  apply fold_left_ext_in. intros bp r Hr. apply extractRead_spec, H, Hr.
Qed.

Lemma scanRead_single_end_spec (o : Z) (st : ScanState) (rec : bam1_t) :
  LibraryInfo.median (lib st) = 0 ->
  Forall (fun cg => 0 <= cg) (cigar rec) ->
  scanRead o st rec = set_readBp (readJunctions (readBp st) rec) st.
Proof.
  intros Hm Hcg. unfold scanRead, readJunctions.
  destruct (scanFilter rec); [| destruct st; reflexivity].
  unfold pairedEnd. rewrite pairClass_single_end by exact Hm.
  rewrite parseCigar_spec by exact Hcg. reflexivity.
Qed.

(** C9: for a sample whose library median is 0 (CIGAR words unsigned, as in
    a BAM record), the pair classifier rejects every record, and the worker
    adds no record to the pair-evidence pool and leaves the library
    statistics as they were; junction extraction still runs on every
    record: one loop iteration inserts, through [_insertJunction], exactly
    the junctions the specification lists for a record that passes the input
    filters, and changes nothing else; and the split-read records the sample
    contributes are the five selectors applied, in the order of lines
    383-387, to the sorted junctions of all its streamed records. *)
Theorem single_end_library_only_split_reads (p : Pools) (file_c : nat)
    (l : LibraryInfo.t) :
  sampleLib p !! file_c = Some l ->
  LibraryInfo.median l = 0 ->
  (forall r, In r (sampleReads file_c) -> Forall (fun cg => 0 <= cg) (cigar r)) ->
  (forall o rec st, lib st = l -> pairClass o rec st = None)
  /\ peBR (scanSample p file_c) = peBR p
  /\ sampleLib (scanSample p file_c) = sampleLib p
  /\ (forall o st rec,
        lib st = l -> Forall (fun cg => 0 <= cg) (cigar rec) ->
        scanRead o st rec = set_readBp (readJunctions (readBp st) rec) st)
  /\ srBR (scanSample p file_c)
     = let bp := sortJunctions (sampleJunctions file_c) in
       selectTranslocations c bp
         (selectInsertions c bp
           (selectInversions c bp
             (selectDuplications c bp
               (selectDeletions c bp (srBR p))))).
Proof.
  intros Hl Hm Hcg. split.
  { intros o rec st <-. apply pairClass_single_end. exact Hm. }
  destruct (scanSampleReads_single_end file_c l (peBR p) Hm) as (Hbp & Hlib & Hs).
  assert (Hstep : scanSample p file_c
                  = mkPools (collectSplitReads (extractSample file_c) (srBR p))
                            (peBR p) (sampleLib p)).
  { unfold scanSample. rewrite Hl. cbv zeta. rewrite Hbp, Hlib, Hs.
    rewrite list_insert_id by exact Hl. reflexivity. }
  rewrite Hstep. cbn [peBR sampleLib srBR].
  split; [reflexivity | split; [reflexivity | split]].
  - intros o st rec <- Hrec. apply scanRead_single_end_spec; assumption.
  - rewrite (extractSample_spec file_c Hcg). reflexivity.
Qed.

End ShortPE.

(** ** The examples: the model run in the small world of [Demo] *)

Abbreviation demo_cigarStep := (cigarStep traceJunction Demo.config).
Abbreviation demo_parseCigar := (parseCigar traceJunction Demo.config).
Abbreviation demo_scanSamples :=
  (scanSamples [] traceJunction Demo.sortJunctions Demo.selectDeletions
     Demo.selectNone Demo.selectNone Demo.selectNone Demo.selectNone
     Demo.hash_string Demo.hash_pair Demo.hash_pair_mate Demo.alignmentLength
     Demo.translocationRec Demo.translocation Demo.isizeMappingPos
     Demo.firstPairObs Demo.DELLY_SVT_TRANS Demo.n_targets Demo.validRegions
     Demo.hts_idx_mapped Demo.sam_itr Demo.config).
Abbreviation demo_scanSample :=
  (scanSample [] traceJunction Demo.sortJunctions Demo.selectDeletions
     Demo.selectNone Demo.selectNone Demo.selectNone Demo.selectNone
     Demo.hash_string Demo.hash_pair Demo.hash_pair_mate Demo.alignmentLength
     Demo.translocationRec Demo.translocation Demo.isizeMappingPos
     Demo.firstPairObs Demo.n_targets Demo.validRegions
     Demo.hts_idx_mapped Demo.sam_itr Demo.config).
Abbreviation demo_scanAndCluster :=
  (scanAndCluster [] traceJunction Demo.sortJunctions Demo.selectDeletions
     Demo.selectNone Demo.selectNone Demo.selectNone Demo.selectNone
     Demo.hash_string Demo.hash_pair Demo.hash_pair_mate Demo.alignmentLength
     Demo.translocationRec Demo.translocation Demo.isizeMappingPos
     Demo.firstPairObs Demo.getVariability Demo.DELLY_SVT_TRANS
     Demo.sortSRBamRecord Demo.sortBamRecords Demo.clusterSR Demo.clusterPE
     Demo.n_targets Demo.validRegions Demo.hts_idx_mapped Demo.sam_itr
     Demo.config).
Abbreviation demo_scanPEandSR :=
  (scanPEandSR [] traceJunction Demo.sortJunctions Demo.selectDeletions
     Demo.selectNone Demo.selectNone Demo.selectNone Demo.selectNone
     Demo.hash_string Demo.hash_pair Demo.hash_pair_mate Demo.alignmentLength
     Demo.translocationRec Demo.translocation Demo.isizeMappingPos
     Demo.firstPairObs Demo.getVariability Demo.DELLY_SVT_TRANS
     Demo.sortSRBamRecord Demo.sortBamRecords Demo.clusterSR Demo.clusterPE
     Demo.n_targets Demo.validRegions Demo.hts_idx_mapped Demo.sam_itr
     Demo.config).
Abbreviation demo_pairClass :=
  (pairClass (TReadBp := list JunctionCall) Demo.translocationRec
     Demo.isizeMappingPos Demo.validRegions Demo.config).
Abbreviation demo_pairedEnd :=
  (pairedEnd (TReadBp := list JunctionCall) Demo.hash_pair Demo.hash_pair_mate
     Demo.alignmentLength Demo.translocationRec Demo.translocation
     Demo.isizeMappingPos Demo.firstPairObs Demo.validRegions Demo.config).
Abbreviation demo_mateReconcile :=
  (mateReconcile (TReadBp := list JunctionCall) Demo.hash_pair
     Demo.hash_pair_mate Demo.alignmentLength Demo.translocation
     Demo.firstPairObs).
Abbreviation demo_gatherRead :=
  (gatherRead Demo.hash_string Demo.translocationRec Demo.adjustOrientation
     Demo.config).
Abbreviation demo_completeOne :=
  (completeOne Demo.translocation Demo.msa Demo.alignConsensus Demo.config).
Abbreviation demo_AsmReach :=
  (AsmReach Demo.hash_string Demo.translocationRec Demo.translocation
     Demo.adjustOrientation Demo.msa Demo.alignConsensus Demo.config).
Abbreviation demo_assembleSplitReads :=
  (assembleSplitReads Demo.hash_string Demo.translocationRec Demo.translocation
     Demo.adjustOrientation Demo.msa Demo.alignConsensus Demo.n_targets
     Demo.validRegions Demo.faidx_fetch_seq Demo.sam_itr Demo.config).

(** *** Junction thresholds ([minRefSep] = [minClip] = 25) *)

(** C2, witness: a 26-base deletion (cigar word 418) inserts two junctions,
    a 25-base deletion (cigar word 402) none. *)
Lemma deletion_junction_threshold_witness :
  demo_cigarStep 6 (Demo.split_right "split1") (130, 30, []) 418
    = (156, 30, [mkCall 6 130 30 false; mkCall 6 156 30 true])
  /\ demo_cigarStep 6 (Demo.split_right "split1") (130, 30, []) 402
     = (155, 30, []).
Proof.
  split.
  - exact (proj1 (deletion_junction_threshold traceJunction Demo.config 6
                    (Demo.split_right "split1") 130 30 [] 418 eq_refl) eq_refl).
  - refine (proj2 (deletion_junction_threshold traceJunction Demo.config 6
                     (Demo.split_right "split1") 130 30 [] 402 eq_refl) _).
    vm_compute. discriminate.
Defined.

(** C2, counterexample: a read 30M25D30M, whose deletion has length exactly
    [minRefSep], leaves the junction list empty: no junction is emitted, where
    the claim asks for two. *)
Lemma deletion_of_exactly_minRefSep_counterexample :
  let rec := mkRec 0 0 100 30 (-1) (-1) 0 60 "del25" [480; 402; 480]
                   (replicate 30 18) in
  bam_cigar_op 402 = BAM_CDEL
  /\ bam_cigar_oplen 402 = Config.minRefSep Demo.config
  /\ demo_parseCigar 5 rec [] = []
  /\ length (demo_parseCigar 5 rec []) <> 2%nat.
Proof. vm_compute. repeat split. discriminate. Qed.

(** C3, witness: a 26-base soft clip (cigar word 420) inserts one junction,
    leading (sequence pointer 0: offset 26, scleft) or trailing (sequence
    pointer 40: offset 40, not scleft); a 25-base clip (word 404) none. *)
Lemma clip_junction_threshold_witness :
  demo_cigarStep 6 (Demo.split_right "split1") (400, 0, []) 420
    = (400, 26, [mkCall 6 400 26 true])
  /\ demo_cigarStep 6 (Demo.split_left "split1") (340, 40, []) 420
     = (340, 66, [mkCall 6 340 40 false])
  /\ demo_cigarStep 6 (Demo.split_right "split1") (400, 0, []) 404
     = (400, 25, []).
Proof.
  assert (Hw : forall cg, cg = 420 \/ cg = 404 -> 0 <= cg < 2 ^ 32)
    by (intros cg [-> | ->]; lia).
  split; [| split].
  - exact (proj1 (clip_junction_threshold traceJunction Demo.config 6
                    (Demo.split_right "split1") 400 0 [] 420
                    (Hw 420 (or_introl eq_refl)) (or_introl eq_refl)) eq_refl).
  - exact (proj1 (clip_junction_threshold traceJunction Demo.config 6
                    (Demo.split_left "split1") 340 40 [] 420
                    (Hw 420 (or_introl eq_refl)) (or_introl eq_refl)) eq_refl).
  - refine (proj2 (clip_junction_threshold traceJunction Demo.config 6
                     (Demo.split_right "split1") 400 0 [] 404
                     (Hw 404 (or_intror eq_refl)) (or_introl eq_refl)) _).
    vm_compute. discriminate.
Defined.

(** C3, counterexample: a read 25S45M, whose leading soft clip has length
    exactly [minClip], leaves the junction list empty: no junction is emitted,
    where the claim asks for one. *)
Lemma clip_of_exactly_minClip_counterexample :
  let rec := mkRec 0 0 400 30 (-1) (-1) 0 70 "clip25" [404; 720]
                   (replicate 35 18) in
  bam_cigar_op 404 = BAM_CSOFT_CLIP
  /\ bam_cigar_oplen 404 = Config.minClip Demo.config
  /\ demo_parseCigar 6 rec [] = []
  /\ length (demo_parseCigar 6 rec []) <> 1%nat.
Proof. vm_compute. repeat split. discriminate. Qed.

(** *** Paired-end evidence *)

(** The evidence record the pair "pairA" yields. *)
Abbreviation demo_evidence :=
  (BamAlignRecord.mk Demo.pairA_second 20 50 50 300 20 360).

(** C4, witness: the record of "pairA" is in the pool, so the theorem names
    its two mates. *)
Lemma pair_quality_is_min_of_mates_witness :
  In demo_evidence (peBR (demo_scanSamples [Demo.library]) !!! 2)
  /\ exists file_c r1,
       Seen Demo.sam_itr file_c r1 /\
       Seen Demo.sam_itr file_c (BamAlignRecord.rec demo_evidence) /\
       Demo.hash_pair r1 = Demo.hash_pair_mate (BamAlignRecord.rec demo_evidence) /\
       BamAlignRecord.pairQuality demo_evidence
         = Z.min (qual r1) (qual (BamAlignRecord.rec demo_evidence)) /\
       Config.minMapQual Demo.config <= qual r1 /\
       Config.minMapQual Demo.config <= qual (BamAlignRecord.rec demo_evidence).
Proof.
  assert (H : In demo_evidence (peBR (demo_scanSamples [Demo.library]) !!! 2))
    by (vm_compute; left; reflexivity).
  split; [exact H |].
  exact (pair_quality_is_min_of_mates [] traceJunction Demo.sortJunctions
           Demo.selectDeletions Demo.selectNone Demo.selectNone Demo.selectNone
           Demo.selectNone Demo.hash_string Demo.hash_pair Demo.hash_pair_mate
           Demo.alignmentLength Demo.translocationRec Demo.translocation
           Demo.isizeMappingPos Demo.firstPairObs Demo.DELLY_SVT_TRANS
           Demo.n_targets Demo.validRegions Demo.hts_idx_mapped Demo.sam_itr
           Demo.config [Demo.library] 2 demo_evidence H).
Defined.

(** C4, counterexample: both mates of "pairA" have mapping quality 20, which
    is [minMapQual] itself; the pair is emitted with pair quality 20, so the
    mates' qualities did not exceed the threshold. *)
Lemma evidence_at_minMapQual_counterexample :
  peBR (demo_scanSamples [Demo.library]) !!! 2 = [demo_evidence]
  /\ qual Demo.pairA_first = Config.minMapQual Demo.config
  /\ qual Demo.pairA_second = Config.minMapQual Demo.config
  /\ BamAlignRecord.pairQuality demo_evidence = 20
  /\ ~ (Config.minMapQual Demo.config < qual Demo.pairA_first)
  /\ ~ (Config.minMapQual Demo.config < qual Demo.pairA_second).
Proof. vm_compute. repeat split; discriminate. Qed.

(** A worker state in which the first mate of "pairA" sits in the
    intra-chromosomal map. *)
Abbreviation demo_state_before_second :=
  (mkScan ([] : list JunctionCall)
          {[Demo.hash_pair Demo.pairA_first := (20, 50)]} ∅ 100 {[5]} ∅
          Demo.library).

(** C8, witness: with cutoff 550, a deletion candidate of insert size 550 goes
    on to mate reconciliation; one of insert size 500 (classified with a
    smaller overall maximum) is rejected. *)
Lemma deletion_pairs_isize_cutoff_witness :
  demo_pairedEnd 550 5 Demo.pairA_second demo_state_before_second
    = demo_mateReconcile 2 5 Demo.pairA_second demo_state_before_second
  /\ let rec := mkRec 145 0 600 20 0 150 (-500) 50 "pairB" [800] (replicate 25 18) in
     demo_pairedEnd 400 5 rec demo_state_before_second = demo_state_before_second.
Proof.
  split.
  - refine (proj2 (deletion_pairs_isize_cutoff Demo.hash_pair Demo.hash_pair_mate
                     Demo.alignmentLength Demo.translocationRec Demo.translocation
                     Demo.isizeMappingPos Demo.firstPairObs Demo.validRegions
                     Demo.config 550 5 Demo.pairA_second demo_state_before_second
                     eq_refl) _).
    vm_compute. discriminate.
  - exact (proj1 (deletion_pairs_isize_cutoff Demo.hash_pair Demo.hash_pair_mate
                    Demo.alignmentLength Demo.translocationRec Demo.translocation
                    Demo.isizeMappingPos Demo.firstPairObs Demo.validRegions
                    Demo.config 400 5
                    (mkRec 145 0 600 20 0 150 (-500) 50 "pairB" [800]
                           (replicate 25 18))
                    demo_state_before_second eq_refl) eq_refl).
Defined.

(** C8, counterexample: the second mate of "pairA" is a deletion candidate
    whose absolute insert size equals [maxISizeCutoff] (550), so it does not
    exceed the cutoff; line 326 lets it through and the pair becomes
    paired-end evidence, where the claim has it rejected. *)
Lemma deletion_pair_at_cutoff_counterexample :
  demo_pairClass 550 Demo.pairA_second demo_state_before_second = Some 2
  /\ Z.abs (isize Demo.pairA_second) = LibraryInfo.maxISizeCutoff Demo.library
  /\ ~ (LibraryInfo.maxISizeCutoff Demo.library < Z.abs (isize Demo.pairA_second))
  /\ bamRecord (demo_pairedEnd 550 5 Demo.pairA_second demo_state_before_second)
       !!! 2 = [demo_evidence]
  /\ peBR (demo_scanSamples [Demo.library]) !!! 2 = [demo_evidence].
Proof. vm_compute. repeat split; discriminate. Qed.

(** *** Single-end library *)

Abbreviation demo_empty_pools :=
  (mkPools (replicate 10 []) ∅ [Demo.single_end_library]).

(** C9, witness: the demo sample sequenced single-end (median 0).  The four
    parts of its two split reads raise four junctions, from which the
    deletion selector derives two split-read records; the pair pool stays
    empty although the sample holds the discordant pair "pairA". *)
Lemma single_end_library_only_split_reads_witness :
  srBR (demo_scanSample demo_empty_pools 0%nat)
  = <[2%nat := [SRBamRecord.mk 0 340 0 400 6 2 (-1);
                SRBamRecord.mk 0 340 0 400 7 2 (-1)]]> (replicate 10 [])
  /\ sampleJunctions [] traceJunction Demo.hash_string Demo.n_targets
       Demo.validRegions Demo.hts_idx_mapped Demo.sam_itr Demo.config 0%nat
     = [mkCall 6 340 40 false; mkCall 7 340 40 false;
        mkCall 6 400 40 true; mkCall 7 400 40 true]
  /\ peBR (demo_scanSample demo_empty_pools 0%nat) = ∅
  /\ sampleLib (demo_scanSample demo_empty_pools 0%nat)
     = [Demo.single_end_library]
  /\ (forall o rec (st : ScanState (TReadBp := list JunctionCall)),
        lib st = Demo.single_end_library -> demo_pairClass o rec st = None)
  /\ scanRead traceJunction Demo.hash_string Demo.hash_pair Demo.hash_pair_mate
       Demo.alignmentLength Demo.translocationRec Demo.translocation
       Demo.isizeMappingPos Demo.firstPairObs Demo.validRegions Demo.config 0
       (mkScan [] ∅ ∅ 0 ∅ ∅ Demo.single_end_library) (Demo.split_right "split1")
     = mkScan [mkCall 6 400 40 true] ∅ ∅ 0 ∅ ∅ Demo.single_end_library.
Proof.
  assert (Hcg : forall r,
             In r (sampleReads Demo.n_targets Demo.validRegions
                     Demo.hts_idx_mapped Demo.sam_itr Demo.config 0%nat) ->
             Forall (fun cg => 0 <= cg) (cigar r)).
  { intros r Hin. vm_compute in Hin.
    repeat (destruct Hin as [<- | Hin];
            [repeat constructor; vm_compute; discriminate |]).
    destruct Hin. }
  destruct (single_end_library_only_split_reads [] traceJunction
              Demo.sortJunctions Demo.selectDeletions Demo.selectNone
              Demo.selectNone Demo.selectNone Demo.selectNone Demo.hash_string
              Demo.hash_pair Demo.hash_pair_mate Demo.alignmentLength
              Demo.translocationRec Demo.translocation Demo.isizeMappingPos
              Demo.firstPairObs Demo.n_targets Demo.validRegions
              Demo.hts_idx_mapped Demo.sam_itr Demo.config demo_empty_pools
              0%nat Demo.single_end_library eq_refl eq_refl Hcg)
    as (Hclass & Hpe & Hlib & Hread & Hsr).
  split; [rewrite Hsr; vm_compute; reflexivity |].
  split; [vm_compute; reflexivity |].
  split; [rewrite Hpe; reflexivity |].
  split; [rewrite Hlib; reflexivity |].
  split; [exact Hclass |].
  rewrite Hread; [vm_compute; reflexivity | reflexivity |].
  repeat constructor; vm_compute; discriminate.
Defined.

(** *** The split-read back-index *)

Abbreviation demo_rs :=
  (concat (cl_srBR (demo_scanAndCluster [] [] [Demo.library]))).

(** C1, witness: the demo run; both split-read records are assigned to SV 0
    and name reference 0 of a two-reference index. *)
Lemma srStore_holds_both_endpoints_witness :
  exists res,
    demo_scanPEandSR [] [] [∅; ∅] [Demo.library] = Some res /\
    (forall e, entry (res_srStore res) e = lastWrite demo_rs e (entry [∅; ∅] e)) /\
    (forall r, In r demo_rs -> assigned r = true ->
       (exists r1 r2,
          In r1 demo_rs /\ assigned r1 = true /\ touches r1 (endpoint1 r) = true /\
          In r2 demo_rs /\ assigned r2 = true /\ touches r2 (endpoint2 r) = true /\
          entry (res_srStore res) (endpoint1 r) = Some (SRBamRecord.svid r1) /\
          entry (res_srStore res) (endpoint2 r) = Some (SRBamRecord.svid r2)) /\
       ((forall r', In r' demo_rs -> assigned r' = true ->
           touches r' (endpoint1 r) = true \/ touches r' (endpoint2 r) = true ->
           SRBamRecord.svid r' = SRBamRecord.svid r) ->
        entry (res_srStore res) (endpoint1 r) = Some (SRBamRecord.svid r) /\
        entry (res_srStore res) (endpoint2 r) = Some (SRBamRecord.svid r))) /\
    (forall s r, assigned r = false -> trackStep s r = Some s).
Proof.
  refine (srStore_holds_both_endpoints [] traceJunction Demo.sortJunctions
            Demo.selectDeletions Demo.selectNone Demo.selectNone Demo.selectNone
            Demo.selectNone Demo.hash_string Demo.hash_pair Demo.hash_pair_mate
            Demo.alignmentLength Demo.translocationRec Demo.translocation
            Demo.isizeMappingPos Demo.firstPairObs Demo.getVariability
            Demo.DELLY_SVT_TRANS Demo.sortSRBamRecord Demo.sortBamRecords
            Demo.clusterSR Demo.clusterPE Demo.n_targets Demo.validRegions
            Demo.hts_idx_mapped Demo.sam_itr Demo.config [] [] [∅; ∅]
            [Demo.library] _).
  intros r Hin. vm_compute in Hin.
  destruct Hin as [<- | [<- | []]]; intros _; vm_compute; repeat split; discriminate.
Defined.

(** C1, counterexample: two assigned records of one read (id 7) share the
    left breakpoint (reference 0, position 150): a deletion (svt 2) absorbed
    by SV 0 and a duplication (svt 3) absorbed by SV 1.  After the tracking
    loop both endpoint keys of the deletion record are present, but they hold
    different svids: the shared key was overwritten by the later record. *)
Lemma srStore_endpoints_differ_counterexample :
  let a := SRBamRecord.mk 0 150 0 250 7 2 0 in
  let b := SRBamRecord.mk 0 150 0 450 7 3 1 in
  exists store',
    trackSplitReads [[]; []; [a]; [b]] [∅; ∅] = Some store'
    /\ assigned a = true
    /\ entry store' (endpoint1 a) = Some 1
    /\ entry store' (endpoint2 a) = Some 0
    /\ entry store' (endpoint1 a) <> entry store' (endpoint2 a).
Proof.
  eexists. split; [vm_compute; reflexivity |].
  vm_compute. repeat split. discriminate.
Qed.

(** *** Split-read assembly *)

(** The SV and the back-index the demo scan produces, and the sequence the
    primary part of a split read decodes to. *)
Abbreviation demo_sv :=
  (StructuralVariantRecord.mk 0 2 0 340 0 400 0 2 true "" 0 ((0, 0), (0, 0))).
Abbreviation demo_store :=
  (list_to_map [((340, 6), 0); ((400, 6), 0); ((340, 7), 0); ((400, 7), 0)]
     : gmap (Z * Z) Z).
Abbreviation demo_hits := ({[340; 400]} : gset Z).
Abbreviation demo_seq := (decodeSequence (Demo.split_right "split1")).

(** After the first and after the second split read of reference 0. *)
Abbreviation demo_one_gathered := (mkAsm [demo_sv] [[demo_seq]] [false] []).
Abbreviation demo_two_gathered :=
  (mkAsm [demo_sv] [[demo_seq; demo_seq]] [false] []).

Lemma demo_one_gathered_reach : demo_AsmReach demo_one_gathered.
Proof.
  apply (reach_gather _ _ _ _ _ _ _ (chrInit [demo_sv] []) _ 0 demo_store
           demo_hits (Demo.split_right "split1")).
  - apply reach_init.
  - vm_compute. reflexivity.
Defined.


(** C5, witness: the state after the first split read. *)
Lemma seqStore_capped_at_maxReadPerSV_witness :
  maxReadPerSV = 20
  /\ (forall i seqs, seqStore demo_one_gathered !! i = Some seqs ->
        Z.of_nat (length seqs) <= maxReadPerSV)
  /\ (forall refIndex store hits rec st',
        demo_gatherRead refIndex store hits demo_one_gathered rec = Some st' ->
        seqStore st' = seqStore demo_one_gathered
        \/ exists i sequence,
             svDone demo_one_gathered !! i = Some false /\
             Z.of_nat (length (seqStore demo_one_gathered !!! i)) < maxReadPerSV /\
             seqStore st'
             = <[i := (seqStore demo_one_gathered !!! i) ++ [sequence]]>
                 (seqStore demo_one_gathered)).
Proof.
  exact (seqStore_capped_at_maxReadPerSV Demo.hash_string Demo.translocationRec
           Demo.translocation Demo.adjustOrientation Demo.msa Demo.alignConsensus
           Demo.config demo_one_gathered demo_one_gathered_reach).
Defined.

(** C6, witness: two sequences gathered for an SV with srSupport 2; the
    demo aligner fails. *)
Lemma alignment_failure_clears_consensus_witness :
  let st' := demo_completeOne "ACGTACGT" demo_two_gathered 0%nat in
  let sv2 := StructuralVariantRecord.set_consensus demo_seq demo_sv in
  (exists sv',
     svs st' !! 0%nat = Some sv' /\
     StructuralVariantRecord.consensus sv' = ""%string /\
     StructuralVariantRecord.srSupport sv' = 0 /\
     StructuralVariantRecord.id sv' = StructuralVariantRecord.id sv2 /\
     StructuralVariantRecord.svt sv' = StructuralVariantRecord.svt sv2 /\
     StructuralVariantRecord.chr sv' = StructuralVariantRecord.chr sv2 /\
     StructuralVariantRecord.svStart sv' = StructuralVariantRecord.svStart sv2 /\
     StructuralVariantRecord.chr2 sv' = StructuralVariantRecord.chr2 sv2 /\
     StructuralVariantRecord.svEnd sv' = StructuralVariantRecord.svEnd sv2 /\
     StructuralVariantRecord.peSupport sv' = StructuralVariantRecord.peSupport sv2 /\
     StructuralVariantRecord.precise sv' = StructuralVariantRecord.precise sv2 /\
     StructuralVariantRecord.srAlignQuality sv'
       = StructuralVariantRecord.srAlignQuality sv2 /\
     StructuralVariantRecord.ci sv' = StructuralVariantRecord.ci sv2)
  /\ (forall j, j <> 0%nat -> svs st' !! j = svs demo_two_gathered !! j)
  /\ seqStore st' = <[0%nat := []]> (seqStore demo_two_gathered)
  /\ svDone st' = <[0%nat := true]> (svDone demo_two_gathered)
  /\ (forall rest,
        fold_left (demo_completeOne "ACGTACGT") (0%nat :: rest) demo_two_gathered
        = fold_left (demo_completeOne "ACGTACGT") rest st').
Proof.
  refine (alignment_failure_clears_consensus Demo.translocation Demo.msa
            Demo.alignConsensus Demo.config "ACGTACGT" demo_two_gathered 0%nat
            demo_sv (StructuralVariantRecord.set_consensus demo_seq demo_sv)
            eq_refl eq_refl _ eq_refl).
  split; [right; reflexivity | split; [reflexivity |]].
  vm_compute. discriminate.
Defined.


(** *** The scanner beyond the claims *)

Abbreviation demo_scanRead :=
  (scanRead traceJunction Demo.hash_string Demo.hash_pair Demo.hash_pair_mate
     Demo.alignmentLength Demo.translocationRec Demo.translocation
     Demo.isizeMappingPos Demo.firstPairObs Demo.validRegions Demo.config).
Abbreviation demo_scanChr :=
  (scanChr traceJunction Demo.hash_string Demo.hash_pair Demo.hash_pair_mate
     Demo.alignmentLength Demo.translocationRec Demo.translocation
     Demo.isizeMappingPos Demo.firstPairObs Demo.validRegions
     Demo.hts_idx_mapped Demo.sam_itr Demo.config).
Abbreviation demo_scanRegion :=
  (scanRegion traceJunction Demo.hash_string Demo.hash_pair Demo.hash_pair_mate
     Demo.alignmentLength Demo.translocationRec Demo.translocation
     Demo.isizeMappingPos Demo.firstPairObs Demo.validRegions Demo.sam_itr
     Demo.config).
Abbreviation demo_scanSampleReads :=
  (scanSampleReads [] traceJunction Demo.hash_string Demo.hash_pair
     Demo.hash_pair_mate Demo.alignmentLength Demo.translocationRec
     Demo.translocation Demo.isizeMappingPos Demo.firstPairObs Demo.n_targets
     Demo.validRegions Demo.hts_idx_mapped Demo.sam_itr Demo.config).

(** A worker state at the start of a sample. *)
Abbreviation demo_state_start :=
  (mkScan ([] : list JunctionCall) ∅ ∅ 0 ∅ ∅ Demo.library).

(** X1, witness: the read 25S45M of a junction list that holds one call
    already; the clip has length [minClip] exactly. *)
Lemma parseCigar_quiet_witness :
  let rec := mkRec 0 0 400 30 (-1) (-1) 0 70 "clip25" [404; 720]
                   (replicate 35 18) in
  demo_parseCigar 6 rec [mkCall 5 130 30 false] = [mkCall 5 130 30 false].
Proof.
  exact (parseCigar_quiet traceJunction Demo.config 6
           (mkRec 0 0 400 30 (-1) (-1) 0 70 "clip25" [404; 720] (replicate 35 18))
           [mkCall 5 130 30 false] eq_refl).
Defined.

(** X2, witness: 40M30S at position 300 ends at reference 340, sequence 70;
    40M30H ends there too. *)
Lemma parseCigar_pointers_witness :
  fst (fold_left (demo_cigarStep 6 (Demo.split_left "split1"))
                 (cigar (Demo.split_left "split1")) (300, 0, []))
  = (340, 70)
  /\ let rec := mkRec 0 0 300 30 (-1) (-1) 0 40 "hard" [640; 485]
                      (replicate 20 18) in
     fst (fold_left (demo_cigarStep 6 rec) (cigar rec) (300, 0, [])) = (340, 70).
Proof.
  split.
  - refine (parseCigar_pointers traceJunction Demo.config 6
              (Demo.split_left "split1") [] _).
    repeat constructor; vm_compute; discriminate.
  - refine (parseCigar_pointers traceJunction Demo.config 6
              (mkRec 0 0 300 30 (-1) (-1) 0 40 "hard" [640; 485] (replicate 20 18))
              [] _).
    repeat constructor; vm_compute; discriminate.
Defined.

(** X3, witness: the supplementary part of a split read, met while the first
    mate of "pairA" waits in the mate map. *)
Lemma scanRead_junctions_only_witness :
  demo_scanRead 550 demo_state_before_second (Demo.split_left "split1")
  = set_readBp
      (extractRead traceJunction Demo.hash_string Demo.config
         (readBp demo_state_before_second) (Demo.split_left "split1"))
      demo_state_before_second.
Proof.
  exact (scanRead_junctions_only traceJunction Demo.hash_string Demo.hash_pair
           Demo.hash_pair_mate Demo.alignmentLength Demo.translocationRec
           Demo.translocation Demo.isizeMappingPos Demo.firstPairObs
           Demo.validRegions Demo.config 550 demo_state_before_second
           (Demo.split_left "split1") eq_refl).
Defined.

(** X4, witness: the two mates of "pairA", both of quality 20. *)
Lemma first_then_second_mate_emits_witness :
  let st2 := demo_mateReconcile 2 5 Demo.pairA_second
               (demo_mateReconcile 2 5 Demo.pairA_first demo_state_start) in
  bamRecord st2
  = <[2 := (bamRecord demo_state_start !!! 2)
           ++ [mkBamAlignRecord Demo.alignmentLength Demo.pairA_second
                 (Z.min (qual Demo.pairA_first) (qual Demo.pairA_second))
                 (Demo.alignmentLength Demo.pairA_first) (lib demo_state_start)]]>
      (bamRecord demo_state_start)
  /\ lib st2 = LibraryInfo.incr_abnormal_pairs (lib demo_state_start).
Proof.
  refine (first_then_second_mate_emits Demo.hash_pair Demo.hash_pair_mate
            Demo.alignmentLength Demo.translocation Demo.firstPairObs 2 5 2 5
            Demo.pairA_first Demo.pairA_second demo_state_start
            _ _ eq_refl eq_refl _).
  - intros s. reflexivity.
  - intros s. reflexivity.
  - vm_compute. discriminate.
Defined.

(** X5, witness: the same pair with a first mate of mapping quality 0. *)
Lemma zero_quality_first_mate_is_discarded_witness :
  let r1 := mkRec 97 0 100 0 0 600 550 50 "pairA" [800] (replicate 25 18) in
  let st2 := demo_mateReconcile 2 5 Demo.pairA_second
               (demo_mateReconcile 2 5 r1 demo_state_start) in
  bamRecord st2 = bamRecord demo_state_start /\ lib st2 = lib demo_state_start.
Proof.
  refine (zero_quality_first_mate_is_discarded Demo.hash_pair Demo.hash_pair_mate
            Demo.alignmentLength Demo.translocation Demo.firstPairObs 2 5 2 5
            (mkRec 97 0 100 0 0 600 550 50 "pairA" [800] (replicate 25 18))
            Demo.pairA_second demo_state_start _ _ eq_refl eq_refl eq_refl).
  - intros s. reflexivity.
  - intros s. reflexivity.
Defined.

(** X6, witness: the second mate of "pairA" delivered twice. *)
Lemma consumed_entry_emits_no_more_witness :
  let st2 := demo_mateReconcile 2 5 Demo.pairA_second demo_state_before_second in
  let st3 := demo_mateReconcile 2 5 Demo.pairA_second st2 in
  bamRecord st2 <> bamRecord demo_state_before_second
  /\ bamRecord st3 = bamRecord st2 /\ lib st3 = lib st2.
Proof.
  refine (consumed_entry_emits_no_more Demo.hash_pair Demo.hash_pair_mate
            Demo.alignmentLength Demo.translocation Demo.firstPairObs 2 5 2 5
            Demo.pairA_second Demo.pairA_second demo_state_before_second (20, 50)
            _ _ _ _ eq_refl eq_refl).
  - intros s. reflexivity.
  - intros s. reflexivity.
  - vm_compute. reflexivity.
  - vm_compute. discriminate.
Defined.

(** X9, witness: the file "sample.bam"; reference 5 has no valid region and
    is skipped, reference 0 has one and mapped reads and is scanned. *)
Lemma scanChr_skips_reference_witness :
  demo_scanChr 550 0%nat demo_state_before_second 5 = demo_state_before_second
  /\ demo_scanChr 550 0%nat demo_state_before_second 0
     = fold_left (demo_scanRegion 550 0%nat 0) (Demo.validRegions 0)
                 (set_mateMap ∅ demo_state_before_second).
Proof.
  split.
  - refine (proj1 (scanChr_skips_reference traceJunction Demo.hash_string
                     Demo.hash_pair Demo.hash_pair_mate Demo.alignmentLength
                     Demo.translocationRec Demo.translocation Demo.isizeMappingPos
                     Demo.firstPairObs Demo.validRegions Demo.hts_idx_mapped
                     Demo.sam_itr Demo.config 550 0%nat demo_state_before_second 5
                     "sample.bam" eq_refl) _).
    left. reflexivity.
  - refine (proj2 (scanChr_skips_reference traceJunction Demo.hash_string
                     Demo.hash_pair Demo.hash_pair_mate Demo.alignmentLength
                     Demo.translocationRec Demo.translocation Demo.isizeMappingPos
                     Demo.firstPairObs Demo.validRegions Demo.hts_idx_mapped
                     Demo.sam_itr Demo.config 550 0%nat demo_state_before_second 0
                     "sample.bam" eq_refl) _ _).
    + vm_compute. discriminate.
    + left. vm_compute. discriminate.
Defined.

(** X11, witness: the two records of read 7 that share a left breakpoint,
    tracked into an empty index of two references. *)
Lemma trackSplitReads_frame_witness :
  let a := SRBamRecord.mk 0 150 0 250 7 2 0 in
  let b := SRBamRecord.mk 0 150 0 450 7 3 1 in
  exists store',
    trackSplitReads [[]; []; [a]; [b]] [∅; ∅] = Some store'
    /\ length store' = length ([∅; ∅] : list (gmap (Z * Z) Z))
    /\ forall e,
         (entry store' e = entry [∅; ∅] e
          \/ exists r, In r (concat [[]; []; [a]; [b]]) /\ SRBamRecord.svid r <> -1
                       /\ touches r e = true
                       /\ entry store' e = Some (SRBamRecord.svid r))
         /\ ((forall r, In r (concat [[]; []; [a]; [b]]) -> assigned r = true ->
                touches r e = false) ->
             entry store' e = entry [∅; ∅] e).
Proof.
  cbv zeta. eexists. split; [vm_compute; reflexivity |].
  apply (trackSplitReads_frame
           [[]; []; [SRBamRecord.mk 0 150 0 250 7 2 0];
            [SRBamRecord.mk 0 150 0 450 7 3 1]] [∅; ∅]).
  vm_compute. reflexivity.
Defined.

(** A record stream with the discordant pair only. *)
Abbreviation demo_pairs_only :=
  (fun (file_c : nat) (refIndex : Z) (vR : Z * Z) =>
     if (file_c =? 0)%nat && (refIndex =? 0)
     then [Demo.pairA_first; Demo.pairA_second] else []).

(** X12, witness: a sample without split reads; the caller's split-read SVs
    and back-index come back as they were. *)
Lemma no_split_reads_no_sr_output_witness :
  exists res,
    scanPEandSR [] traceJunction Demo.sortJunctions Demo.selectDeletions
      Demo.selectNone Demo.selectNone Demo.selectNone Demo.selectNone
      Demo.hash_string Demo.hash_pair Demo.hash_pair_mate Demo.alignmentLength
      Demo.translocationRec Demo.translocation Demo.isizeMappingPos
      Demo.firstPairObs Demo.getVariability Demo.DELLY_SVT_TRANS
      Demo.sortSRBamRecord Demo.sortBamRecords Demo.clusterSR Demo.clusterPE
      Demo.n_targets Demo.validRegions Demo.hts_idx_mapped demo_pairs_only
      Demo.config [] [demo_sv] [demo_store; ∅] [Demo.library]
    = Some res
    /\ res_srSVs res = [demo_sv] /\ res_srStore res = [demo_store; ∅].
Proof.
  refine (no_split_reads_no_sr_output [] traceJunction Demo.sortJunctions
            Demo.selectDeletions Demo.selectNone Demo.selectNone Demo.selectNone
            Demo.selectNone Demo.hash_string Demo.hash_pair Demo.hash_pair_mate
            Demo.alignmentLength Demo.translocationRec Demo.translocation
            Demo.isizeMappingPos Demo.firstPairObs Demo.getVariability
            Demo.DELLY_SVT_TRANS Demo.sortSRBamRecord Demo.sortBamRecords
            Demo.clusterSR Demo.clusterPE Demo.n_targets Demo.validRegions
            Demo.hts_idx_mapped demo_pairs_only Demo.config [] [demo_sv]
            [demo_store; ∅] [Demo.library] _ _).
  - vm_compute. lia.
  - vm_compute. repeat constructor.
Defined.

(** X15, witness: a read at position 400, a key of the back-index. *)
Lemma hits_is_a_shortcut_witness :
  demo_gatherRead 0 demo_store (set_map fst (dom demo_store))
    (chrInit [demo_sv] []) (Demo.split_right "split1")
  = demo_gatherRead 0 demo_store demo_hits (chrInit [demo_sv] [])
      (Demo.split_right "split1").
Proof.
  refine (hits_is_a_shortcut Demo.hash_string Demo.translocationRec
            Demo.adjustOrientation Demo.config 0 demo_store demo_hits
            (chrInit [demo_sv] []) (Demo.split_right "split1") _).
  apply (bool_decide_unpack _). vm_compute. exact I.
Defined.

(** *** The assembler beyond the claims *)

(** A second SV, on reference 1, that no split read was assigned to. *)
Abbreviation demo_sv_other :=
  (StructuralVariantRecord.mk 1 2 1 100 1 200 0 2 true "" 0 ((0, 0), (0, 0))).

(** The state the demo pass over both SVs ends in: SV 0 assembled (the demo
    aligner fails, so its support is reset), SV 1 as it was. *)
Abbreviation demo_final :=
  (mkAsm [StructuralVariantRecord.set_srSupport 0 demo_sv; demo_sv_other]
         [[]; []] [true; false]
         [CallMsa 0 [demo_seq; demo_seq]; CallAlignConsensus 0]).

Lemma demo_final_pass :
  demo_assembleSplitReads [demo_store; ∅] [demo_sv; demo_sv_other]
  = Some demo_final.
Proof. vm_compute. reflexivity. Defined.

Lemma demo_sv_other_unreferenced : unreferenced [demo_store; ∅] 1.
Proof.
  intros store key [<- | [<- | []]] H.
  - rewrite <- elem_of_list_to_map in H
      by (apply (bool_decide_unpack _); vm_compute; exact I).
    repeat (apply elem_of_cons in H; destruct H as [H | H]; [discriminate |]).
    apply elem_of_nil in H. exact H.
  - rewrite lookup_empty in H. discriminate.
Defined.

(** X16, witness: SV 1 is unreferenced and comes out as it went in. *)
Lemma unreferenced_sv_is_untouched_witness :
  length (svs demo_final) = 2%nat
  /\ svs demo_final !! 1%nat = Some demo_sv_other.
Proof.
  destruct (unreferenced_sv_is_untouched Demo.hash_string Demo.translocationRec
              Demo.translocation Demo.adjustOrientation Demo.msa
              Demo.alignConsensus Demo.n_targets Demo.validRegions
              Demo.faidx_fetch_seq Demo.sam_itr Demo.config [demo_store; ∅]
              [demo_sv; demo_sv_other] demo_final 1%nat demo_final_pass)
    as [Hlen Hsame].
  split; [exact Hlen | exact (Hsame demo_sv_other_unreferenced)].
Defined.

(** X17, witness: the log of the demo pass is one MSA call on two sequences
    and the consensus alignment that follows it. *)
Lemma msa_called_on_2_to_20_sequences_witness :
  callsOk [CallMsa 0 [demo_seq; demo_seq]; CallAlignConsensus 0] = true.
Proof.
  exact (msa_called_on_2_to_20_sequences Demo.hash_string Demo.translocationRec
           Demo.translocation Demo.adjustOrientation Demo.msa Demo.alignConsensus
           Demo.n_targets Demo.validRegions Demo.faidx_fetch_seq Demo.sam_itr
           Demo.config [demo_store; ∅] [demo_sv; demo_sv_other] demo_final
           demo_final_pass).
Defined.

(** X18, witness: the evidence record of "pairA" in an empty sink. *)
Lemma evidence_passed_every_filter_witness :
  In demo_evidence (bamRecord (demo_scanSampleReads 0%nat Demo.library ∅) !!! 2)
  /\ (In demo_evidence ((∅ : gmap Z (list BamAlignRecord.t)) !!! 2)
      \/ Classified Demo.translocationRec Demo.isizeMappingPos Demo.validRegions
           Demo.config 550 Demo.library 2 Demo.pairA_second).
Proof.
  assert (H : In demo_evidence
                (bamRecord (demo_scanSampleReads 0%nat Demo.library ∅) !!! 2))
    by (vm_compute; left; reflexivity).
  split; [exact H |].
  exact (evidence_passed_every_filter [] traceJunction Demo.hash_string
           Demo.hash_pair Demo.hash_pair_mate Demo.alignmentLength
           Demo.translocationRec Demo.translocation Demo.isizeMappingPos
           Demo.firstPairObs Demo.n_targets Demo.validRegions Demo.hts_idx_mapped
           Demo.sam_itr Demo.config 0%nat Demo.library ∅ 2 demo_evidence H).
Defined.

(** X19, witness: one file, one library; the counter goes from 0 to 1. *)
Lemma sample_loop_keeps_libraries_witness :
  length (sampleLib (demo_scanSamples [Demo.library])) = 1%nat
  /\ forall i l, [Demo.library] !! i = Some l ->
       exists l', sampleLib (demo_scanSamples [Demo.library]) !! i = Some l'
                  /\ sameLibrary l l'.
Proof.
  refine (sample_loop_keeps_libraries [] traceJunction Demo.sortJunctions
            Demo.selectDeletions Demo.selectNone Demo.selectNone Demo.selectNone
            Demo.selectNone Demo.hash_string Demo.hash_pair Demo.hash_pair_mate
            Demo.alignmentLength Demo.translocationRec Demo.translocation
            Demo.isizeMappingPos Demo.firstPairObs Demo.DELLY_SVT_TRANS
            Demo.n_targets Demo.validRegions Demo.hts_idx_mapped Demo.sam_itr
            Demo.config [Demo.library] _).
  vm_compute. lia.
Defined.

(** X21, witness: SV 0 of the final state of the demo pass is done. *)
Lemma done_sv_stays_done_witness :
  (forall refIndex store hits rec st',
      demo_gatherRead refIndex store hits demo_final rec = Some st' ->
      svDone st' !!! 0%nat = true /\ seqStore st' !!! 0%nat = [])
  /\ (forall refseq, demo_completeOne refseq demo_final 0%nat = demo_final)
  /\ (forall refseq j,
        svDone (demo_completeOne refseq demo_final j) !!! 0%nat = true).
Proof.
  refine (done_sv_stays_done Demo.hash_string Demo.translocationRec
            Demo.translocation Demo.adjustOrientation Demo.msa Demo.alignConsensus
            Demo.config demo_final 0%nat _ eq_refl).
  split; [reflexivity | split; [reflexivity | split]].
  - intros [| [| i]]; vm_compute; discriminate.
  - intros [| [| i]]; vm_compute; intros H; try reflexivity; discriminate.
Defined.

(** *** Whole runs *)

(** X23, witness: the demo sample; its split-read records are those of the
    junction extractor alone. *)
Lemma split_read_records_ignore_pairs_witness :
  srBR (demo_scanSamples [Demo.library])
  = splitReadsOnly [] traceJunction Demo.sortJunctions Demo.selectDeletions
      Demo.selectNone Demo.selectNone Demo.selectNone Demo.selectNone
      Demo.hash_string Demo.DELLY_SVT_TRANS Demo.n_targets Demo.validRegions
      Demo.hts_idx_mapped Demo.sam_itr Demo.config.
Proof.
  refine (split_read_records_ignore_pairs [] traceJunction Demo.sortJunctions
            Demo.selectDeletions Demo.selectNone Demo.selectNone Demo.selectNone
            Demo.selectNone Demo.hash_string Demo.hash_pair Demo.hash_pair_mate
            Demo.alignmentLength Demo.translocationRec Demo.translocation
            Demo.isizeMappingPos Demo.firstPairObs Demo.DELLY_SVT_TRANS
            Demo.n_targets Demo.validRegions Demo.hts_idx_mapped Demo.sam_itr
            Demo.config [Demo.library] _).
  vm_compute. lia.
Defined.

(** X24, witness: the demo sample sequenced single-end; the SV vector the
    caller passed comes back, and so does the library record. *)
Lemma single_end_run_adds_no_pe_sv_witness :
  exists res,
    demo_scanPEandSR [demo_sv_other] [] [∅; ∅] [Demo.single_end_library]
    = Some res
    /\ res_svs res = [demo_sv_other]
    /\ res_sampleLib res = [Demo.single_end_library].
Proof.
  eexists. split; [vm_compute; reflexivity |].
  refine (single_end_run_adds_no_pe_sv [] traceJunction Demo.sortJunctions
            Demo.selectDeletions Demo.selectNone Demo.selectNone Demo.selectNone
            Demo.selectNone Demo.hash_string Demo.hash_pair Demo.hash_pair_mate
            Demo.alignmentLength Demo.translocationRec Demo.translocation
            Demo.isizeMappingPos Demo.firstPairObs Demo.getVariability
            Demo.DELLY_SVT_TRANS Demo.sortSRBamRecord Demo.sortBamRecords
            Demo.clusterSR Demo.clusterPE Demo.n_targets Demo.validRegions
            Demo.hts_idx_mapped Demo.sam_itr Demo.config [demo_sv_other] []
            [∅; ∅] [Demo.single_end_library] _ _ _ _).
  - vm_compute. lia.
  - repeat constructor.
  - vm_compute. reflexivity.
Defined.
